(** * Micromechanical Monte Carlo energy engine (ecmLab/firstPrinciple, mcecm)

    A shallow embedding of the Python scripts [debug1/1/sporc_mpi6.py],
    [debug2/mac5.py] and [debug2/mac6.py].

    Numbers.  The scripts compute with IEEE doubles; this development
    reads every float as the real number it stands for and every numpy
    operation as the exact operation it approximates ([R] of the Standard
    Library).  Rounding, overflow and the order of a floating-point
    reduction are therefore outside the model.

    Arrays.  A numpy array is a total function from its indices to its
    entries; the scripts only index inside [range(N)] and [range(3)], so
    an [IndexError] never arises and the values a function takes outside
    the shape are never read.  An in-place write [A[i] = v] is a pointwise
    update, a [for] loop over [range(n)] is a left fold over [seq 0 n]
    that threads the loop's variables. *)

From Stdlib Require Import Reals Lra Lia List Bool Arith PeanoNat.
Import ListNotations.

Open Scope R_scope.

(** ** Python control flow and errors *)

Module Py.

(** The exceptions the modelled functions can raise. *)
Inductive Exc : Type :=
| ZeroDivisionError.

Definition result (A : Type) : Type := (Exc + A)%type.

Definition ret {A} (a : A) : result A := inr a.
Definition raise {A} (e : Exc) : result A := inl e.
Definition bind {A B} (m : result A) (f : A -> result B) : result B :=
  match m with
  | inl e => inl e
  | inr a => f a
  end.

Notation "x <- m ;; k" := (bind m (fun x => k))
  (at level 61, m at next level, right associativity).

(** [x / y] on Python numbers: a zero divisor raises. *)
Definition truediv (x y : R) : result R :=
  if Req_EM_T y 0 then raise ZeroDivisionError else ret (x / y).

(** [range(n)] and [range(start, stop, step)] for a positive step. *)
Definition range (n : nat) : list nat := seq 0 n.

Definition range3 (start stop step : nat) : list nat :=
  map (fun i => (start + i * step)%nat)
      (seq 0 ((stop - start + (step - 1)) / step)).

(** [for i in l: s = body i s]. *)
Definition for_ {S : Type} (l : list nat) (body : nat -> S -> S) (s : S) : S :=
  fold_left (fun s i => body i s) l s.

End Py.

Import Py.

(** ** numpy arrays of the shapes the scripts use *)

Module Np.

Definition Vec3 : Type := nat -> R.
Definition Mat3 : Type := nat -> nat -> R.
Definition Tensor4 : Type := nat -> nat -> nat -> nat -> R.

Definition zeros2 : Mat3 := fun _ _ => 0.
Definition zeros4 : Tensor4 := fun _ _ _ _ => 0.

(** [C[i, j, k, l] = v] *)
Definition set4 (C : Tensor4) (i j k l : nat) (v : R) : Tensor4 :=
  fun i' j' k' l' =>
    if (i' =? i)%nat && (j' =? j)%nat && (k' =? k)%nat && (l' =? l)%nat
    then v else C i' j' k' l'.

(** [np.array([[a, 0, 0], [0, b, 0], [0, 0, c]])] *)
Definition diag3 (a b c : R) : Mat3 :=
  fun i j =>
    match i, j with
    | 0%nat, 0%nat => a
    | 1%nat, 1%nat => b
    | 2%nat, 2%nat => c
    | _, _ => 0
    end.

(** A sum over one einsum index of extent 3. *)
Definition esum (f : nat -> R) : R := f 0%nat + f 1%nat + f 2%nat.

(** Arrays whose first three axes are the lattice (or reciprocal) grid. *)
Definition Grid (A : Type) : Type := nat -> nat -> nat -> A.

Definition zerosG {A : Type} (z : A) : Grid A := fun _ _ _ => z.

(** [F[x, y, z] = v] *)
Definition setG {A : Type} (F : Grid A) (x y z : nat) (v : A) : Grid A :=
  fun x' y' z' =>
    if (x' =? x)%nat && (y' =? y)%nat && (z' =? z)%nat then v else F x' y' z'.

(** [np.linalg.norm(k)] of a vector of length 3. *)
Definition norm (k : Vec3) : R :=
  sqrt (k 0%nat * k 0%nat + k 1%nat * k 1%nat + k 2%nat * k 2%nat).

(** [np.linalg.det] and [np.linalg.inv] of a 3x3 matrix, as the exact
    determinant and the exact inverse (adjugate over determinant); numpy
    reaches them through an LU factorisation, which computes the same
    numbers in exact arithmetic. *)
Definition nxt (i : nat) : nat := ((i + 1) mod 3)%nat.

Definition cofactor (M : Mat3) (r c : nat) : R :=
  M (nxt r) (nxt c) * M (nxt (nxt r)) (nxt (nxt c))
  - M (nxt r) (nxt (nxt c)) * M (nxt (nxt r)) (nxt c).

Definition det (M : Mat3) : R :=
  M 0%nat 0%nat * cofactor M 0 0
  + M 0%nat 1%nat * cofactor M 0 1
  + M 0%nat 2%nat * cofactor M 0 2.

Definition inv (M : Mat3) : Mat3 :=
  fun i j => cofactor M j i / det M.

(** [np.fft.fftfreq(n, d)]: the integers [0 .. (n-1)//2] followed by
    [-(n//2) .. -1], each times [1 / (n * d)]. *)
Definition fftfreq (n : nat) (d : R) : nat -> R :=
  let val := 1 / (INR n * d) in
  let N := ((n - 1) / 2 + 1)%nat in
  fun i =>
    (if (i <? N)%nat then INR i
     else IZR (- Z.of_nat (n / 2) + Z.of_nat (i - N))) * val.

(** [np.allclose(q, 0)] with numpy's default tolerances:
    [|q[c] - 0| <= atol + rtol * |0|] for every component. *)
Definition rtol : R := 1 / 100000.
Definition atol : R := 1 / 100000000.

Definition allclose0 (q : Vec3) : bool :=
  forallb (fun c =>
             if Rle_dec (Rabs (q c - 0)) (atol + rtol * Rabs 0)
             then true else false)
          [0%nat; 1%nat; 2%nat].

(** [np.clip(x, None, hi)] *)
Definition clip_max (x hi : R) : R := Rmin x hi.

(** [np.mean(F, axis=(0, 1, 2))] of an [N x N x N x 3 x 3] array: every
    tensor component summed over the grid, over the number of grid
    points. *)
Definition mean (N : nat) (F : Grid Mat3) : Mat3 :=
  fun i j =>
    for_ (range N) (fun x acc =>
    for_ (range N) (fun y acc =>
    for_ (range N) (fun z acc => acc + F x y z i j) acc) acc) 0
    / INR (N * N * N).

End Np.

Import Np.

(** ** Material model *)

(** [define_dimensionless_strains(epsilon_a, gamma_0)] *)
Definition define_dimensionless_strains (epsilon_a gamma_0 : R)
  : result (Mat3 * Mat3 * Mat3) :=
  factor <- truediv epsilon_a gamma_0 ;;
  let epsilon_1 := diag3 (1 + factor) factor factor in
  let epsilon_2 := diag3 factor (1 + factor) factor in
  let epsilon_3 := diag3 factor factor (1 + factor) in
  ret (epsilon_1, epsilon_2, epsilon_3).

(** The four nested loops of [precompute_stiffness_tensor], started from
    [np.zeros((3, 3, 3, 3))]. *)
Definition stiffness_loops (C11 C12 C44 : R) : Tensor4 :=
  for_ (range 3) (fun i C =>
  for_ (range 3) (fun j C =>
  for_ (range 3) (fun k C =>
  for_ (range 3) (fun l C =>
    if (i =? j)%nat && (k =? l)%nat then
      set4 C i j k l (if (i =? k)%nat then C11 else C12)
    else if (i =? k)%nat && (j =? l)%nat then
      set4 C i j k l (if negb (i =? j)%nat then C44 else 0)
    else C) C) C) C) zeros4.

(** [precompute_stiffness_tensor(anisoPar)] *)
Definition precompute_stiffness_tensor (anisoPar : R) : result Tensor4 :=
  C11 <- truediv 4 anisoPar ;;
  let C12 := C11 / 2 in
  let C44 := 1 in
  ret (stiffness_loops C11 C12 C44).

(** The start of [main]: the material model runs first, and the rest of
    the run (here the continuation [simulation]) only starts from its
    results. *)
Definition main_setup {A : Type} (epsilon_a gamma_0 anisoPar : R)
    (simulation : Mat3 * Mat3 * Mat3 -> Tensor4 -> result A) : result A :=
  eps <- define_dimensionless_strains epsilon_a gamma_0 ;;
  stiffness_tensor <- precompute_stiffness_tensor anisoPar ;;
  simulation eps stiffness_tensor.

(** ** Reciprocal kernel builder *)

(** [q_grid[qx, qy, qz]]: the three meshgrid components stacked on the
    last axis, from [q_range = np.fft.fftfreq(N, d=1 / (2 * np.pi))]. *)
Definition q_grid_of (N : nat) : Grid Vec3 :=
  let q_range := fftfreq N (1 / (2 * PI)) in
  fun qx qy qz c =>
    match c with
    | 0%nat => q_range qx
    | 1%nat => q_range qy
    | _ => q_range qz
    end.

(** [k_unit = k / np.linalg.norm(k)] *)
Definition unit_of (k : Vec3) : Vec3 := fun c => k c / norm k.

(** [np.linalg.inv(G_inv) if np.linalg.det(G_inv) != 0 else np.zeros((3, 3))] *)
Definition green (G_inv : Mat3) : Mat3 :=
  if Req_EM_T (det G_inv) 0 then zeros2 else inv G_inv.


(** ** Strain field and its spectrum *)

(** Complex numbers as pairs (real part, imaginary part). *)
Module Cx.

Definition t : Type := (R * R)%type.

Definition zero : t := (0, 0).
Definition of_real (x : R) : t := (x, 0).
Definition add (a b : t) : t := (fst a + fst b, snd a + snd b).
Definition mul (a b : t) : t :=
  (fst a * fst b - snd a * snd b, fst a * snd b + snd a * fst b).
Definition conj (a : t) : t := (fst a, - snd a).
Definition real (a : t) : R := fst a.

(** [exp(i * theta)] *)
Definition cis (theta : R) : t := (cos theta, sin theta).

(** A sum over one einsum index of extent 3. *)
Definition esum (f : nat -> t) : t :=
  add (add (f 0%nat) (f 1%nat)) (f 2%nat).

(** The sum of [f m] for [m] in a list, accumulated left to right. *)
Definition sum (l : list nat) (f : nat -> t) : t :=
  fold_left (fun acc m => add acc (f m)) l zero.

End Cx.

Definition CMat3 : Type := nat -> nat -> Cx.t.

(** [compute_strain_field(lattice_spins, epsilon_1, epsilon_2, epsilon_3)];
    [N] is [lattice_spins.shape[0]]. *)
Definition compute_strain_field (N : nat) (lattice_spins : Grid Z)
    (epsilon_1 epsilon_2 epsilon_3 : Mat3) : Grid Mat3 :=
  for_ (range N) (fun x strain_field =>
  for_ (range N) (fun y strain_field =>
  for_ (range N) (fun z strain_field =>
    let spin := lattice_spins x y z in
    if (spin =? 1)%Z then setG strain_field x y z epsilon_1
    else if (spin =? 2)%Z then setG strain_field x y z epsilon_2
    else if (spin =? 3)%Z then setG strain_field x y z epsilon_3
    else strain_field)
  strain_field) strain_field) (zerosG zeros2).

(** [np.fft.fftn(strain_field, axes=(0, 1, 2))]: the discrete Fourier
    transform over the three grid axes,
    [A[q] = sum_x a[x] * exp(-2 pi i (q . x) / N)], of every tensor
    component. *)
Definition fftn (N : nat) (strain_field : Grid Mat3) : Grid CMat3 :=
  fun qx qy qz i j =>
    Cx.sum (range N) (fun x =>
    Cx.sum (range N) (fun y =>
    Cx.sum (range N) (fun z =>
      Cx.mul (Cx.of_real (strain_field x y z i j))
             (Cx.cis (- (2 * PI)
                      * (INR qx * INR x + INR qy * INR y + INR qz * INR z)
                      / INR N))))).

(** ** Energy evaluator *)

(** [np.real(np.einsum("ij,ijkl,kl->", e, Bq, e.conj()))] *)
Definition contraction (e : CMat3) (Bq : Tensor4) : R :=
  Cx.real
    (Cx.esum (fun i => Cx.esum (fun j => Cx.esum (fun k => Cx.esum (fun l =>
       Cx.mul (Cx.mul (e i j) (Cx.of_real (Bq i j k l)))
              (Cx.conj (e k l))))))).

(** The three nested loops of [compute_elastic_energy], with the running
    [local_energy] as the loop state; [N] is [lattice_spins.shape[0]]. *)
Definition energy_loops (N : nat) (q_grid : Grid Vec3) (B : Grid Tensor4)
    (strain_ft : Grid CMat3) (rank size : nat) : R :=
  for_ (range3 rank N size) (fun qx_idx local_energy =>
  for_ (range N) (fun qy_idx local_energy =>
  for_ (range N) (fun qz_idx local_energy =>
    if allclose0 (q_grid qx_idx qy_idx qz_idx) then local_energy
    else local_energy
         + contraction (strain_ft qx_idx qy_idx qz_idx)
                       (B qx_idx qy_idx qz_idx))
  local_energy) local_energy) 0.

(** [comm.reduce(local, op=MPI.SUM, root=0)] followed by
    [comm.bcast(_, root=0)]: every rank ends with the sum of the
    contributions of ranks 0, 1, ..., size-1. *)
Definition reduce_sum_bcast (locals : list R) : R :=
  fold_left Rplus locals 0.

(** The Metropolis acceptance probability, as every script computes it:
    [[
    max_exp_arg = 700
    if delta_E > 0:
        prob = np.exp(-np.clip(delta_E / temperature, None, max_exp_arg))
    else:
        prob = 1.0
    ]]
    The quotient is the real one, which is what the doubles compute for
    a nonzero [temperature]; for [temperature == 0] numpy's quotient is
    [inf], no real number, and the statements about the probability
    carry [temperature <> 0] (or [0 < temperature]). *)
Definition max_exp_arg : R := 700.

Definition acceptance_probability (delta_E temperature : R) : R :=
  if Rlt_dec 0 delta_E
  then exp (- clip_max (delta_E / temperature) max_exp_arg)
  else 1.

(** [random.random() < prob], for the drawn number [u]. *)
Definition accepts (u prob : R) : bool :=
  if Rlt_dec u prob then true else false.

(** [random.choice(seq)] for the index [pick] the generator selects. *)
Definition choice (seq : list Z) (pick : nat) : Z := nth pick seq 0%Z.

(** [[s for s in [1, 2, 3] if s != current_spin]] *)
Definition other_spins (current_spin : Z) : list Z :=
  filter (fun s => negb (s =? current_spin)%Z) [1%Z; 2%Z; 3%Z].

(** What one worker's random generators return during one call of
    [monte_carlo_step]: [np.random.randint(0, N, size=3)], the index
    [random.choice] selects, and [random.random()]. *)
Record Draws : Type := {
  site_x : nat;
  site_y : nat;
  site_z : nat;
  pick : nat;
  uniform : R
}.

(** ** The arrays of one worker process

    Every MPI rank is a Python process of its own.  Its numpy arrays are
    objects in its heap; a variable or a parameter holds a reference, an
    assignment [a = b] copies the reference (both names then denote the
    same array), and an indexed assignment [a[x, y, z] = v] writes into
    the array that [a] refers to. *)

Module Heap.

Definition Ref : Type := nat.

Record t : Type := {
  ints : Ref -> Grid Z;            (* integer arrays: spin lattices *)
  floats : Ref -> Grid Mat3;       (* real N x N x N x 3 x 3 arrays *)
  complexes : Ref -> Grid CMat3    (* complex N x N x N x 3 x 3 arrays *)
}.

Definition upd {A : Type} (m : Ref -> A) (r : Ref) (a : A) : Ref -> A :=
  fun r' => if (r' =? r)%nat then a else m r'.

(** [a[x, y, z] = v] for an integer array [a] *)
Definition store_int (h : t) (a : Ref) (x y z : nat) (v : Z) : t :=
  {| ints := upd (ints h) a (setG (ints h a) x y z v);
     floats := floats h;
     complexes := complexes h |}.

(** [a[x, y, z] = M] for a real array [a] and a 3x3 block [M] *)
Definition store_float (h : t) (a : Ref) (x y z : nat) (M : Mat3) : t :=
  {| ints := ints h;
     floats := upd (floats h) a (setG (floats h a) x y z M);
     complexes := complexes h |}.

(** [a[:] = A] for a complex array [a] *)
Definition assign_complex (h : t) (a : Ref) (A : Grid CMat3) : t :=
  {| ints := ints h;
     floats := floats h;
     complexes := upd (complexes h) a A |}.

End Heap.

(** The site and spin of a proposal. *)
Record Proposal : Type := {
  px : nat;
  py : nat;
  pz : nat;
  current_spin : Z;
  proposed_spin : Z
}.

(** [[
    x, y, z = np.random.randint(0, N, size=3)
    current_spin = lattice_spins[x, y, z]
    proposed_spin = random.choice([s for s in [1, 2, 3] if s != current_spin])
    ]] *)
Definition draw_proposal (lattice : Grid Z) (d : Draws) : Proposal :=
  let x := site_x d in
  let y := site_y d in
  let z := site_z d in
  let current_spin := lattice x y z in
  let proposed_spin := choice (other_spins current_spin) (pick d) in
  {| px := x; py := y; pz := z;
     current_spin := current_spin; proposed_spin := proposed_spin |}.

(** ** debug2/mac5.py *)

Module Mac5.

(** [np.einsum("imjn,m,n->ij", stiffness_tensor, k_unit, k_unit)] *)
Definition acoustic (stiffness_tensor : Tensor4) (k_unit : Vec3) : Mat3 :=
  fun i j =>
    esum (fun m => esum (fun n =>
      stiffness_tensor i m j n * k_unit m * k_unit n)).

(** The kernel entry of one grid point with direction [k_unit]
    (mac5.py, lines 47-54). *)
Definition kernel_entry (stiffness_tensor : Tensor4) (k_unit : Vec3) : Tensor4 :=
  let G_inv := acoustic stiffness_tensor k_unit in
  let G := green G_inv in
  (* "p,pqij->qij" *)
  let intermediate_1 : nat -> nat -> nat -> R := fun q i j =>
    esum (fun p => k_unit p * stiffness_tensor p q i j) in
  (* "qij,qr->ijr" *)
  let intermediate_2 : nat -> nat -> nat -> R := fun i j r =>
    esum (fun q => intermediate_1 q i j * G q r) in
  (* "rskl,s->rkl" *)
  let intermediate_3 : nat -> nat -> nat -> R := fun r k l =>
    esum (fun s => stiffness_tensor r s k l * k_unit s) in
  (* stiffness_tensor - einsum("ijr,rkl->ijkl") *)
  fun i j k l =>
    stiffness_tensor i j k l
    - esum (fun r => intermediate_2 i j r * intermediate_3 r k l).

(** [precompute_reciprocal_space_and_kernel(N, stiffness_tensor)] *)
Definition precompute_reciprocal_space_and_kernel
    (N : nat) (stiffness_tensor : Tensor4) : Grid Vec3 * Grid Tensor4 :=
  let q_grid := q_grid_of N in
  let B :=
    for_ (range N) (fun qx_idx B =>
    for_ (range N) (fun qy_idx B =>
    for_ (range N) (fun qz_idx B =>
      let k := q_grid qx_idx qy_idx qz_idx in
      if Req_EM_T (norm k) 0 then B  (* continue *)
      else
        let k_unit := unit_of k in
        setG B qx_idx qy_idx qz_idx (kernel_entry stiffness_tensor k_unit))
    B) B) (zerosG zeros4) in
  (q_grid, B).

(** [compute_elastic_energy(lattice_spins, q_grid, B, strain_ft, rank, size)] *)
Definition compute_elastic_energy (N : nat) (q_grid : Grid Vec3)
    (B : Grid Tensor4) (strain_ft : Grid CMat3) (rank size : nat) : R :=
  let local_energy := energy_loops N q_grid B strain_ft rank size in
  local_energy / (16 * PI ^ 3).

(** The variables of [main] that one rank passes to [monte_carlo_step]
    and receives back from it, with the rank's heap. *)
Record Worker : Type := {
  heap : Heap.t;
  lattice_spins : Heap.Ref;
  strain_field : Heap.Ref;
  current_energy : R
}.

(** Lines 102-117, the branch [rank == 0]: the proposal, the tentative
    strain field and its spectrum.  [strain_field_new = strain_field]
    gives the caller's array a second name; the three indexed
    assignments write through it. *)
Definition propose_root (N : nat) (epsilon_1 epsilon_2 epsilon_3 : Mat3)
    (w : Worker) (d : Draws) : Heap.t * Proposal * Heap.Ref * Grid CMat3 :=
  let h := heap w in
  let p := draw_proposal (Heap.ints h (lattice_spins w)) d in
  let strain_field_new : Heap.Ref := strain_field w in
  let h :=
    if (proposed_spin p =? 1)%Z then
      Heap.store_float h strain_field_new (px p) (py p) (pz p) epsilon_1
    else if (proposed_spin p =? 2)%Z then
      Heap.store_float h strain_field_new (px p) (py p) (pz p) epsilon_2
    else if (proposed_spin p =? 3)%Z then
      Heap.store_float h strain_field_new (px p) (py p) (pz p) epsilon_3
    else h in
  let strain_ft_new := fftn N (Heap.floats h strain_field_new) in
  (h, p, strain_field_new, strain_ft_new).

(** Lines 133-150, the branch [rank == 0]: the decision and, on
    acceptance, the commit. *)
Definition decide_root (temperature : R) (w : Worker) (h : Heap.t)
    (p : Proposal) (strain_field_new : Heap.Ref) (E_new : R) (d : Draws)
  : Worker * bool :=
  let delta_E := E_new - current_energy w in
  let prob := acceptance_probability delta_E temperature in
  if accepts (uniform d) prob then
    let h := Heap.store_int h (lattice_spins w) (px p) (py p) (pz p)
                            (proposed_spin p) in
    let h := Heap.store_float h (strain_field w) (px p) (py p) (pz p)
               (Heap.floats h strain_field_new (px p) (py p) (pz p)) in
    ({| heap := h; lattice_spins := lattice_spins w;
        strain_field := strain_field w; current_energy := E_new |}, true)
  else
    ({| heap := h; lattice_spins := lattice_spins w;
        strain_field := strain_field w;
        current_energy := current_energy w |}, false).

(** One call of [monte_carlo_step] on every rank of the communicator, in
    lock step; [workers] lists the ranks 0, 1, ..., size-1 and [d] is what
    the generators of rank 0 return (no other rank draws).

    - [strain_ft_new = comm.bcast(strain_ft_new, root=0)] hands the
      spectrum of rank 0 to every rank;
    - [E_new] is the sum of the local energies, reduced and broadcast;
    - [lattice_spins = comm.bcast(lattice_spins, root=0)] and
      [strain_field = comm.bcast(strain_field, root=0)] bind the two
      parameter names of the callee to the received copies, which are
      dropped on return: on a rank other than 0 no array of the caller
      is written, and the returned [current_energy] is the argument;
    - [accepted = comm.bcast(accepted, root=0)] is returned by all. *)
Definition monte_carlo_step (N : nat) (temperature : R)
    (q_grid : Grid Vec3) (B : Grid Tensor4)
    (epsilon_1 epsilon_2 epsilon_3 : Mat3)
    (workers : list Worker) (d : Draws) : list (Worker * bool) :=
  match workers with
  | [] => []
  | root :: others =>
      let size := length workers in
      let '(h, p, strain_field_new, strain_ft_new) :=
        propose_root N epsilon_1 epsilon_2 epsilon_3 root d in
      let local_E_new :=
        map (fun rank =>
               compute_elastic_energy N q_grid B strain_ft_new rank size)
            (range size) in
      let E_new := reduce_sum_bcast local_E_new in
      let '(root', accepted) :=
        decide_root temperature root h p strain_field_new E_new d in
      (root', accepted) :: map (fun w => (w, accepted)) others
  end.

End Mac5.

(** ** debug2/mac6.py *)

Module Mac6.

(** [compute_elastic_energy(lattice_spins, q_grid, B, strain_ft, rank, size)];
    the lattice is not empty ([N > 0]), so the divisor is not zero. *)
Definition compute_elastic_energy (N : nat) (q_grid : Grid Vec3)
    (B : Grid Tensor4) (strain_ft : Grid CMat3) (rank size : nat) : R :=
  let local_energy := energy_loops N q_grid B strain_ft rank size in
  local_energy / (2 * INR N ^ 3).

(** The variables of [main] that one rank passes to [monte_carlo_step]
    and receives back from it, with the rank's heap.  [macro_strain] is
    only ever rebound to a new array, never written into, so the record
    holds its value. *)
Record Worker : Type := {
  heap : Heap.t;
  lattice_spins : Heap.Ref;
  macro_strain : Mat3;
  current_energy : R
}.

(** Lines 103-113, the branch [rank == 0]: the proposal, the strain field
    of the lattice with the proposed spin written in and taken out again,
    its mean and its spectrum. *)
Definition propose_root (N : nat) (epsilon_1 epsilon_2 epsilon_3 : Mat3)
    (w : Worker) (d : Draws) : Heap.t * Proposal * Mat3 * Grid CMat3 :=
  let h := heap w in
  let p := draw_proposal (Heap.ints h (lattice_spins w)) d in
  let h := Heap.store_int h (lattice_spins w) (px p) (py p) (pz p)
                          (proposed_spin p) in
  let strain_field_new :=
    compute_strain_field N (Heap.ints h (lattice_spins w))
                         epsilon_1 epsilon_2 epsilon_3 in
  let h := Heap.store_int h (lattice_spins w) (px p) (py p) (pz p)
                          (current_spin p) in
  let macro_strain_new := mean N strain_field_new in
  let strain_ft_new := fftn N strain_field_new in
  (h, p, macro_strain_new, strain_ft_new).

(** Lines 128-145, the branch [rank == 0]: the decision and, on
    acceptance, the commit. *)
Definition decide_root (temperature : R) (w : Worker) (h : Heap.t)
    (p : Proposal) (macro_strain_new : Mat3) (E_new : R) (d : Draws)
  : Worker * bool :=
  let delta_E := E_new - current_energy w in
  let prob := acceptance_probability delta_E temperature in
  if accepts (uniform d) prob then
    let h := Heap.store_int h (lattice_spins w) (px p) (py p) (pz p)
                            (proposed_spin p) in
    ({| heap := h; lattice_spins := lattice_spins w;
        macro_strain := macro_strain_new; current_energy := E_new |}, true)
  else
    ({| heap := h; lattice_spins := lattice_spins w;
        macro_strain := macro_strain w;
        current_energy := current_energy w |}, false).

(** One call of [monte_carlo_step] on every rank of the communicator, in
    lock step; [workers] lists the ranks 0, 1, ..., size-1 and [d] is what
    the generators of rank 0 return (no other rank draws).  The spectrum
    and [E_new] reach every rank as in [mac5.py];
    [lattice_spins = comm.bcast(lattice_spins, root=0)] binds the
    parameter name of the callee, so no array of a rank other than 0 is
    written; [macro_strain = comm.bcast(macro_strain, root=0)] and
    [accepted = comm.bcast(accepted, root=0)] are returned by all, next to
    the rank's own [current_energy]. *)
Definition monte_carlo_step (N : nat) (temperature : R)
    (q_grid : Grid Vec3) (B : Grid Tensor4)
    (epsilon_1 epsilon_2 epsilon_3 : Mat3)
    (workers : list Worker) (d : Draws) : list (Worker * bool) :=
  match workers with
  | [] => []
  | root :: others =>
      let size := length workers in
      let '(h, p, macro_strain_new, strain_ft_new) :=
        propose_root N epsilon_1 epsilon_2 epsilon_3 root d in
      let local_E_new :=
        map (fun rank =>
               compute_elastic_energy N q_grid B strain_ft_new rank size)
            (range size) in
      let E_new := reduce_sum_bcast local_E_new in
      let '(root', accepted) :=
        decide_root temperature root h p macro_strain_new E_new d in
      (root', accepted)
      :: map (fun w =>
                ({| heap := heap w; lattice_spins := lattice_spins w;
                    macro_strain := macro_strain root';
                    current_energy := current_energy w |}, accepted))
             others
  end.

(** The inner loop of [main] (lines 210-214) on every rank, in lock step:
    [lattice_spins.size // size] calls of [monte_carlo_step], each rank
    counting in [accepted_moves] the calls that returned [accepted].
    [draws call] is what the generators of rank 0 return during that
    call. *)
Definition sweep (N : nat) (temperature : R)
    (q_grid : Grid Vec3) (B : Grid Tensor4)
    (epsilon_1 epsilon_2 epsilon_3 : Mat3)
    (workers : list Worker) (draws : nat -> Draws) : list (Worker * nat) :=
  let size := length workers in
  for_ (range (N * N * N / size)) (fun call (ranks : list (Worker * nat)) =>
    let results :=
      monte_carlo_step N temperature q_grid B epsilon_1 epsilon_2 epsilon_3
                       (map fst ranks) (draws call) in
    map (fun '((_, accepted_moves), (w, accepted)) =>
           (w, if accepted : bool then S accepted_moves else accepted_moves))
        (combine ranks results))
  (map (fun w => (w, 0%nat)) workers).

(** What rank 0 prints at the end of a step:
    [Timestep {step}: totE=..., dErel = ..., Accepted Moves = ...]. *)
Record Line : Type := {
  step : nat;
  totE : R;
  dErel : R;
  accepted_moves : nat
}.

(** The two variables of [main] that decide when the run ends. *)
Record Monitor : Type := {
  zero_move_steps : nat;
  terminate_flag : bool
}.

Definition max_stable_steps : nat := 20.

(** The loop over the steps of [main] (lines 206-243), from the workers
    as the setup leaves them.  The state is the workers, the monitor of
    rank 0 (whose [terminate_flag] every rank receives) and the lines
    rank 0 has printed; [break] leaves the remaining steps without
    effect. *)
Definition main_loop (N : nat) (temperature : R)
    (q_grid : Grid Vec3) (B : Grid Tensor4)
    (epsilon_1 epsilon_2 epsilon_3 : Mat3) (num_steps : nat)
    (workers : list Worker) (draws : nat -> nat -> Draws)
  : list Worker * Monitor * list Line :=
  for_ (range3 1 (num_steps + 1) 1)
    (fun step '(workers, m, printed) =>
       if terminate_flag m then (workers, m, printed)  (* break *)
       else
         match workers with
         | [] => (workers, m, printed)
         | root :: _ =>
             let prev_energy := current_energy root in
             match sweep N temperature q_grid B epsilon_1 epsilon_2 epsilon_3
                         workers (draws step) with
             | [] => (workers, m, printed)
             | (root', accepted_moves) :: others' =>
                 let dErel :=
                   if Req_EM_T prev_energy 0 then 0
                   else (current_energy root' - prev_energy) / prev_energy in
                 let line :=
                   {| step := step; totE := current_energy root';
                      dErel := dErel; accepted_moves := accepted_moves |} in
                 let zero_move_steps :=
                   if (accepted_moves <=? 0)%nat
                   then (zero_move_steps m + 1)%nat else 0%nat in
                 let terminate_flag :=
                   if (max_stable_steps <=? zero_move_steps)%nat then true
                   else terminate_flag m in
                 (root' :: map fst others',
                  {| zero_move_steps := zero_move_steps;
                     terminate_flag := terminate_flag |},
                  printed ++ [line])
             end
         end)
    (workers, {| zero_move_steps := 0; terminate_flag := false |}, []).

(** The setup of [main] (lines 170-203) on [size] ranks: rank 0 draws the
    lattice, [np.random.choice([1, 1, 1], size=...)], which holds spin 1
    at every site, and every rank receives a copy of it, the macroscopic
    strain and the spectrum; the initial energy is reduced and
    broadcast. *)
Definition initial_workers (N size : nat) (q_grid : Grid Vec3)
    (B : Grid Tensor4) (epsilon_1 epsilon_2 epsilon_3 : Mat3)
  : list Worker :=
  let lattice : Grid Z := fun _ _ _ => 1%Z in
  let strain_field :=
    compute_strain_field N lattice epsilon_1 epsilon_2 epsilon_3 in
  let macro_strain := mean N strain_field in
  let strain_ft := fftn N strain_field in
  let local_energy :=
    map (fun rank => compute_elastic_energy N q_grid B strain_ft rank size)
        (range size) in
  let current_energy := reduce_sum_bcast local_energy in
  map (fun _ =>
         {| heap := {| Heap.ints := fun _ => lattice;
                       Heap.floats := fun _ => strain_field;
                       Heap.complexes := fun _ => strain_ft |};
            lattice_spins := 0%nat;
            macro_strain := macro_strain;
            current_energy := current_energy |})
      (range size).

(** [main], with the constants of its first lines as parameters: the
    material model, the kernel ([precompute_reciprocal_space_and_kernel]
    is the function of [mac5.py], line for line), the setup and the loop
    over the steps.  The result is the workers, the monitor and the lines
    printed when the loop ends.

    What [main] does before the material model (it opens its two files
    and draws the lattice, which holds spin 1 everywhere) raises nothing
    and is part of [initial_workers].  The errors come in the order of
    lines 179, 180 and 184: the two divisions of the material model, then
    [np.fft.fftfreq(N, d)], whose [val = 1.0 / (n * d)] raises
    [ZeroDivisionError] for a lattice of side 0. *)
Definition run (epsilon_a gamma_0 anisoPar temperature : R)
    (num_steps lattice_size : nat) (size : nat) (draws : nat -> nat -> Draws)
  : result (list Worker * Monitor * list Line) :=
  main_setup epsilon_a gamma_0 anisoPar (fun eps stiffness_tensor =>
    let '(epsilon_1, epsilon_2, epsilon_3) := eps in
    val <- truediv 1 (INR lattice_size * (1 / (2 * PI))) ;;
    let '(q_grid, B) :=
      Mac5.precompute_reciprocal_space_and_kernel lattice_size
                                                  stiffness_tensor in
    let workers :=
      initial_workers lattice_size size q_grid B
                      epsilon_1 epsilon_2 epsilon_3 in
    ret (main_loop lattice_size temperature q_grid B
                   epsilon_1 epsilon_2 epsilon_3 num_steps workers draws)).

(** [main] on [size] ranks. *)
Definition main (size : nat) (draws : nat -> nat -> Draws)
  : result (list Worker * Monitor * list Line) :=
  let epsilon_a := 0 in
  let gamma_0 := 4 / 10 in
  let anisoPar := 1 in
  let temperature := 1 / 10 in
  let num_steps := 10%nat in
  let lattice_size := 12%nat in
  run epsilon_a gamma_0 anisoPar temperature num_steps lattice_size
      size draws.

End Mac6.

(** ** debug1/1/sporc_mpi6.py *)

Module Sporc.

(** [np.einsum("ijmn,m,n->ij", stiffness_tensor, k_unit, k_unit)] *)
Definition acoustic (stiffness_tensor : Tensor4) (k_unit : Vec3) : Mat3 :=
  fun i j =>
    esum (fun m => esum (fun n =>
      stiffness_tensor i j m n * k_unit m * k_unit n)).

(** The value stored in [B[qx, qy, qz, i, j, k, l]]:
    [stiffness_tensor[i, j, k, l] - np.einsum("mn,im,nj->", G,
    stiffness_tensor[:, :, i, j], stiffness_tensor[:, :, k, l])].
    The subscripts [i] and [j] of the einsum are its own summation
    indices (here [ie] and [je]); nothing is left in the output. *)
Definition kernel_value (stiffness_tensor : Tensor4) (G : Mat3)
    (i j k l : nat) : R :=
  stiffness_tensor i j k l
  - esum (fun m => esum (fun n => esum (fun ie => esum (fun je =>
      G m n * stiffness_tensor ie m i j * stiffness_tensor n je k l)))).

(** [B[qx, qy, qz, i, j, k, l] = v] *)
Definition set7 (B : Grid Tensor4) (qx qy qz i j k l : nat) (v : R)
  : Grid Tensor4 :=
  setG B qx qy qz (set4 (B qx qy qz) i j k l v).

(** [precompute_reciprocal_space_and_kernel(N, stiffness_tensor)] *)
Definition precompute_reciprocal_space_and_kernel
    (N : nat) (stiffness_tensor : Tensor4) : Grid Vec3 * Grid Tensor4 :=
  let q_grid := q_grid_of N in
  let B :=
    for_ (range N) (fun qx_idx B =>
    for_ (range N) (fun qy_idx B =>
    for_ (range N) (fun qz_idx B =>
      let k := q_grid qx_idx qy_idx qz_idx in
      if Req_EM_T (norm k) 0 then B  (* continue *)
      else
        let k_unit := unit_of k in
        let G_inv := acoustic stiffness_tensor k_unit in
        let G := green G_inv in
        for_ (range 3) (fun i B =>
        for_ (range 3) (fun j B =>
        for_ (range 3) (fun k B =>
        for_ (range 3) (fun l B =>
          set7 B qx_idx qy_idx qz_idx i j k l
               (kernel_value stiffness_tensor G i j k l))
        B) B) B) B)
    B) B) (zerosG zeros4) in
  (q_grid, B).

(** [compute_elastic_energy(lattice_spins, q_grid, B, strain_ft, rank, size)] *)
Definition compute_elastic_energy (N : nat) (q_grid : Grid Vec3)
    (B : Grid Tensor4) (strain_ft : Grid CMat3) (rank size : nat) : R :=
  energy_loops N q_grid B strain_ft rank size.

(** The variables of [main] that one rank passes to [monte_carlo_step]
    and receives back from it, with the rank's heap. *)
Record Worker : Type := {
  heap : Heap.t;
  lattice_spins : Heap.Ref;
  strain_ft : Heap.Ref;
  current_energy : R
}.

(** Lines 103-112, on every rank with its own draws: the proposal, the
    tentative write into the caller's lattice, and the local energy of
    the recomputed spectrum. *)
Definition propose (N : nat) (q_grid : Grid Vec3) (B : Grid Tensor4)
    (epsilon_1 epsilon_2 epsilon_3 : Mat3) (rank size : nat)
    (w : Worker) (d : Draws) : Heap.t * Proposal * Grid CMat3 * R :=
  let h := heap w in
  let p := draw_proposal (Heap.ints h (lattice_spins w)) d in
  let h := Heap.store_int h (lattice_spins w) (px p) (py p) (pz p)
                          (proposed_spin p) in
  let new_strain_field :=
    compute_strain_field N (Heap.ints h (lattice_spins w))
                         epsilon_1 epsilon_2 epsilon_3 in
  let strain_ft_new := fftn N new_strain_field in
  let local_E_new :=
    compute_elastic_energy N q_grid B strain_ft_new rank size in
  (h, p, strain_ft_new, local_E_new).

(** Lines 119-135, on every rank with its own draw. *)
Definition decide (temperature : R) (w : Worker) (h : Heap.t)
    (p : Proposal) (strain_ft_new : Grid CMat3) (E_new : R) (d : Draws)
  : Worker * bool :=
  let delta_E := E_new - current_energy w in
  let prob := acceptance_probability delta_E temperature in
  if accepts (uniform d) prob then
    let h := Heap.assign_complex h (strain_ft w) strain_ft_new in
    ({| heap := h; lattice_spins := lattice_spins w;
        strain_ft := strain_ft w; current_energy := E_new |}, true)
  else
    let h := Heap.store_int h (lattice_spins w) (px p) (py p) (pz p)
                            (current_spin p) in
    ({| heap := h; lattice_spins := lattice_spins w;
        strain_ft := strain_ft w;
        current_energy := current_energy w |}, false).

(** One call of [monte_carlo_step] on every rank of the communicator, in
    lock step; [workers] lists the ranks 0, 1, ..., size-1 and [draws]
    what the generators of each rank return (every process has its own
    generators, and the script seeds none).  [E_new] is the sum of the
    local energies, reduced to rank 0 and broadcast. *)
Definition monte_carlo_step (N : nat) (temperature : R)
    (q_grid : Grid Vec3) (B : Grid Tensor4)
    (epsilon_1 epsilon_2 epsilon_3 : Mat3)
    (workers : list Worker) (draws : list Draws) : list (Worker * bool) :=
  let size := length workers in
  let tentative :=
    map (fun '(rank, (w, d)) =>
           (w, d, propose N q_grid B epsilon_1 epsilon_2 epsilon_3
                          rank size w d))
        (combine (range size) (combine workers draws)) in
  let E_new :=
    reduce_sum_bcast
      (map (fun '(_, _, (_, _, _, local_E_new)) => local_E_new) tentative) in
  map (fun '(w, d, (h, p, strain_ft_new, _)) =>
         decide temperature w h p strain_ft_new E_new d)
      tentative.

(** The inner loop of [main] (lines 169-172) on every rank, in lock step:
    [lattice_spins.size // size] calls of [monte_carlo_step], each rank
    counting in [accepted_moves] the calls it accepted.  [draws call]
    lists what the generators of the ranks return during that call. *)
Definition sweep (N : nat) (temperature : R)
    (q_grid : Grid Vec3) (B : Grid Tensor4)
    (epsilon_1 epsilon_2 epsilon_3 : Mat3)
    (workers : list Worker) (draws : nat -> list Draws)
  : list (Worker * nat) :=
  let size := length workers in
  for_ (range (N * N * N / size)) (fun call (ranks : list (Worker * nat)) =>
    let results :=
      monte_carlo_step N temperature q_grid B epsilon_1 epsilon_2 epsilon_3
                       (map fst ranks) (draws call) in
    map (fun '((_, accepted_moves), (w, accepted)) =>
           (w, if accepted : bool then S accepted_moves else accepted_moves))
        (combine ranks results))
  (map (fun w => (w, 0%nat)) workers).

(** The variables of [main] that decide when the run at one temperature
    ends. *)
Record Monitor : Type := {
  stable_steps : nat;
  zero_move_steps : nat;
  terminate_flag : bool
}.

Definition dErel_tolerance : R := 1 / 10 ^ 10.
Definition max_stable_steps : nat := 50.

(** [[
    dErel = abs(current_energy - prev_energy) / prev_energy
    if dErel < dErel_tolerance:
    ]]
    On a lattice of side 2 or more the energies are numpy doubles
    (rank 0 adds at least one [np.real(...)] to its [local_energy]), whose
    division does not raise: for [prev_energy == 0] the quotient is [inf]
    or [nan], and the comparison with the tolerance is false. *)
Definition below_tolerance (prev_energy current_energy : R) : bool :=
  if Req_EM_T prev_energy 0 then false
  else if Rlt_dec (Rabs (current_energy - prev_energy) / prev_energy)
                  dErel_tolerance
       then true else false.

(** Lines 174-194 on rank 0, after the sweep of one step. *)
Definition end_of_step (prev_energy current_energy : R)
    (accepted_moves : nat) (m : Monitor) : Monitor :=
  let stable_steps :=
    if below_tolerance prev_energy current_energy
    then (stable_steps m + 1)%nat else 0%nat in
  let zero_move_steps :=
    if (accepted_moves <=? 0)%nat
    then (zero_move_steps m + 1)%nat else 0%nat in
  let terminate_flag :=
    if (max_stable_steps <=? stable_steps)%nat
       || (max_stable_steps <=? zero_move_steps)%nat
    then true else terminate_flag m in
  {| stable_steps := stable_steps; zero_move_steps := zero_move_steps;
     terminate_flag := terminate_flag |}.

(** The loop over the steps of one temperature (lines 166-198), from the
    workers as lines 151-164 leave them.  The state is the workers, the
    monitor of rank 0 (whose [terminate_flag] every rank receives) and
    the number of steps carried out; [break] leaves the remaining steps
    without effect. *)
Definition steps_loop (N : nat) (temperature : R)
    (q_grid : Grid Vec3) (B : Grid Tensor4)
    (epsilon_1 epsilon_2 epsilon_3 : Mat3) (num_steps : nat)
    (workers : list Worker) (draws : nat -> nat -> list Draws)
  : list Worker * Monitor * nat :=
  for_ (range3 1 (num_steps + 1) 1)
    (fun step '(workers, m, steps_done) =>
       if terminate_flag m then (workers, m, steps_done)  (* break *)
       else
         match workers with
         | [] => (workers, m, steps_done)
         | root :: _ =>
             let prev_energy := current_energy root in
             match sweep N temperature q_grid B epsilon_1 epsilon_2 epsilon_3
                         workers (draws step) with
             | [] => (workers, m, steps_done)
             | (root', accepted_moves) :: others' =>
                 (root' :: map fst others',
                  end_of_step prev_energy (current_energy root')
                              accepted_moves m,
                  S steps_done)
             end
         end)
    (workers,
     {| stable_steps := 0; zero_move_steps := 0; terminate_flag := false |},
     0%nat).

End Sporc.

(** ** The material model as one function

    [main] calls [define_dimensionless_strains] and then
    [precompute_stiffness_tensor]; [material_model] is that pair of
    calls. *)
Definition material_model (epsilon_a gamma_0 anisoPar : R)
  : result (Mat3 * Mat3 * Mat3 * Tensor4) :=
  main_setup epsilon_a gamma_0 anisoPar (fun eps C => ret (eps, C)).

(** The cell-by-cell reading of the loops of
    [precompute_stiffness_tensor]. *)
Definition cubic (C11 C12 C44 : R) : Tensor4 :=
  fun i j k l =>
    if (i =? j)%nat && (k =? l)%nat then (if (i =? k)%nat then C11 else C12)
    else if (i =? k)%nat && (j =? l)%nat then C44
    else 0.

(** What one wavevector adds to the energy: nothing when it is the one
    [np.allclose] takes for zero, the contraction otherwise. *)
Definition energy_term (q_grid : Grid Vec3) (B : Grid Tensor4)
    (strain_ft : Grid CMat3) (qx qy qz : nat) : R :=
  if allclose0 (q_grid qx qy qz) then 0
  else contraction (strain_ft qx qy qz) (B qx qy qz).

(** The sum of [f i] for [i] in a list. *)
Definition rsum (l : list nat) (f : nat -> R) : R :=
  fold_left (fun acc i => acc + f i) l 0.

(** The energy summed over the whole reciprocal grid, zero wavevector
    skipped. *)
Definition total_energy (N : nat) (q_grid : Grid Vec3) (B : Grid Tensor4)
    (strain_ft : Grid CMat3) : R :=
  rsum (range N) (fun qx =>
  rsum (range N) (fun qy =>
  rsum (range N) (fun qz => energy_term q_grid B strain_ft qx qy qz))).

(** One cell of the kernel array [B], and the read [B[x, y, z, i, j, k, l]]. *)
Record Cell : Type := {
  cx : nat; cy : nat; cz : nat;
  ci : nat; cj : nat; ck : nat; cl : nat
}.

Definition read7 (B : Grid Tensor4) (c : Cell) : R :=
  B (cx c) (cy c) (cz c) (ci c) (cj c) (ck c) (cl c).

(** [np.linalg.norm(k) == 0] as a boolean. *)
Definition zero_norm (k : Vec3) : bool :=
  if Req_EM_T (norm k) 0 then true else false.

(** The reference strain of a spin in {1, 2, 3}, as the chains
    [if spin == 1 ... elif spin == 2 ... elif spin == 3] select it. *)
Definition strain_for (epsilon_1 epsilon_2 epsilon_3 : Mat3) (spin : Z) : Mat3 :=
  if (spin =? 1)%Z then epsilon_1
  else if (spin =? 2)%Z then epsilon_2
  else epsilon_3.

(** A heap whose integer arrays all hold [lattice] and whose real arrays
    all hold the strain field computed from it. *)
Definition heap_of (N : nat) (lattice : Grid Z)
    (epsilon_1 epsilon_2 epsilon_3 : Mat3) : Heap.t :=
  {| Heap.ints := fun _ => lattice;
     Heap.floats := fun _ =>
       compute_strain_field N lattice epsilon_1 epsilon_2 epsilon_3;
     Heap.complexes := fun _ =>
       fftn N (compute_strain_field N lattice epsilon_1 epsilon_2 epsilon_3) |}.

(** A run of side 2 with [anisoPar = 1] and [epsilon_a = 0]: the
    reference strains, the kernel of [mac5.py], and a worker whose lattice
    holds spin 1 everywhere, with the strain field computed from it and a
    zero energy. *)
Definition example_e1 : Mat3 := diag3 1 0 0.
Definition example_e2 : Mat3 := diag3 0 1 0.
Definition example_e3 : Mat3 := diag3 0 0 1.

Definition example_kernel : Grid Tensor4 :=
  snd (Mac5.precompute_reciprocal_space_and_kernel
         2 (stiffness_loops (4 / 1) (4 / 1 / 2) 1)).

Definition example_root : Mac5.Worker :=
  {| Mac5.heap := heap_of 2 (fun _ _ _ => 1%Z)
                          example_e1 example_e2 example_e3;
     Mac5.lattice_spins := 0%nat;
     Mac5.strain_field := 0%nat;
     Mac5.current_energy := 0 |}.

Definition example_draws : Draws :=
  {| site_x := 0; site_y := 0; site_z := 0; pick := 0;
     uniform := 999 / 1000 |}.

(** [np.array([a, b, c])] *)
Definition vec3 (a b c : R) : Vec3 :=
  fun i => match i with 0%nat => a | 1%nat => b | _ => c end.

(** [np.array([[a00, a01, a02], [a10, a11, a12], [a20, a21, a22]])] *)
Definition mat3 (a00 a01 a02 a10 a11 a12 a20 a21 a22 : R) : Mat3 :=
  fun i j =>
    match i, j with
    | 0%nat, 0%nat => a00 | 0%nat, 1%nat => a01 | 0%nat, 2%nat => a02
    | 1%nat, 0%nat => a10 | 1%nat, 1%nat => a11 | 1%nat, 2%nat => a12
    | 2%nat, 0%nat => a20 | 2%nat, 1%nat => a21 | 2%nat, 2%nat => a22
    | _, _ => 0
    end.

(** ** Notions used in the statements *)

(** The integer frequency [np.fft.fftfreq] gives index [i] on a grid of
    side [n]: the index itself in the lower half, the index minus [n] in
    the upper half. *)
Definition wrapped (n i : nat) : Z :=
  if (i <=? (n - 1) / 2)%nat then Z.of_nat i
  else (Z.of_nat i - Z.of_nat n)%Z.

(** The integer frequencies of a grid point, as a vector. *)
Definition frequencies (N qx qy qz : nat) : Vec3 :=
  vec3 (IZR (wrapped N qx)) (IZR (wrapped N qy)) (IZR (wrapped N qz)).

(** The strain a spin stands for in [compute_strain_field]: one of the
    three reference strains, or the zero of [np.zeros] for any other
    value. *)
Definition strain_of (epsilon_1 epsilon_2 epsilon_3 : Mat3) (spin : Z) : Mat3 :=
  if (spin =? 1)%Z then epsilon_1
  else if (spin =? 2)%Z then epsilon_2
  else if (spin =? 3)%Z then epsilon_3
  else zeros2.

(** The spins [compute_strain_field] has a reference strain for. *)
Definition valid_spin (s : Z) : bool :=
  ((s =? 1) || (s =? 2) || (s =? 3))%Z.

(** The phase of site (x, y, z) in the transform at (qx, qy, qz). *)
Definition phase (N qx qy qz x y z : nat) : R :=
  - (2 * PI) * (INR qx * INR x + INR qy * INR y + INR qz * INR z) / INR N.

(** A rank of [mac6.py] whose macroscopic strain and energy are those of
    its lattice: the mean of the strain field of the lattice, and the
    energy a single worker computes from the spectrum of that field. *)
Definition mac6_consistent (N : nat) (q_grid : Grid Vec3) (B : Grid Tensor4)
    (e1 e2 e3 : Mat3) (w : Mac6.Worker) : Prop :=
  let L := Heap.ints (Mac6.heap w) (Mac6.lattice_spins w) in
  let strain_field := compute_strain_field N L e1 e2 e3 in
  (forall i j, Mac6.macro_strain w i j = mean N strain_field i j) /\
  Mac6.current_energy w
  = Mac6.compute_elastic_energy N q_grid B (fftn N strain_field) 0 1.

(** Two states of a rank of [mac6.py] with the same lattice, macroscopic
    strain and energy. *)
Definition mac6_same (w w' : Mac6.Worker) : Prop :=
  (forall x y z,
     Heap.ints (Mac6.heap w') (Mac6.lattice_spins w') x y z
     = Heap.ints (Mac6.heap w) (Mac6.lattice_spins w) x y z) /\
  Mac6.macro_strain w' = Mac6.macro_strain w /\
  Mac6.current_energy w' = Mac6.current_energy w.

(** The number of lines at the head of a list that report no accepted
    move, and the number of such lines at the end of the output. *)
Fixpoint leading_idle_lines (l : list Mac6.Line) : nat :=
  match l with
  | [] => 0
  | line :: l' =>
      if (Mac6.accepted_moves line =? 0)%nat then S (leading_idle_lines l')
      else 0
  end.

Definition trailing_idle_lines (l : list Mac6.Line) : nat :=
  leading_idle_lines (rev l).

(** The state of the loop over the steps of [mac6.py] after [k] of its
    iterations, on [size] ranks. *)
Definition mac6_loop_state (N : nat) (size : nat) (k : nat)
    (st : list Mac6.Worker * Mac6.Monitor * list Mac6.Line) : Prop :=
  let '(workers, m, printed) := st in
  length workers = size /\
  (length printed <= k)%nat /\
  (Mac6.terminate_flag m = false -> length printed = k) /\
  Mac6.zero_move_steps m = trailing_idle_lines printed /\
  Mac6.terminate_flag m
  = (Mac6.max_stable_steps <=? trailing_idle_lines printed)%nat /\
  (forall j line, nth_error printed j = Some line ->
     Mac6.step line = S j /\
     (Mac6.accepted_moves line <= N * N * N / size)%nat /\
     ((S j < length printed)%nat ->
      (trailing_idle_lines (firstn (S j) printed) < Mac6.max_stable_steps)%nat)).

(** A rank of [sporc_mpi6.py] whose spectrum is the transform of the
    strain field of its lattice. *)
Definition sporc_spectrum_consistent (N : nat) (e1 e2 e3 : Mat3)
    (w : Sporc.Worker) : Prop :=
  forall qx qy qz i j,
    Heap.complexes (Sporc.heap w) (Sporc.strain_ft w) qx qy qz i j
    = fftn N (compute_strain_field
                N (Heap.ints (Sporc.heap w) (Sporc.lattice_spins w))
                e1 e2 e3) qx qy qz i j.

(** A rank of [sporc_mpi6.py] whose energy is the one a single worker
    computes from its spectrum. *)
Definition sporc_energy_consistent (N : nat) (q_grid : Grid Vec3)
    (B : Grid Tensor4) (w : Sporc.Worker) : Prop :=
  Sporc.current_energy w
  = Sporc.compute_elastic_energy
      N q_grid B (Heap.complexes (Sporc.heap w) (Sporc.strain_ft w)) 0 1.

(** Two states of a rank of [sporc_mpi6.py] with the same lattice,
    spectrum and energy. *)
Definition sporc_same (w w' : Sporc.Worker) : Prop :=
  (forall x y z,
     Heap.ints (Sporc.heap w') (Sporc.lattice_spins w') x y z
     = Heap.ints (Sporc.heap w) (Sporc.lattice_spins w) x y z) /\
  Heap.complexes (Sporc.heap w') (Sporc.strain_ft w')
  = Heap.complexes (Sporc.heap w) (Sporc.strain_ft w) /\
  Sporc.current_energy w' = Sporc.current_energy w.

(** What [monte_carlo_step] of [sporc_mpi6.py] makes of one rank, once
    the reduced energy [E_new] is known: the proposal of the rank followed
    by its decision. *)
Definition sporc_rank_step (N : nat) (temperature : R) (q_grid : Grid Vec3)
    (B : Grid Tensor4) (e1 e2 e3 : Mat3) (size : nat) (E_new : R)
    (job : nat * (Sporc.Worker * Draws)) : Sporc.Worker * bool :=
  let '(rank, (w, d)) := job in
  let '(h, p, strain_ft_new, _) :=
    Sporc.propose N q_grid B e1 e2 e3 rank size w d in
  Sporc.decide temperature w h p strain_ft_new E_new d.

(** The state of the loop over the steps of [sporc_mpi6.py] after [k] of
    its iterations, on [size] ranks. *)
Definition sporc_loop_state (size : nat) (k : nat)
    (st : list Sporc.Worker * Sporc.Monitor * nat) : Prop :=
  let '(workers, m, steps_done) := st in
  length workers = size /\
  (steps_done <= k)%nat /\
  (Sporc.terminate_flag m = false -> steps_done = k) /\
  (Sporc.stable_steps m <= steps_done)%nat /\
  (Sporc.zero_move_steps m <= steps_done)%nat /\
  Sporc.terminate_flag m
  = (Sporc.max_stable_steps <=? Sporc.stable_steps m)%nat
    || (Sporc.max_stable_steps <=? Sporc.zero_move_steps m)%nat.

(** Ranks of [mac6.py] and of [sporc_mpi6.py] on the lattice of side 2
    that holds spin 1 everywhere, with the macroscopic strain, the
    spectrum and the energy of that lattice. *)
Definition example_mac6_root : Mac6.Worker :=
  let strain_field :=
    compute_strain_field 2 (fun _ _ _ => 1%Z)
                         example_e1 example_e2 example_e3 in
  {| Mac6.heap := heap_of 2 (fun _ _ _ => 1%Z)
                          example_e1 example_e2 example_e3;
     Mac6.lattice_spins := 0%nat;
     Mac6.macro_strain := mean 2 strain_field;
     Mac6.current_energy :=
       Mac6.compute_elastic_energy 2 (q_grid_of 2) example_kernel
                                   (fftn 2 strain_field) 0 1 |}.

Definition example_sporc_worker : Sporc.Worker :=
  {| Sporc.heap := heap_of 2 (fun _ _ _ => 1%Z)
                           example_e1 example_e2 example_e3;
     Sporc.lattice_spins := 0%nat;
     Sporc.strain_ft := 0%nat;
     Sporc.current_energy :=
       Sporc.compute_elastic_energy
         2 (q_grid_of 2) example_kernel
         (fftn 2 (compute_strain_field 2 (fun _ _ _ => 1%Z)
                    example_e1 example_e2 example_e3)) 0 1 |}.

(** * Proofs *)

Ltac case3 i :=
  let H := fresh in
  intro H;
  destruct i as [|[|[|i]]]; [ | | | exfalso; lia ]; clear H.

(** ** Material model *)

Lemma stiffness_loops_cubic (C11 C12 C44 : R) (i j k l : nat) :
  (i < 3)%nat -> (j < 3)%nat -> (k < 3)%nat -> (l < 3)%nat ->
  stiffness_loops C11 C12 C44 i j k l = cubic C11 C12 C44 i j k l.
Proof.
  case3 i; case3 j; case3 k; case3 l; reflexivity.
Qed.

Lemma truediv_ok (x y : R) : y <> 0 -> truediv x y = inr (x / y).
Proof.
  intro Hy. unfold truediv. destruct (Req_EM_T y 0); [contradiction | reflexivity].
Qed.

Lemma truediv_zero (x : R) : truediv x 0 = inl ZeroDivisionError.
Proof.
  unfold truediv. destruct (Req_EM_T 0 0); [reflexivity | contradiction].
Qed.

Lemma precompute_stiffness_tensor_ok (a : R) :
  a <> 0 ->
  precompute_stiffness_tensor a = inr (stiffness_loops (4 / a) (4 / a / 2) 1).
Proof.
  intro Ha. unfold precompute_stiffness_tensor.
  rewrite (truediv_ok 4 a Ha). reflexivity.
Qed.

(** C6: for a > 0 the material model returns a stiffness tensor with
    C[i,i,i,i] = 4/a, C[i,i,j,j] = 2/a and C[i,j,i,j] = 1 for i <> j,
    zero in every other cell, and C[i,j,k,l] = C[k,l,i,j]. *)
Theorem stiffness_tensor_entries (a : R) :
  0 < a ->
  exists C : Tensor4,
    precompute_stiffness_tensor a = inr C /\
    (forall i, (i < 3)%nat -> C i i i i = 4 / a) /\
    (forall i j, (i < 3)%nat -> (j < 3)%nat -> i <> j ->
                 C i i j j = 2 / a /\ C i j i j = 1) /\
    (forall i j k l, (i < 3)%nat -> (j < 3)%nat -> (k < 3)%nat -> (l < 3)%nat ->
                     ~ (i = j /\ k = l) -> ~ (i = k /\ j = l) ->
                     C i j k l = 0) /\
    (forall i j k l, (i < 3)%nat -> (j < 3)%nat -> (k < 3)%nat -> (l < 3)%nat ->
                     C i j k l = C k l i j).
Proof.
  intro Ha.
  exists (stiffness_loops (4 / a) (4 / a / 2) 1).
  split; [apply precompute_stiffness_tensor_ok; lra | ].
  split; [ | split; [ | split ] ].
  - intro i; case3 i; reflexivity.
  - intros i j; case3 i; case3 j; intro Hij;
      try (exfalso; apply Hij; reflexivity);
      (split; [ | reflexivity ]);
      cbv [stiffness_loops for_ range seq fold_left set4 zeros4
           Nat.eqb andb negb];
      field; lra.
  - intros i j k l; case3 i; case3 j; case3 k; case3 l; intros H1 H2;
      try reflexivity;
      exfalso; (apply H1; split; reflexivity) || (apply H2; split; reflexivity).
  - intros i j k l; case3 i; case3 j; case3 k; case3 l; reflexivity.
Qed.

Lemma stiffness_tensor_entries_witness :
  0 < 1 /\
  exists C : Tensor4,
    precompute_stiffness_tensor 1 = inr C /\
    (forall i, (i < 3)%nat -> C i i i i = 4 / 1) /\
    (forall i j, (i < 3)%nat -> (j < 3)%nat -> i <> j ->
                 C i i j j = 2 / 1 /\ C i j i j = 1) /\
    (forall i j k l, (i < 3)%nat -> (j < 3)%nat -> (k < 3)%nat -> (l < 3)%nat ->
                     ~ (i = j /\ k = l) -> ~ (i = k /\ j = l) ->
                     C i j k l = 0) /\
    (forall i j k l, (i < 3)%nat -> (j < 3)%nat -> (k < 3)%nat -> (l < 3)%nat ->
                     C i j k l = C k l i j).
Proof.
  split; [lra | apply (stiffness_tensor_entries 1); lra].
Defined.

Lemma define_dimensionless_strains_ok (epsilon_a gamma_0 : R) :
  gamma_0 <> 0 ->
  define_dimensionless_strains epsilon_a gamma_0 =
  inr (diag3 (1 + epsilon_a / gamma_0) (epsilon_a / gamma_0) (epsilon_a / gamma_0),
       diag3 (epsilon_a / gamma_0) (1 + epsilon_a / gamma_0) (epsilon_a / gamma_0),
       diag3 (epsilon_a / gamma_0) (epsilon_a / gamma_0) (1 + epsilon_a / gamma_0)).
Proof.
  intro Hg. unfold define_dimensionless_strains.
  rewrite (truediv_ok epsilon_a gamma_0 Hg). reflexivity.
Qed.

(** The claim that the material model fails for every non-positive
    anisotropy parameter does not hold: with [anisoPar = -1] (and
    [epsilon_a = 1/10], [gamma_0 = 2/5]) both functions return. *)
Lemma material_model_negative_anisotropy_returns :
  ~ (forall epsilon_a gamma_0 a : R,
       (exists e, material_model epsilon_a gamma_0 a = inl e) <->
       (a <= 0 \/ gamma_0 = 0)).
Proof.
  intro H.
  destruct (proj2 (H (1 / 10) (2 / 5) (-1))) as [e He]; [left; lra | ].
  unfold material_model, main_setup in He.
  rewrite define_dimensionless_strains_ok in He by lra.
  rewrite precompute_stiffness_tensor_ok in He by lra.
  discriminate He.
Qed.

(** C7, as the code has it: the material model fails exactly when one of
    its two divisions has a zero divisor, [anisoPar = 0] or [gamma_0 = 0];
    it then raises before the rest of [main] runs; otherwise it returns
    the three reference strains and the stiffness tensor, which are
    functions of the three scalars only. *)
Theorem material_model_fails_iff_zero_divisor
    (epsilon_a gamma_0 a : R) :
  ((exists e, material_model epsilon_a gamma_0 a = inl e) <->
   (a = 0 \/ gamma_0 = 0)) /\
  (forall (A : Type) (simulation : Mat3 * Mat3 * Mat3 -> Tensor4 -> result A),
     a = 0 \/ gamma_0 = 0 ->
     main_setup epsilon_a gamma_0 a simulation = inl ZeroDivisionError) /\
  (a <> 0 -> gamma_0 <> 0 ->
   material_model epsilon_a gamma_0 a =
   inr (diag3 (1 + epsilon_a / gamma_0) (epsilon_a / gamma_0) (epsilon_a / gamma_0),
        diag3 (epsilon_a / gamma_0) (1 + epsilon_a / gamma_0) (epsilon_a / gamma_0),
        diag3 (epsilon_a / gamma_0) (epsilon_a / gamma_0) (1 + epsilon_a / gamma_0),
        stiffness_loops (4 / a) (4 / a / 2) 1)).
Proof.
  assert (Hfail : forall (A : Type)
                    (simulation : Mat3 * Mat3 * Mat3 -> Tensor4 -> result A),
             a = 0 \/ gamma_0 = 0 ->
             main_setup epsilon_a gamma_0 a simulation = inl ZeroDivisionError).
  { intros A simulation Hz. unfold main_setup.
    destruct (Req_EM_T gamma_0 0) as [Hg | Hg].
    - subst gamma_0. unfold define_dimensionless_strains.
      rewrite truediv_zero. reflexivity.
    - rewrite define_dimensionless_strains_ok by assumption.
      destruct Hz as [Ha | Hg0]; [ | contradiction ].
      subst a. unfold precompute_stiffness_tensor.
      rewrite truediv_zero. reflexivity. }
  assert (Hok : a <> 0 -> gamma_0 <> 0 ->
                material_model epsilon_a gamma_0 a =
                inr (diag3 (1 + epsilon_a / gamma_0) (epsilon_a / gamma_0) (epsilon_a / gamma_0),
                     diag3 (epsilon_a / gamma_0) (1 + epsilon_a / gamma_0) (epsilon_a / gamma_0),
                     diag3 (epsilon_a / gamma_0) (epsilon_a / gamma_0) (1 + epsilon_a / gamma_0),
                     stiffness_loops (4 / a) (4 / a / 2) 1)).
  { intros Ha Hg. unfold material_model, main_setup.
    rewrite define_dimensionless_strains_ok by assumption.
    rewrite precompute_stiffness_tensor_ok by assumption.
    reflexivity. }
  split; [ | split; assumption ].
  split.
  - intros [e He].
    destruct (Req_EM_T a 0) as [Ha | Ha]; [left; assumption | ].
    destruct (Req_EM_T gamma_0 0) as [Hg | Hg]; [right; assumption | ].
    rewrite (Hok Ha Hg) in He. discriminate He.
  - intro Hz. exists ZeroDivisionError. apply Hfail. assumption.
Qed.

(** C9: for every anisotropy parameter that yields a tensor and all
    i <> j, C[i,j,i,j] = 1 while C[i,j,j,i] = 0 and C[j,i,i,j] = 0; hence
    moving the direction vector from the fourth to the third index of C
    changes the acoustic tensor of [mac5.py] (at the direction (1,0,0),
    entry (1,1)). *)
Theorem stiffness_tensor_lacks_minor_symmetry (a : R) :
  a <> 0 ->
  exists C : Tensor4,
    precompute_stiffness_tensor a = inr C /\
    (forall i j, (i < 3)%nat -> (j < 3)%nat -> i <> j ->
                 C i j i j = 1 /\ C i j j i = 0 /\ C j i i j = 0) /\
    (exists (n : Vec3) (i j : nat),
        (i < 3)%nat /\ (j < 3)%nat /\ norm n = 1 /\
        Mac5.acoustic C n i j <>
        esum (fun m => esum (fun n' => C i m n' j * n m * n n'))).
Proof.
  intro Ha.
  exists (stiffness_loops (4 / a) (4 / a / 2) 1).
  split; [apply precompute_stiffness_tensor_ok; assumption | ].
  split.
  - intros i j; case3 i; case3 j; intro Hij;
      try (exfalso; apply Hij; reflexivity);
      repeat split; reflexivity.
  - exists (fun c => match c with 0%nat => 1 | _ => 0 end), 1%nat, 1%nat.
    split; [lia | ]. split; [lia | ]. split.
    + unfold norm.
      replace (1 * 1 + 0 * 0 + 0 * 0) with 1 by ring. apply sqrt_1.
    + cbv [Mac5.acoustic esum stiffness_loops for_ range seq fold_left set4
           zeros4 Nat.eqb andb negb]. lra.
Qed.

Lemma stiffness_tensor_lacks_minor_symmetry_witness :
  1 <> 0 /\
  exists C : Tensor4,
    precompute_stiffness_tensor 1 = inr C /\
    (forall i j, (i < 3)%nat -> (j < 3)%nat -> i <> j ->
                 C i j i j = 1 /\ C i j j i = 0 /\ C j i i j = 0) /\
    (exists (n : Vec3) (i j : nat),
        (i < 3)%nat /\ (j < 3)%nat /\ norm n = 1 /\
        Mac5.acoustic C n i j <>
        esum (fun m => esum (fun n' => C i m n' j * n m * n n'))).
Proof.
  split; [lra | apply (stiffness_tensor_lacks_minor_symmetry 1); lra].
Defined.

(** The acoustic tensors of the two scripts (the direction on the last
    two indices in [sporc_mpi6.py], on the second and fourth in
    [mac5.py]) differ at the direction (1,0,0) unless [C12 = C44], that
    is unless [anisoPar = 2]. *)
Lemma acoustic_variants_differ (a : R) :
  a <> 0 -> a <> 2 ->
  let C := stiffness_loops (4 / a) (4 / a / 2) 1 in
  let n : Vec3 := fun c => match c with 0%nat => 1 | _ => 0 end in
  Mac5.acoustic C n 1%nat 1%nat = 1 /\ Sporc.acoustic C n 1%nat 1%nat = 2 / a /\
  Mac5.acoustic C n 1%nat 1%nat <> Sporc.acoustic C n 1%nat 1%nat.
Proof.
  intros Ha Ha2 C n.
  assert (H1 : Mac5.acoustic C n 1%nat 1%nat = 1).
  { cbv [C n Mac5.acoustic esum stiffness_loops for_ range seq fold_left set4
         zeros4 Nat.eqb andb negb]. lra. }
  assert (H2 : Sporc.acoustic C n 1%nat 1%nat = 2 / a).
  { cbv [C n Sporc.acoustic esum stiffness_loops for_ range seq fold_left set4
         zeros4 Nat.eqb andb negb]. field. assumption. }
  split; [assumption | split; [assumption | ] ].
  rewrite H1, H2. intro H.
  apply Ha2. apply (Rmult_eq_compat_r a) in H. field_simplify in H; lra.
Qed.

(** ** Metropolis acceptance *)

Lemma acceptance_probability_nonpositive (delta_E temperature : R) :
  delta_E <= 0 -> acceptance_probability delta_E temperature = 1.
Proof.
  intro H. unfold acceptance_probability.
  destruct (Rlt_dec 0 delta_E); [lra | reflexivity].
Qed.

Lemma acceptance_probability_positive (delta_E temperature : R) :
  0 < delta_E ->
  acceptance_probability delta_E temperature =
  exp (- Rmin (delta_E / temperature) 700).
Proof.
  intro H. unfold acceptance_probability, clip_max, max_exp_arg.
  destruct (Rlt_dec 0 delta_E); [reflexivity | lra].
Qed.

Lemma acceptance_probability_gt_0 (delta_E temperature : R) :
  0 < acceptance_probability delta_E temperature.
Proof.
  unfold acceptance_probability.
  destruct (Rlt_dec 0 delta_E); [apply exp_pos | lra].
Qed.

Lemma accepts_iff (u prob : R) : accepts u prob = true <-> u < prob.
Proof.
  unfold accepts. destruct (Rlt_dec u prob); split; intro H;
    try reflexivity; try assumption; try discriminate; contradiction.
Qed.

Lemma sporc_decide_accepted (temperature : R) (w : Sporc.Worker) (h : Heap.t)
    (p : Proposal) (strain_ft_new : Grid CMat3) (E_new : R) (d : Draws) :
  snd (Sporc.decide temperature w h p strain_ft_new E_new d) =
  accepts (uniform d)
          (acceptance_probability (E_new - Sporc.current_energy w) temperature).
Proof.
  unfold Sporc.decide.
  destruct (accepts _ _); reflexivity.
Qed.

Lemma mac5_decide_root_accepted (temperature : R) (w : Mac5.Worker) (h : Heap.t)
    (p : Proposal) (strain_field_new : Heap.Ref) (E_new : R) (d : Draws) :
  snd (Mac5.decide_root temperature w h p strain_field_new E_new d) =
  accepts (uniform d)
          (acceptance_probability (E_new - Mac5.current_energy w) temperature).
Proof.
  unfold Mac5.decide_root.
  destruct (accepts _ _); reflexivity.
Qed.

(** C2: for a nonzero temperature T, with delta_E = E_new - E_current,
    the acceptance probability is 1 when delta_E <= 0 and
    exp(-min(delta_E / T, 700)) otherwise, it is never zero, and the
    proposal is accepted exactly when the uniform draw is below it (in
    the decision of [sporc_mpi6.py] and in the decision rank 0 takes in
    [mac5.py]). *)
Theorem metropolis_acceptance_rule
    (temperature E_new : R) (d : Draws) (h : Heap.t) (p : Proposal)
    (ws : Sporc.Worker) (strain_ft_new : Grid CMat3)
    (wm : Mac5.Worker) (strain_field_new : Heap.Ref) :
  temperature <> 0 ->
  (forall E_current,
     let delta_E := E_new - E_current in
     let prob := acceptance_probability delta_E temperature in
     (delta_E <= 0 -> prob = 1) /\
     (0 < delta_E -> prob = exp (- Rmin (delta_E / temperature) 700)) /\
     0 < prob) /\
  (snd (Sporc.decide temperature ws h p strain_ft_new E_new d) = true <->
   uniform d <
   acceptance_probability (E_new - Sporc.current_energy ws) temperature) /\
  (snd (Mac5.decide_root temperature wm h p strain_field_new E_new d) = true <->
   uniform d <
   acceptance_probability (E_new - Mac5.current_energy wm) temperature).
Proof.
  intros _.
  split; [ | split ].
  - intros E_current delta_E prob. subst prob. split; [ | split ].
    + apply acceptance_probability_nonpositive.
    + apply acceptance_probability_positive.
    + apply acceptance_probability_gt_0.
  - rewrite sporc_decide_accepted. apply accepts_iff.
  - rewrite mac5_decide_root_accepted. apply accepts_iff.
Qed.

Lemma metropolis_acceptance_rule_witness :
  let temperature := 2 in
  let E_new := 1 in
  let d := example_draws in
  let h := Mac5.heap example_root in
  let p := draw_proposal (fun _ _ _ => 1%Z) example_draws in
  let strain_ft_new : Grid CMat3 := zerosG (fun _ _ => Cx.zero) in
  temperature <> 0 /\
  ((forall E_current,
      let delta_E := E_new - E_current in
      let prob := acceptance_probability delta_E temperature in
      (delta_E <= 0 -> prob = 1) /\
      (0 < delta_E -> prob = exp (- Rmin (delta_E / temperature) 700)) /\
      0 < prob) /\
   (snd (Sporc.decide temperature example_sporc_worker h p strain_ft_new
                      E_new d) = true <->
    uniform d <
    acceptance_probability (E_new - Sporc.current_energy example_sporc_worker)
                           temperature) /\
   (snd (Mac5.decide_root temperature example_root h p 0%nat E_new d) = true <->
    uniform d <
    acceptance_probability (E_new - Mac5.current_energy example_root)
                           temperature)).
Proof.
  split; [lra | ].
  apply (metropolis_acceptance_rule
           2 1 example_draws (Mac5.heap example_root)
           (draw_proposal (fun _ _ _ => 1%Z) example_draws)
           example_sporc_worker (zerosG (fun _ _ => Cx.zero))
           example_root 0%nat).
  lra.
Defined.

(** C10: for delta_E > 0 and T > 0 the acceptance probability is
    exp(-min(delta_E / T, 700)), which is at least exp(-700) > 0. *)
Theorem acceptance_probability_lower_bound (delta_E temperature : R) :
  0 < delta_E -> 0 < temperature ->
  acceptance_probability delta_E temperature =
    exp (- Rmin (delta_E / temperature) 700) /\
  exp (- 700) <= acceptance_probability delta_E temperature /\
  0 < exp (- 700).
Proof.
  intros HE HT.
  rewrite (acceptance_probability_positive _ _ HE).
  split; [reflexivity | split; [ | apply exp_pos ] ].
  pose proof (Rmin_r (delta_E / temperature) 700) as Hmin.
  destruct (Req_dec (Rmin (delta_E / temperature) 700) 700) as [Heq | Hne].
  - rewrite Heq. apply Rle_refl.
  - left. apply exp_increasing. lra.
Qed.

Lemma acceptance_probability_lower_bound_witness :
  0 < 1 /\ 0 < 1 /\
  acceptance_probability 1 1 = exp (- Rmin (1 / 1) 700) /\
  exp (- 700) <= acceptance_probability 1 1 /\
  0 < exp (- 700).
Proof.
  split; [lra | split; [lra | ] ].
  apply (acceptance_probability_lower_bound 1 1); lra.
Defined.

(** ** Loops and sums *)

Lemma for_ext {S : Type} (l : list nat) (body1 body2 : nat -> S -> S) (s : S) :
  (forall i s', body1 i s' = body2 i s') ->
  for_ l body1 s = for_ l body2 s.
Proof.
  intro H. revert s. unfold for_.
  induction l as [| i l IH]; intro s; simpl.
  - reflexivity.
  - rewrite H. apply IH.
Qed.

Lemma rsum_from (l : list nat) (f : nat -> R) (a : R) :
  fold_left (fun acc i => acc + f i) l a = a + rsum l f.
Proof.
  unfold rsum. revert a.
  induction l as [| i l IH]; intro a; simpl.
  - ring.
  - rewrite IH. rewrite (IH (0 + f i)). ring.
Qed.

Lemma for_accumulate (l : list nat) (f : nat -> R) (a : R) :
  for_ l (fun i acc => acc + f i) a = a + rsum l f.
Proof. unfold for_. apply rsum_from. Qed.

Lemma rsum_nil (f : nat -> R) : rsum [] f = 0.
Proof. reflexivity. Qed.

Lemma rsum_app (l1 l2 : list nat) (f : nat -> R) :
  rsum (l1 ++ l2) f = rsum l1 f + rsum l2 f.
Proof.
  unfold rsum at 1. rewrite fold_left_app.
  rewrite rsum_from. reflexivity.
Qed.

Lemma rsum_single (i : nat) (f : nat -> R) : rsum [i] f = f i.
Proof. unfold rsum. simpl. ring. Qed.

Lemma rsum_ext (l : list nat) (f g : nat -> R) :
  (forall i, In i l -> f i = g i) -> rsum l f = rsum l g.
Proof.
  induction l as [| i l IH]; intro H.
  - reflexivity.
  - change (i :: l) with ([i] ++ l). rewrite !rsum_app, !rsum_single.
    rewrite (H i) by (left; reflexivity).
    rewrite IH; [reflexivity | ].
    intros j Hj. apply H. right. assumption.
Qed.

Lemma rsum_plus (l : list nat) (f g : nat -> R) :
  rsum l (fun i => f i + g i) = rsum l f + rsum l g.
Proof.
  induction l as [| i l IH].
  - unfold rsum. simpl. ring.
  - change (i :: l) with ([i] ++ l). rewrite !rsum_app, !rsum_single, IH. ring.
Qed.

Lemma rsum_scale (l : list nat) (f : nat -> R) (c : R) :
  rsum l (fun i => f i / c) = rsum l f / c.
Proof.
  induction l as [| i l IH].
  - unfold rsum. simpl. unfold Rdiv. ring.
  - change (i :: l) with ([i] ++ l). rewrite !rsum_app, !rsum_single, IH.
    unfold Rdiv. ring.
Qed.

Lemma rsum_map (l : list nat) (g : nat -> nat) (f : nat -> R) :
  rsum (map g l) f = rsum l (fun i => f (g i)).
Proof.
  induction l as [| i l IH].
  - reflexivity.
  - simpl map. change (g i :: map g l) with ([g i] ++ map g l).
    change (i :: l) with ([i] ++ l).
    rewrite !rsum_app, !rsum_single, IH. reflexivity.
Qed.

Lemma reduce_sum_bcast_map (l : list nat) (f : nat -> R) :
  reduce_sum_bcast (map f l) = rsum l f.
Proof.
  unfold reduce_sum_bcast, rsum. generalize 0.
  induction l as [| i l IH]; intro a; simpl.
  - reflexivity.
  - apply IH.
Qed.

(** The one-hot sum: among the ranks below [W] exactly [m] contributes. *)
Lemma rsum_indicator (W m : nat) (v : R) :
  rsum (range W) (fun r => if (m =? r)%nat then v else 0) =
  if (m <? W)%nat then v else 0.
Proof.
  unfold range. induction W as [| W IH].
  - reflexivity.
  - rewrite seq_S, rsum_app, rsum_single, IH. simpl.
    destruct (Nat.eqb_spec m W) as [-> | Hne].
    + rewrite Nat.ltb_irrefl.
      replace (W <? S W)%nat with true by (symmetry; apply Nat.ltb_lt; lia).
      ring.
    + destruct (Nat.ltb_spec m W) as [Hlt | Hge].
      * replace (m <? S W)%nat with true by (symmetry; apply Nat.ltb_lt; lia).
        ring.
      * replace (m <? S W)%nat with false by (symmetry; apply Nat.ltb_ge; lia).
        ring.
Qed.

(** ** The strided slabs of the ranks partition the first axis *)

(** The number of elements of [range(r, N, W)]. *)
Lemma range3_length (r N W : nat) :
  length (range3 r N W) = ((N - r + (W - 1)) / W)%nat.
Proof. unfold range3. rewrite length_map, length_seq. reflexivity. Qed.

Lemma slab_count (r N W : nat) :
  (r < W)%nat ->
  ((N - r + (W - 1)) / W =
   N / W + (if r <? N mod W then 1 else 0))%nat.
Proof.
  intro Hr.
  assert (HW : W <> 0%nat) by lia.
  pose proof (Nat.div_mod_eq N W) as HN.
  pose proof (Nat.mod_upper_bound N W HW) as Hm.
  set (q := (N / W)%nat) in *. set (m := (N mod W)%nat) in *.
  destruct (Nat.ltb_spec r m) as [Hlt | Hge].
  - symmetry. apply (Nat.div_unique _ _ _ (m - r - 1)); [lia | nia].
  - destruct (Nat.le_gt_cases r N) as [HrN | HrN].
    + symmetry. apply (Nat.div_unique _ _ _ (W - 1 - (r - m))); [lia | nia].
    + assert (Hq0 : (q = 0)%nat) by nia.
      symmetry. apply (Nat.div_unique _ _ _ (W - 1)); [lia | nia].
Qed.

Lemma slab_count_succ (r N W : nat) :
  (r < W)%nat ->
  ((S N - r + (W - 1)) / W =
   (N - r + (W - 1)) / W + (if N mod W =? r then 1 else 0))%nat /\
  (N mod W = r -> r + (N - r + (W - 1)) / W * W = N)%nat.
Proof.
  intro Hr.
  assert (HW : W <> 0%nat) by lia.
  rewrite !slab_count by assumption.
  pose proof (Nat.div_mod_eq N W) as HN.
  pose proof (Nat.mod_upper_bound N W HW) as Hm.
  pose proof (Nat.div_mod_eq (S N) W) as HN'.
  pose proof (Nat.mod_upper_bound (S N) W HW) as Hm'.
  set (q := (N / W)%nat) in *. set (m := (N mod W)%nat) in *.
  set (q' := (S N / W)%nat) in *. set (m' := (S N mod W)%nat) in *.
  assert (Hcases : ((q' = q /\ m' = S m) \/ (q' = S q /\ m' = 0 /\ S m = W))%nat).
  { destruct (Nat.eq_dec (S m) W) as [He | Hne].
    - right. assert (Hq' : (q' = S q)%nat) by nia. split; [assumption | nia].
    - left. assert (Hq' : (q' = q)%nat) by nia. split; [assumption | nia]. }
  split.
  - destruct (Nat.eqb_spec m r) as [He | Hne];
      destruct (Nat.ltb_spec r m') as [H1 | H1];
      destruct (Nat.ltb_spec r m) as [H2 | H2]; lia.
  - intro He. destruct (Nat.ltb_spec r m) as [H2 | H2]; nia.
Qed.

Lemma rsum_range3_succ (r N W : nat) (f : nat -> R) :
  (r < W)%nat ->
  rsum (range3 r (S N) W) f =
  rsum (range3 r N W) f + (if (N mod W =? r)%nat then f N else 0).
Proof.
  intro Hr.
  destruct (slab_count_succ r N W Hr) as [Hcnt Hlast].
  unfold range3. rewrite Hcnt.
  destruct (Nat.eqb_spec (N mod W) r) as [He | Hne].
  - rewrite Nat.add_1_r, seq_S, map_app, rsum_app. simpl map.
    rewrite rsum_single. rewrite (Hlast He). reflexivity.
  - rewrite Nat.add_0_r. ring.
Qed.

(** Summing the slabs of all ranks is summing over the whole axis. *)
Lemma slabs_partition (N W : nat) (f : nat -> R) :
  (1 <= W)%nat ->
  rsum (range W) (fun r => rsum (range3 r N W) f) = rsum (range N) f.
Proof.
  intro HW. induction N as [| N IH].
  - apply eq_trans with (rsum (range W) (fun _ => 0)).
    + apply rsum_ext. intros r Hr.
      apply in_seq in Hr. unfold range3.
      replace ((0 - r + (W - 1)) / W)%nat with 0%nat; [reflexivity | ].
      symmetry. apply Nat.div_small. lia.
    + unfold range. clear. induction W as [| W IH]; [reflexivity | ].
      rewrite seq_S, rsum_app, rsum_single, IH. ring.
  - unfold range at 2. rewrite seq_S, rsum_app, rsum_single. simpl.
    fold (range N). rewrite <- IH.
    rewrite <- (Rplus_comm (f N)).
    assert (Hm : (N mod W < W)%nat) by (apply Nat.mod_upper_bound; lia).
    replace (f N) with
      (rsum (range W) (fun r => if (N mod W =? r)%nat then f N else 0)).
    2:{ rewrite rsum_indicator.
        replace (N mod W <? W)%nat with true; [reflexivity | ].
        symmetry. apply Nat.ltb_lt. assumption. }
    rewrite Rplus_comm, <- rsum_plus.
    apply rsum_ext. intros r Hr. apply in_seq in Hr.
    apply rsum_range3_succ. lia.
Qed.

Lemma range3_single_worker (N : nat) : range3 0 N 1 = range N.
Proof.
  unfold range3, range.
  rewrite Nat.sub_0_r, Nat.add_0_r, Nat.div_1_r.
  rewrite <- (map_id (seq 0 N)) at 2.
  apply map_ext. intro i. lia.
Qed.

(** The slab of a rank below the worker count holds exactly the indices
    below [N] that are congruent to the rank modulo the worker count. *)
Lemma range3_congruent (r N W q : nat) :
  (r < W)%nat ->
  In q (range3 r N W) <-> (q < N)%nat /\ (q mod W = r)%nat.
Proof.
  intro Hr.
  assert (HW : W <> 0%nat) by lia.
  unfold range3. rewrite in_map_iff. split.
  - intros [i [Hq Hi]]. apply in_seq in Hi. subst q.
    split.
    + destruct Hi as [_ Hi]. cbn in Hi.
      assert (Hle : (i * W + W <= N - r + (W - 1))%nat).
      { assert (H1 : (S i <= (N - r + (W - 1)) / W)%nat) by lia.
        apply (Nat.mul_le_mono_r _ _ W) in H1.
        pose proof (Nat.Div0.mul_div_le (N - r + (W - 1)) W) as H2.
        nia. }
      lia.
    + rewrite Nat.Div0.mod_add. apply Nat.mod_small. assumption.
  - intros [Hq Hm]. exists (q / W)%nat.
    pose proof (Nat.div_mod_eq q W) as Hdm. rewrite Hm in Hdm.
    split; [nia | ].
    apply in_seq. split; [lia | ]. cbn.
    assert (H : (S (q / W) <= (N - r + (W - 1)) / W)%nat).
    { apply Nat.div_le_lower_bound; [assumption | ]. nia. }
    lia.
Qed.

(** ** Energy evaluator *)

(** The loops of [compute_elastic_energy] add up the terms of the slab
    [range(rank, N, size)]. *)
Lemma energy_loops_sum (N : nat) (q_grid : Grid Vec3) (B : Grid Tensor4)
    (strain_ft : Grid CMat3) (rank size : nat) :
  energy_loops N q_grid B strain_ft rank size =
  rsum (range3 rank N size) (fun qx =>
  rsum (range N) (fun qy =>
  rsum (range N) (fun qz => energy_term q_grid B strain_ft qx qy qz))).
Proof.
  unfold energy_loops.
  rewrite (for_ext _ _
             (fun qx acc =>
                acc + rsum (range N) (fun qy =>
                      rsum (range N) (fun qz =>
                        energy_term q_grid B strain_ft qx qy qz)))).
  - rewrite for_accumulate. ring.
  - intros qx acc.
    rewrite (for_ext _ _
               (fun qy acc' =>
                  acc' + rsum (range N) (fun qz =>
                           energy_term q_grid B strain_ft qx qy qz))).
    + apply for_accumulate.
    + intros qy acc'.
      rewrite (for_ext _ _
                 (fun qz acc'' =>
                    acc'' + energy_term q_grid B strain_ft qx qy qz)).
      * apply for_accumulate.
      * intros qz acc''. unfold energy_term.
        destruct (allclose0 (q_grid qx qy qz)); ring.
Qed.

Lemma energy_loops_partition (N W : nat) (q_grid : Grid Vec3)
    (B : Grid Tensor4) (strain_ft : Grid CMat3) :
  (1 <= W)%nat ->
  rsum (range W) (fun rank => energy_loops N q_grid B strain_ft rank W) =
  total_energy N q_grid B strain_ft.
Proof.
  intro HW.
  rewrite (rsum_ext _ _ _
             (fun rank _ => energy_loops_sum N q_grid B strain_ft rank W)).
  apply slabs_partition. assumption.
Qed.

Lemma energy_loops_single_worker (N : nat) (q_grid : Grid Vec3)
    (B : Grid Tensor4) (strain_ft : Grid CMat3) :
  energy_loops N q_grid B strain_ft 0 1 = total_energy N q_grid B strain_ft.
Proof.
  rewrite energy_loops_sum, range3_single_worker. reflexivity.
Qed.

(** C5: for every worker count W >= 1 the slab [range(rank, N, W)] of a
    rank holds the first-axis indices below N congruent to the rank modulo
    W, and the per-rank partial energies, each over its slab, add up
    to what a single worker computes, which is the sum over the whole
    grid without the zero wavevector (in [sporc_mpi6.py], and with the
    normalisations of [mac6.py] and [mac5.py]). *)
Theorem partial_energies_sum_to_single_worker_total
    (W N : nat) (q_grid : Grid Vec3) (B : Grid Tensor4)
    (strain_ft : Grid CMat3) :
  (1 <= W)%nat ->
  (forall rank q, (rank < W)%nat ->
     In q (range3 rank N W) <-> (q < N)%nat /\ (q mod W = rank)%nat) /\
  (reduce_sum_bcast
     (map (fun rank => Sporc.compute_elastic_energy N q_grid B strain_ft rank W)
          (range W))
   = Sporc.compute_elastic_energy N q_grid B strain_ft 0 1 /\
   Sporc.compute_elastic_energy N q_grid B strain_ft 0 1
   = total_energy N q_grid B strain_ft) /\
  (reduce_sum_bcast
     (map (fun rank => Mac6.compute_elastic_energy N q_grid B strain_ft rank W)
          (range W))
   = Mac6.compute_elastic_energy N q_grid B strain_ft 0 1 /\
   Mac6.compute_elastic_energy N q_grid B strain_ft 0 1
   = total_energy N q_grid B strain_ft / (2 * INR N ^ 3)) /\
  (reduce_sum_bcast
     (map (fun rank => Mac5.compute_elastic_energy N q_grid B strain_ft rank W)
          (range W))
   = Mac5.compute_elastic_energy N q_grid B strain_ft 0 1 /\
   Mac5.compute_elastic_energy N q_grid B strain_ft 0 1
   = total_energy N q_grid B strain_ft / (16 * PI ^ 3)).
Proof.
  intro HW.
  split; [intros rank q Hr; apply range3_congruent; assumption | ].
  unfold Sporc.compute_elastic_energy, Mac6.compute_elastic_energy,
    Mac5.compute_elastic_energy.
  rewrite !reduce_sum_bcast_map, !rsum_scale.
  rewrite energy_loops_partition by assumption.
  rewrite energy_loops_single_worker.
  repeat split; reflexivity.
Qed.

Lemma partial_energies_sum_to_single_worker_total_witness :
  let N := 2%nat in
  let q_grid := q_grid_of 2 in
  let B : Grid Tensor4 := zerosG zeros4 in
  let strain_ft : Grid CMat3 := zerosG (fun _ _ => Cx.zero) in
  (1 <= 2)%nat /\
  (forall rank q, (rank < 2)%nat ->
     In q (range3 rank N 2) <-> (q < N)%nat /\ (q mod 2 = rank)%nat) /\
  (reduce_sum_bcast
     (map (fun rank => Sporc.compute_elastic_energy N q_grid B strain_ft rank 2)
          (range 2))
   = Sporc.compute_elastic_energy N q_grid B strain_ft 0 1 /\
   Sporc.compute_elastic_energy N q_grid B strain_ft 0 1
   = total_energy N q_grid B strain_ft) /\
  (reduce_sum_bcast
     (map (fun rank => Mac6.compute_elastic_energy N q_grid B strain_ft rank 2)
          (range 2))
   = Mac6.compute_elastic_energy N q_grid B strain_ft 0 1 /\
   Mac6.compute_elastic_energy N q_grid B strain_ft 0 1
   = total_energy N q_grid B strain_ft / (2 * INR N ^ 3)) /\
  (reduce_sum_bcast
     (map (fun rank => Mac5.compute_elastic_energy N q_grid B strain_ft rank 2)
          (range 2))
   = Mac5.compute_elastic_energy N q_grid B strain_ft 0 1 /\
   Mac5.compute_elastic_energy N q_grid B strain_ft 0 1
   = total_energy N q_grid B strain_ft / (16 * PI ^ 3)).
Proof.
  split; [lia | ].
  apply (partial_energies_sum_to_single_worker_total
           2 2 (q_grid_of 2) (zerosG zeros4) (zerosG (fun _ _ => Cx.zero))).
  lia.
Defined.

(** ** Loops that fill an array *)

Section ForWrites.

Context {S K V : Type} (get : S -> K -> V) (v : K -> V).

(** A loop whose iteration [i] assigns [v c] to the cells [c] with
    [proj c = i] that satisfy [Q], and leaves every other cell alone. *)
Lemma for_writes (l : list nat) (body : nat -> S -> S)
    (proj : K -> nat) (Q : K -> bool) :
  (forall i s c,
      get (body i s) c = if (proj c =? i)%nat && Q c then v c else get s c) ->
  forall s c,
    get (for_ l body s) c =
    if existsb (Nat.eqb (proj c)) l && Q c then v c else get s c.
Proof.
  intro Hbody. unfold for_.
  induction l as [| a l IH]; intros s c; simpl.
  - reflexivity.
  - rewrite IH, Hbody.
    destruct (proj c =? a)%nat, (existsb (Nat.eqb (proj c)) l), (Q c);
      reflexivity.
Qed.

End ForWrites.

Lemma existsb_range (m N : nat) :
  existsb (Nat.eqb m) (range N) = (m <? N)%nat.
Proof.
  unfold range. induction N as [| N IH].
  - reflexivity.
  - rewrite seq_S, existsb_app, IH. simpl. rewrite orb_false_r.
    destruct (Nat.eqb_spec m N) as [-> | Hne].
    + rewrite Nat.ltb_irrefl.
      symmetry. apply Nat.ltb_lt. lia.
    + rewrite orb_false_r.
      destruct (Nat.ltb_spec m N); symmetry;
        [apply Nat.ltb_lt | apply Nat.ltb_ge]; lia.
Qed.



(** ** The cells of the reciprocal kernel *)

Lemma read7_zeros (c : Cell) : read7 (zerosG zeros4) c = 0.
Proof. reflexivity. Qed.

(** [mac5.py]: every cell of a grid point inside [range(N)]^3 whose
    wavevector has a nonzero norm holds the kernel entry of its direction;
    every other cell keeps the zero of [np.zeros]. *)
Lemma mac5_kernel_cell (N : nat) (C : Tensor4) (c : Cell) :
  read7 (snd (Mac5.precompute_reciprocal_space_and_kernel N C)) c =
  if (cx c <? N)%nat && (cy c <? N)%nat && (cz c <? N)%nat
     && negb (zero_norm (q_grid_of N (cx c) (cy c) (cz c)))
  then Mac5.kernel_entry C (unit_of (q_grid_of N (cx c) (cy c) (cz c)))
                         (ci c) (cj c) (ck c) (cl c)
  else 0.
Proof.
  unfold Mac5.precompute_reciprocal_space_and_kernel. cbv zeta. cbn [snd].
  set (v := fun c : Cell =>
              Mac5.kernel_entry C (unit_of (q_grid_of N (cx c) (cy c) (cz c)))
                                (ci c) (cj c) (ck c) (cl c)).
  set (nz := fun c : Cell =>
               negb (zero_norm (q_grid_of N (cx c) (cy c) (cz c)))).
  rewrite (for_writes read7 v (range N) _ cx
             (fun c => (cy c <? N)%nat && (cz c <? N)%nat && nz c)).
  - rewrite existsb_range, read7_zeros. subst v nz. cbv beta.
    rewrite <- !andb_assoc. reflexivity.
  - intros a s c1.
    rewrite (for_writes read7 v (range N) _ cy
               (fun c => (cx c =? a)%nat && (cz c <? N)%nat && nz c)).
    + rewrite existsb_range.
      destruct (cx c1 =? a)%nat, (cy c1 <? N)%nat, (cz c1 <? N)%nat, (nz c1);
        reflexivity.
    + intros b s2 c2.
      rewrite (for_writes read7 v (range N) _ cz
                 (fun c => (cx c =? a)%nat && (cy c =? b)%nat && nz c)).
      * rewrite existsb_range.
        destruct (cx c2 =? a)%nat, (cy c2 =? b)%nat, (cz c2 <? N)%nat, (nz c2);
          reflexivity.
      * intros z s3 c3. subst v nz. cbv beta.
        unfold read7, setG, zero_norm.
        destruct (Req_EM_T (norm (q_grid_of N a b z)) 0) as [Hn | Hn]; cbv beta;
          destruct (Nat.eqb_spec (cz c3) z) as [Hz | Hz];
          destruct (Nat.eqb_spec (cx c3) a) as [Hx | Hx];
          destruct (Nat.eqb_spec (cy c3) b) as [Hy | Hy];
          cbn [andb negb]; try reflexivity;
          rewrite Hx, Hy, Hz;
          destruct (Req_EM_T (norm (q_grid_of N a b z)) 0);
          try contradiction; reflexivity.
Qed.

(** [sporc_mpi6.py]: the four inner loops assign the 81 entries of one
    grid point. *)
Lemma sporc_inner_loops (C : Tensor4) (G : Mat3) (a b c : nat)
    (B : Grid Tensor4) (e : Cell) :
  read7
    (for_ (range 3) (fun i B =>
     for_ (range 3) (fun j B =>
     for_ (range 3) (fun k B =>
     for_ (range 3) (fun l B =>
       Sporc.set7 B a b c i j k l (Sporc.kernel_value C G i j k l))
     B) B) B) B) e =
  if (cx e =? a)%nat && (cy e =? b)%nat && (cz e =? c)%nat
     && (ci e <? 3)%nat && (cj e <? 3)%nat && (ck e <? 3)%nat
     && (cl e <? 3)%nat
  then Sporc.kernel_value C G (ci e) (cj e) (ck e) (cl e)
  else read7 B e.
Proof.
  set (v := fun e : Cell => Sporc.kernel_value C G (ci e) (cj e) (ck e) (cl e)).
  set (here := fun e : Cell =>
                 (cx e =? a)%nat && (cy e =? b)%nat && (cz e =? c)%nat).
  rewrite (for_writes read7 v (range 3) _ ci
             (fun e => here e && (cj e <? 3)%nat && (ck e <? 3)%nat
                       && (cl e <? 3)%nat)).
  - rewrite existsb_range. subst v here. cbv beta.
    destruct (cx e =? a)%nat, (cy e =? b)%nat, (cz e =? c)%nat,
      (ci e <? 3)%nat, (cj e <? 3)%nat, (ck e <? 3)%nat, (cl e <? 3)%nat;
      reflexivity.
  - intros i s1 e1.
    rewrite (for_writes read7 v (range 3) _ cj
               (fun e => here e && (ci e =? i)%nat && (ck e <? 3)%nat
                         && (cl e <? 3)%nat)).
    + rewrite existsb_range.
      destruct (here e1), (ci e1 =? i)%nat, (cj e1 <? 3)%nat,
        (ck e1 <? 3)%nat, (cl e1 <? 3)%nat; reflexivity.
    + intros j s2 e2.
      rewrite (for_writes read7 v (range 3) _ ck
                 (fun e => here e && (ci e =? i)%nat && (cj e =? j)%nat
                           && (cl e <? 3)%nat)).
      * rewrite existsb_range.
        destruct (here e2), (ci e2 =? i)%nat, (cj e2 =? j)%nat,
          (ck e2 <? 3)%nat, (cl e2 <? 3)%nat; reflexivity.
      * intros k s3 e3.
        rewrite (for_writes read7 v (range 3) _ cl
                   (fun e => here e && (ci e =? i)%nat && (cj e =? j)%nat
                             && (ck e =? k)%nat)).
        -- rewrite existsb_range.
           destruct (here e3), (ci e3 =? i)%nat, (cj e3 =? j)%nat,
             (ck e3 =? k)%nat, (cl e3 <? 3)%nat; reflexivity.
        -- intros l s4 e4. subst v here. cbv beta.
           unfold read7, Sporc.set7, setG, set4.
           destruct (Nat.eqb_spec (cx e4) a) as [Hx | Hx];
             destruct (Nat.eqb_spec (cy e4) b) as [Hy | Hy];
             destruct (Nat.eqb_spec (cz e4) c) as [Hz | Hz];
             cbn [andb]; rewrite ?andb_false_r; try reflexivity.
           destruct (Nat.eqb_spec (ci e4) i) as [Hi | Hi];
             destruct (Nat.eqb_spec (cj e4) j) as [Hj | Hj];
             destruct (Nat.eqb_spec (ck e4) k) as [Hk | Hk];
             destruct (Nat.eqb_spec (cl e4) l) as [Hl | Hl];
             cbn [andb]; try (rewrite Hx, Hy, Hz; reflexivity).
           rewrite Hi, Hj, Hk, Hl. reflexivity.
Qed.

(** [sporc_mpi6.py]: the cells of the kernel. *)
Lemma sporc_kernel_cell (N : nat) (C : Tensor4) (c : Cell) :
  read7 (snd (Sporc.precompute_reciprocal_space_and_kernel N C)) c =
  if (cx c <? N)%nat && (cy c <? N)%nat && (cz c <? N)%nat
     && negb (zero_norm (q_grid_of N (cx c) (cy c) (cz c)))
     && ((ci c <? 3)%nat && (cj c <? 3)%nat && (ck c <? 3)%nat
         && (cl c <? 3)%nat)
  then Sporc.kernel_value
         C (green (Sporc.acoustic
                     C (unit_of (q_grid_of N (cx c) (cy c) (cz c)))))
         (ci c) (cj c) (ck c) (cl c)
  else 0.
Proof.
  unfold Sporc.precompute_reciprocal_space_and_kernel. cbv zeta. cbn [snd].
  set (v := fun c : Cell =>
              Sporc.kernel_value
                C (green (Sporc.acoustic
                            C (unit_of (q_grid_of N (cx c) (cy c) (cz c)))))
                (ci c) (cj c) (ck c) (cl c)).
  set (nz := fun c : Cell =>
               negb (zero_norm (q_grid_of N (cx c) (cy c) (cz c)))
               && ((ci c <? 3)%nat && (cj c <? 3)%nat && (ck c <? 3)%nat
                   && (cl c <? 3)%nat)).
  rewrite (for_writes read7 v (range N) _ cx
             (fun c => (cy c <? N)%nat && (cz c <? N)%nat && nz c)).
  - rewrite existsb_range, read7_zeros. subst v nz. cbv beta.
    destruct (cx c <? N)%nat, (cy c <? N)%nat, (cz c <? N)%nat,
      (zero_norm (q_grid_of N (cx c) (cy c) (cz c)));
      reflexivity.
  - intros a s c1.
    rewrite (for_writes read7 v (range N) _ cy
               (fun c => (cx c =? a)%nat && (cz c <? N)%nat && nz c)).
    + rewrite existsb_range.
      destruct (cx c1 =? a)%nat, (cy c1 <? N)%nat, (cz c1 <? N)%nat, (nz c1);
        reflexivity.
    + intros b s2 c2.
      rewrite (for_writes read7 v (range N) _ cz
                 (fun c => (cx c =? a)%nat && (cy c =? b)%nat && nz c)).
      * rewrite existsb_range.
        destruct (cx c2 =? a)%nat, (cy c2 =? b)%nat, (cz c2 <? N)%nat, (nz c2);
          reflexivity.
      * intros z s3 c3. subst v nz. cbv beta.
        unfold zero_norm.
        destruct (Req_EM_T (norm (q_grid_of N a b z)) 0) as [Hn | Hn].
        -- destruct (Nat.eqb_spec (cz c3) z) as [Hz | Hz];
             destruct (Nat.eqb_spec (cx c3) a) as [Hx | Hx];
             destruct (Nat.eqb_spec (cy c3) b) as [Hy | Hy];
             cbn [andb negb]; try reflexivity.
           rewrite Hx, Hy, Hz.
           destruct (Req_EM_T (norm (q_grid_of N a b z)) 0);
             [reflexivity | contradiction].
        -- rewrite sporc_inner_loops.
           destruct (Nat.eqb_spec (cz c3) z) as [Hz | Hz];
             destruct (Nat.eqb_spec (cx c3) a) as [Hx | Hx];
             destruct (Nat.eqb_spec (cy c3) b) as [Hy | Hy];
             cbn [andb negb]; try reflexivity.
           rewrite Hx, Hy, Hz.
           destruct (Req_EM_T (norm (q_grid_of N a b z)) 0);
             [contradiction | ].
           cbn [andb negb]. reflexivity.
Qed.

(** ** 3x3 matrices *)

Ltac eval_idx :=
  cbv [nxt Nat.add Nat.modulo Nat.divmod Nat.sub fst snd].

(** [inv] is the inverse on both sides when the determinant is not 0. *)
Lemma inv_is_inverse (M : Mat3) (i j : nat) :
  det M <> 0 -> (i < 3)%nat -> (j < 3)%nat ->
  esum (fun k => M i k * inv M k j) = (if (i =? j)%nat then 1 else 0) /\
  esum (fun k => inv M i k * M k j) = (if (i =? j)%nat then 1 else 0).
Proof.
  intro Hdet. revert i j. intros i j; case3 i; case3 j;
    unfold esum, inv; cbn [Nat.eqb];
    (split; apply (Rmult_eq_reg_r (det M)); [ | assumption | | assumption ]);
    try (field_simplify; [ | assumption ]);
    unfold det, cofactor; eval_idx; ring.
Qed.

Lemma green_inverse (M : Mat3) (i j : nat) :
  det M <> 0 -> (i < 3)%nat -> (j < 3)%nat ->
  esum (fun k => M i k * green M k j) = (if (i =? j)%nat then 1 else 0).
Proof.
  intros Hdet Hi Hj. unfold green.
  destruct (Req_EM_T (det M) 0); [contradiction | ].
  apply inv_is_inverse; assumption.
Qed.

Lemma green_singular (M : Mat3) (i j : nat) :
  det M = 0 -> green M i j = 0.
Proof.
  intro Hdet. unfold green.
  destruct (Req_EM_T (det M) 0); [reflexivity | contradiction].
Qed.

(** The Green operator of a symmetric matrix is symmetric. *)
Lemma green_symmetric (M : Mat3) :
  (forall i j, (i < 3)%nat -> (j < 3)%nat -> M i j = M j i) ->
  forall i j, (i < 3)%nat -> (j < 3)%nat -> green M i j = green M j i.
Proof.
  intros Hsym i j. unfold green.
  destruct (Req_EM_T (det M) 0); [reflexivity | ].
  assert (H10 : M 1%nat 0%nat = M 0%nat 1%nat) by (apply Hsym; lia).
  assert (H20 : M 2%nat 0%nat = M 0%nat 2%nat) by (apply Hsym; lia).
  assert (H21 : M 2%nat 1%nat = M 1%nat 2%nat) by (apply Hsym; lia).
  case3 i; case3 j; unfold inv; f_equal;
    unfold cofactor; eval_idx; rewrite ?H10, ?H20, ?H21; ring.
Qed.

(** The Green operator only reads the nine entries of its argument. *)
Lemma green_ext (M M' : Mat3) :
  (forall i j, (i < 3)%nat -> (j < 3)%nat -> M i j = M' i j) ->
  forall i j, (i < 3)%nat -> (j < 3)%nat -> green M i j = green M' i j.
Proof.
  intros H i j.
  assert (H00 : M 0%nat 0%nat = M' 0%nat 0%nat) by (apply H; lia).
  assert (H01 : M 0%nat 1%nat = M' 0%nat 1%nat) by (apply H; lia).
  assert (H02 : M 0%nat 2%nat = M' 0%nat 2%nat) by (apply H; lia).
  assert (H10 : M 1%nat 0%nat = M' 1%nat 0%nat) by (apply H; lia).
  assert (H11 : M 1%nat 1%nat = M' 1%nat 1%nat) by (apply H; lia).
  assert (H12 : M 1%nat 2%nat = M' 1%nat 2%nat) by (apply H; lia).
  assert (H20 : M 2%nat 0%nat = M' 2%nat 0%nat) by (apply H; lia).
  assert (H21 : M 2%nat 1%nat = M' 2%nat 1%nat) by (apply H; lia).
  assert (H22 : M 2%nat 2%nat = M' 2%nat 2%nat) by (apply H; lia).
  assert (Hdet : det M = det M').
  { unfold det, cofactor. eval_idx.
    rewrite H00, H01, H02, H10, H11, H12, H20, H21, H22. reflexivity. }
  unfold green. rewrite Hdet.
  destruct (Req_EM_T (det M') 0); [reflexivity | ].
  case3 i; case3 j; unfold inv; rewrite Hdet; f_equal;
    unfold cofactor; eval_idx;
    rewrite ?H00, ?H01, ?H02, ?H10, ?H11, ?H12, ?H20, ?H21, ?H22;
    reflexivity.
Qed.

(** The Green operator of a diagonal matrix without a zero on the
    diagonal. *)
Lemma green_diag3 (a b c : R) (i j : nat) :
  a <> 0 -> b <> 0 -> c <> 0 -> (i < 3)%nat -> (j < 3)%nat ->
  green (diag3 a b c) i j = diag3 (1 / a) (1 / b) (1 / c) i j.
Proof.
  intros Ha Hb Hc.
  assert (Hdet : det (diag3 a b c) = a * b * c).
  { unfold det, cofactor, diag3. eval_idx. ring. }
  assert (Hnz : a * b * c <> 0).
  { apply Rmult_integral_contrapositive_currified;
      [apply Rmult_integral_contrapositive_currified | ]; assumption. }
  unfold green. rewrite Hdet.
  destruct (Req_EM_T (a * b * c) 0); [contradiction | ].
  case3 i; case3 j; unfold inv; rewrite Hdet;
    unfold cofactor, diag3; eval_idx; field; repeat split; assumption.
Qed.

(** ** Directions *)

Lemma norm_nonneg (k : Vec3) : 0 <= norm k.
Proof. unfold norm. apply sqrt_pos. Qed.

Lemma norm_unit_of (k : Vec3) : norm k <> 0 -> norm (unit_of k) = 1.
Proof.
  intro Hk. unfold norm at 1. unfold unit_of.
  replace (k 0%nat / norm k * (k 0%nat / norm k)
           + k 1%nat / norm k * (k 1%nat / norm k)
           + k 2%nat / norm k * (k 2%nat / norm k))
    with ((k 0%nat * k 0%nat + k 1%nat * k 1%nat + k 2%nat * k 2%nat)
          / (norm k * norm k)) by (field; assumption).
  unfold norm at 1 2. rewrite sqrt_sqrt.
  - unfold Rdiv. rewrite Rinv_r; [apply sqrt_1 | ].
    intro H0. apply Hk. unfold norm. rewrite H0. apply sqrt_0.
  - pose proof (Rle_0_sqr (k 0%nat)). pose proof (Rle_0_sqr (k 1%nat)).
    pose proof (Rle_0_sqr (k 2%nat)). unfold Rsqr in *. lra.
Qed.

(** ** The kernel entry of [mac5.py] *)

(** X3: for every grid point with a nonzero wavevector, [mac5.py] stores
    C - (n.C).G.(C.n): the direction [n] is a unit vector, it is
    contracted with the first index of C on the left of G and with the
    second index of C on the right, the acoustic tensor is C contracted
    with [n] on its second and fourth index, and G is its inverse, or zero
    when it is singular. *)
Lemma mac5_kernel_formula (N : nat) (C : Tensor4) (qx qy qz i j k l : nat) :
  (qx < N)%nat -> (qy < N)%nat -> (qz < N)%nat ->
  norm (q_grid_of N qx qy qz) <> 0 ->
  let n := unit_of (q_grid_of N qx qy qz) in
  let G_inv : Mat3 :=
    fun i j => esum (fun m => esum (fun n' => C i m j n' * n m * n n')) in
  let G := green G_inv in
  norm n = 1 /\
  (det G_inv <> 0 ->
   forall r s, (r < 3)%nat -> (s < 3)%nat ->
     esum (fun t => G_inv r t * G t s) = (if (r =? s)%nat then 1 else 0)) /\
  (det G_inv = 0 -> forall r s, G r s = 0) /\
  snd (Mac5.precompute_reciprocal_space_and_kernel N C) qx qy qz i j k l =
  C i j k l
  - esum (fun p => esum (fun q => esum (fun r => esum (fun s =>
      n p * C p q i j * G q r * C r s k l * n s)))).
Proof.
  intros Hx Hy Hz Hn n G_inv G.
  split; [apply norm_unit_of; assumption | ].
  split; [intros Hdet r s Hr Hs; apply green_inverse; assumption | ].
  split; [intros Hdet r s; apply green_singular; assumption | ].
  pose proof (mac5_kernel_cell N C
                {| cx := qx; cy := qy; cz := qz;
                   ci := i; cj := j; ck := k; cl := l |}) as Hcell.
  unfold read7 in Hcell. cbn [cx cy cz ci cj ck cl] in Hcell.
  rewrite Hcell.
  replace (qx <? N)%nat with true by (symmetry; apply Nat.ltb_lt; assumption).
  replace (qy <? N)%nat with true by (symmetry; apply Nat.ltb_lt; assumption).
  replace (qz <? N)%nat with true by (symmetry; apply Nat.ltb_lt; assumption).
  unfold zero_norm.
  destruct (Req_EM_T (norm (q_grid_of N qx qy qz)) 0); [contradiction | ].
  cbn [andb negb].
  unfold Mac5.kernel_entry. fold n. change (Mac5.acoustic C n) with G_inv.
  fold G. unfold esum. ring.
Qed.

(** ** The grid of side 2 *)

Lemma q_grid_2_100 (c : nat) :
  q_grid_of 2 1%nat 0%nat 0%nat c = match c with 0%nat => - PI | _ => 0 end.
Proof.
  assert (Hpi : PI <> 0) by (apply PI_neq0).
  destruct c as [| [| c]]; unfold q_grid_of, fftfreq; simpl; field; assumption.
Qed.

Lemma norm_q_grid_2_100 : norm (q_grid_of 2 1%nat 0%nat 0%nat) = PI.
Proof.
  unfold norm. rewrite !q_grid_2_100.
  replace (- PI * - PI + 0 * 0 + 0 * 0) with (PI * PI) by ring.
  apply sqrt_square. left. apply PI_RGT_0.
Qed.

Lemma unit_q_grid_2_100 (c : nat) :
  unit_of (q_grid_of 2 1%nat 0%nat 0%nat) c = match c with 0%nat => - 1 | _ => 0 end.
Proof.
  assert (Hpi : PI <> 0) by (apply PI_neq0).
  unfold unit_of. rewrite norm_q_grid_2_100, q_grid_2_100.
  destruct c as [| c]; field; assumption.
Qed.

Lemma norm_q_grid_2_100_nonzero : norm (q_grid_of 2 1%nat 0%nat 0%nat) <> 0.
Proof. rewrite norm_q_grid_2_100. apply PI_neq0. Qed.

Ltac eval_stiffness :=
  cbv [stiffness_loops for_ range seq fold_left set4 zeros4 Nat.eqb andb negb].

(** The acoustic tensors of the two scripts along the first axis, for
    [anisoPar = 1]. *)
Lemma sporc_acoustic_2_100 (i j : nat) :
  (i < 3)%nat -> (j < 3)%nat ->
  Sporc.acoustic (stiffness_loops (4 / 1) (4 / 1 / 2) 1)
                 (unit_of (q_grid_of 2 1%nat 0%nat 0%nat)) i j = diag3 4 2 2 i j.
Proof.
  case3 i; case3 j; unfold Sporc.acoustic, esum;
    rewrite !unit_q_grid_2_100; eval_stiffness; unfold diag3; field.
Qed.

Lemma mac5_acoustic_2_100 (i j : nat) :
  (i < 3)%nat -> (j < 3)%nat ->
  Mac5.acoustic (stiffness_loops (4 / 1) (4 / 1 / 2) 1)
                (unit_of (q_grid_of 2 1%nat 0%nat 0%nat)) i j = diag3 4 1 1 i j.
Proof.
  case3 i; case3 j; unfold Mac5.acoustic, esum;
    rewrite !unit_q_grid_2_100; eval_stiffness; unfold diag3; field.
Qed.

Lemma sporc_green_2_100 (i j : nat) :
  (i < 3)%nat -> (j < 3)%nat ->
  green (Sporc.acoustic (stiffness_loops (4 / 1) (4 / 1 / 2) 1)
                        (unit_of (q_grid_of 2 1%nat 0%nat 0%nat))) i j
  = diag3 (1 / 4) (1 / 2) (1 / 2) i j.
Proof.
  intros Hi Hj.
  rewrite (green_ext _ (diag3 4 2 2)) by (assumption || apply sporc_acoustic_2_100).
  apply green_diag3; (lra || assumption).
Qed.

Lemma mac5_green_2_100 (i j : nat) :
  (i < 3)%nat -> (j < 3)%nat ->
  green (Mac5.acoustic (stiffness_loops (4 / 1) (4 / 1 / 2) 1)
                       (unit_of (q_grid_of 2 1%nat 0%nat 0%nat))) i j
  = diag3 (1 / 4) (1 / 1) (1 / 1) i j.
Proof.
  intros Hi Hj.
  rewrite (green_ext _ (diag3 4 1 1)) by (assumption || apply mac5_acoustic_2_100).
  apply green_diag3; (lra || assumption).
Qed.

Ltac in_range_true :=
  repeat match goal with
         | |- context [(?m <? ?n)%nat] =>
             replace (m <? n)%nat with true
               by (symmetry; apply Nat.ltb_lt; lia)
         end.

Lemma sporc_kernel_at (N : nat) (C : Tensor4) (qx qy qz i j k l : nat) :
  (qx < N)%nat -> (qy < N)%nat -> (qz < N)%nat ->
  (i < 3)%nat -> (j < 3)%nat -> (k < 3)%nat -> (l < 3)%nat ->
  norm (q_grid_of N qx qy qz) <> 0 ->
  snd (Sporc.precompute_reciprocal_space_and_kernel N C) qx qy qz i j k l =
  Sporc.kernel_value
    C (green (Sporc.acoustic C (unit_of (q_grid_of N qx qy qz)))) i j k l.
Proof.
  intros Hx Hy Hz Hi Hj Hk Hl Hn.
  pose proof (sporc_kernel_cell N C
                {| cx := qx; cy := qy; cz := qz;
                   ci := i; cj := j; ck := k; cl := l |}) as Hcell.
  unfold read7 in Hcell. cbn [cx cy cz ci cj ck cl] in Hcell.
  rewrite Hcell. in_range_true.
  unfold zero_norm.
  destruct (Req_EM_T (norm (q_grid_of N qx qy qz)) 0); [contradiction | ].
  reflexivity.
Qed.

Lemma mac5_kernel_at (N : nat) (C : Tensor4) (qx qy qz i j k l : nat) :
  (qx < N)%nat -> (qy < N)%nat -> (qz < N)%nat ->
  norm (q_grid_of N qx qy qz) <> 0 ->
  snd (Mac5.precompute_reciprocal_space_and_kernel N C) qx qy qz i j k l =
  Mac5.kernel_entry C (unit_of (q_grid_of N qx qy qz)) i j k l.
Proof.
  intros Hx Hy Hz Hn.
  pose proof (mac5_kernel_cell N C
                {| cx := qx; cy := qy; cz := qz;
                   ci := i; cj := j; ck := k; cl := l |}) as Hcell.
  unfold read7 in Hcell. cbn [cx cy cz ci cj ck cl] in Hcell.
  rewrite Hcell. in_range_true.
  unfold zero_norm.
  destruct (Req_EM_T (norm (q_grid_of N qx qy qz)) 0); [contradiction | ].
  reflexivity.
Qed.

(** C1, at the grid point (1,0,0) of the grid of side 2 with
    [anisoPar = 1]: the entry [B[1,0,0,1,1,1,1]] that [sporc_mpi6.py]
    stores is -7, while C - (n.C).G.(C.n), with the script's own direction
    and Green operator, is 3 there: the einsum of the script sums the
    first index of both stiffness factors instead of contracting it with
    the direction. *)
Theorem sporc_kernel_omits_direction :
  exists C : Tensor4,
    precompute_stiffness_tensor 1 = inr C /\
    let B := snd (Sporc.precompute_reciprocal_space_and_kernel 2 C) in
    let n := unit_of (q_grid_of 2 1%nat 0%nat 0%nat) in
    let G := green (Sporc.acoustic C n) in
    norm (q_grid_of 2 1%nat 0%nat 0%nat) <> 0 /\
    B 1%nat 0%nat 0%nat 1%nat 1%nat 1%nat 1%nat = - 7 /\
    C 1%nat 1%nat 1%nat 1%nat
    - esum (fun p => esum (fun q => esum (fun r => esum (fun s =>
        n p * C p q 1%nat 1%nat * G q r * C r s 1%nat 1%nat * n s)))) = 3.
Proof.
  exists (stiffness_loops (4 / 1) (4 / 1 / 2) 1).
  split; [apply precompute_stiffness_tensor_ok; lra | ].
  cbv zeta.
  split; [apply norm_q_grid_2_100_nonzero | ].
  split.
  - rewrite sporc_kernel_at by (lia || apply norm_q_grid_2_100_nonzero).
    unfold Sporc.kernel_value, esum.
    rewrite !sporc_green_2_100 by lia.
    eval_stiffness. unfold diag3. field.
  - unfold esum.
    rewrite !sporc_green_2_100 by lia.
    rewrite !unit_q_grid_2_100.
    eval_stiffness. unfold diag3. field.
Qed.

(** ** Symmetries of the kernel *)

Lemma mac5_acoustic_symmetric (C11 C12 C44 : R) (n : Vec3) (i j : nat) :
  (i < 3)%nat -> (j < 3)%nat ->
  Mac5.acoustic (stiffness_loops C11 C12 C44) n i j =
  Mac5.acoustic (stiffness_loops C11 C12 C44) n j i.
Proof.
  case3 i; case3 j; unfold Mac5.acoustic, esum; eval_stiffness; ring.
Qed.

Lemma sporc_acoustic_symmetric (C11 C12 C44 : R) (n : Vec3) (i j : nat) :
  (i < 3)%nat -> (j < 3)%nat ->
  Sporc.acoustic (stiffness_loops C11 C12 C44) n i j =
  Sporc.acoustic (stiffness_loops C11 C12 C44) n j i.
Proof.
  case3 i; case3 j; unfold Sporc.acoustic, esum; eval_stiffness; ring.
Qed.

(** The stiffness tensor is unchanged when both index pairs are
    transposed, and when the four indices are reversed. *)
Lemma stiffness_double_transpose (C11 C12 C44 : R) (p q i j : nat) :
  (p < 3)%nat -> (q < 3)%nat -> (i < 3)%nat -> (j < 3)%nat ->
  stiffness_loops C11 C12 C44 p q i j = stiffness_loops C11 C12 C44 q p j i.
Proof. case3 p; case3 q; case3 i; case3 j; reflexivity. Qed.

Lemma stiffness_reversal (C11 C12 C44 : R) (i j k l : nat) :
  (i < 3)%nat -> (j < 3)%nat -> (k < 3)%nat -> (l < 3)%nat ->
  stiffness_loops C11 C12 C44 i j k l = stiffness_loops C11 C12 C44 l k j i.
Proof. case3 i; case3 j; case3 k; case3 l; reflexivity. Qed.

(** Reversing the four indices leaves a kernel entry of [mac5.py]
    unchanged. *)
Lemma mac5_entry_reversal (C11 C12 C44 : R) (n : Vec3) (i j k l : nat) :
  (i < 3)%nat -> (j < 3)%nat -> (k < 3)%nat -> (l < 3)%nat ->
  Mac5.kernel_entry (stiffness_loops C11 C12 C44) n i j k l =
  Mac5.kernel_entry (stiffness_loops C11 C12 C44) n l k j i.
Proof.
  intros Hi Hj Hk Hl.
  unfold Mac5.kernel_entry.
  set (G := green (Mac5.acoustic (stiffness_loops C11 C12 C44) n)).
  assert (HG : forall q r, (q < 3)%nat -> (r < 3)%nat -> G q r = G r q).
  { apply green_symmetric. intros q r. apply mac5_acoustic_symmetric. }
  assert (H10 : G 1%nat 0%nat = G 0%nat 1%nat) by (apply HG; lia).
  assert (H20 : G 2%nat 0%nat = G 0%nat 2%nat) by (apply HG; lia).
  assert (H21 : G 2%nat 1%nat = G 1%nat 2%nat) by (apply HG; lia).
  clearbody G. clear HG.
  rewrite (stiffness_reversal C11 C12 C44 l k j i) by assumption.
  assert (HT : forall p q a b, (p < 3)%nat -> (q < 3)%nat ->
                 (a < 3)%nat -> (b < 3)%nat ->
                 stiffness_loops C11 C12 C44 p q a b =
                 stiffness_loops C11 C12 C44 q p b a)
    by (intros; apply stiffness_double_transpose; assumption).
  set (C := stiffness_loops C11 C12 C44) in *. clearbody C.
  unfold esum.
  rewrite (HT 0%nat 0%nat l k), (HT 0%nat 1%nat l k), (HT 0%nat 2%nat l k),
    (HT 1%nat 0%nat l k), (HT 1%nat 1%nat l k), (HT 1%nat 2%nat l k),
    (HT 2%nat 0%nat l k), (HT 2%nat 1%nat l k), (HT 2%nat 2%nat l k) by lia.
  rewrite (HT 0%nat 0%nat j i), (HT 0%nat 1%nat j i), (HT 0%nat 2%nat j i),
    (HT 1%nat 0%nat j i), (HT 1%nat 1%nat j i), (HT 1%nat 2%nat j i),
    (HT 2%nat 0%nat j i), (HT 2%nat 1%nat j i), (HT 2%nat 2%nat j i) by lia.
  rewrite H10, H20, H21. ring.
Qed.

(** Reversing the four indices leaves a kernel entry of [sporc_mpi6.py]
    unchanged. *)
Lemma sporc_value_reversal (C11 C12 C44 : R) (n : Vec3) (i j k l : nat) :
  (i < 3)%nat -> (j < 3)%nat -> (k < 3)%nat -> (l < 3)%nat ->
  let C := stiffness_loops C11 C12 C44 in
  Sporc.kernel_value C (green (Sporc.acoustic C n)) i j k l =
  Sporc.kernel_value C (green (Sporc.acoustic C n)) l k j i.
Proof.
  intros Hi Hj Hk Hl C. subst C.
  unfold Sporc.kernel_value.
  set (G := green (Sporc.acoustic (stiffness_loops C11 C12 C44) n)).
  assert (HG : forall q r, (q < 3)%nat -> (r < 3)%nat -> G q r = G r q).
  { apply green_symmetric. intros q r. apply sporc_acoustic_symmetric. }
  assert (H10 : G 1%nat 0%nat = G 0%nat 1%nat) by (apply HG; lia).
  assert (H20 : G 2%nat 0%nat = G 0%nat 2%nat) by (apply HG; lia).
  assert (H21 : G 2%nat 1%nat = G 1%nat 2%nat) by (apply HG; lia).
  clearbody G. clear HG.
  rewrite (stiffness_reversal C11 C12 C44 l k j i) by assumption.
  assert (HT : forall p q a b, (p < 3)%nat -> (q < 3)%nat ->
                 (a < 3)%nat -> (b < 3)%nat ->
                 stiffness_loops C11 C12 C44 p q a b =
                 stiffness_loops C11 C12 C44 q p b a)
    by (intros; apply stiffness_double_transpose; assumption).
  set (C := stiffness_loops C11 C12 C44) in *. clearbody C.
  unfold esum.
  rewrite (HT 0%nat 0%nat l k), (HT 0%nat 1%nat l k), (HT 0%nat 2%nat l k),
    (HT 1%nat 0%nat l k), (HT 1%nat 1%nat l k), (HT 1%nat 2%nat l k),
    (HT 2%nat 0%nat l k), (HT 2%nat 1%nat l k), (HT 2%nat 2%nat l k) by lia.
  rewrite (HT 0%nat 0%nat j i), (HT 0%nat 1%nat j i), (HT 0%nat 2%nat j i),
    (HT 1%nat 0%nat j i), (HT 1%nat 1%nat j i), (HT 1%nat 2%nat j i),
    (HT 2%nat 0%nat j i), (HT 2%nat 1%nat j i), (HT 2%nat 2%nat j i) by lia.
  rewrite H10, H20, H21. ring.
Qed.

Lemma norm_q_grid_origin (N : nat) : norm (q_grid_of N 0%nat 0%nat 0%nat) = 0.
Proof.
  assert (H : forall c, q_grid_of N 0%nat 0%nat 0%nat c = 0).
  { intro c. unfold q_grid_of, fftfreq.
    replace (0 <? (N - 1) / 2 + 1)%nat with true
      by (symmetry; apply Nat.ltb_lt; lia).
    destruct c as [| [| c]]; simpl INR; ring. }
  unfold norm. rewrite !H.
  replace (0 * 0 + 0 * 0 + 0 * 0) with 0 by ring. apply sqrt_0.
Qed.

Lemma kernel_zero_at_zero_norm (N : nat) (C : Tensor4) (qx qy qz i j k l : nat) :
  norm (q_grid_of N qx qy qz) = 0 ->
  snd (Mac5.precompute_reciprocal_space_and_kernel N C) qx qy qz i j k l = 0 /\
  snd (Sporc.precompute_reciprocal_space_and_kernel N C) qx qy qz i j k l = 0.
Proof.
  intro Hn.
  pose proof (mac5_kernel_cell N C
                {| cx := qx; cy := qy; cz := qz;
                   ci := i; cj := j; ck := k; cl := l |}) as Hm.
  pose proof (sporc_kernel_cell N C
                {| cx := qx; cy := qy; cz := qz;
                   ci := i; cj := j; ck := k; cl := l |}) as Hs.
  unfold read7 in Hm, Hs. cbn [cx cy cz ci cj ck cl] in Hm, Hs.
  rewrite Hm, Hs. unfold zero_norm.
  destruct (Req_EM_T (norm (q_grid_of N qx qy qz)) 0); [ | contradiction ].
  cbn [negb]. rewrite !andb_false_r. cbn [andb]. split; reflexivity.
Qed.

(** The claim that B(q) is symmetric under the exchange of (i,j) and
    (k,l) fails at the grid point (1,0,0) of the grid of side 2, for
    [anisoPar = 1], in both scripts: [B[0,1,1,0]] and [B[1,0,0,1]] are
    -1 and 0 in [mac5.py], -1/2 and -1/4 in [sporc_mpi6.py]. *)
Lemma kernel_not_pair_symmetric :
  exists C : Tensor4,
    precompute_stiffness_tensor 1 = inr C /\
    let Bm := snd (Mac5.precompute_reciprocal_space_and_kernel 2 C) in
    let Bs := snd (Sporc.precompute_reciprocal_space_and_kernel 2 C) in
    norm (q_grid_of 2 1%nat 0%nat 0%nat) <> 0 /\
    Bm 1%nat 0%nat 0%nat 0%nat 1%nat 1%nat 0%nat = - 1 /\
    Bm 1%nat 0%nat 0%nat 1%nat 0%nat 0%nat 1%nat = 0 /\
    Bm 1%nat 0%nat 0%nat 0%nat 1%nat 1%nat 0%nat
    <> Bm 1%nat 0%nat 0%nat 1%nat 0%nat 0%nat 1%nat /\
    Bs 1%nat 0%nat 0%nat 0%nat 1%nat 1%nat 0%nat = - (1 / 2) /\
    Bs 1%nat 0%nat 0%nat 1%nat 0%nat 0%nat 1%nat = - (1 / 4) /\
    Bs 1%nat 0%nat 0%nat 0%nat 1%nat 1%nat 0%nat
    <> Bs 1%nat 0%nat 0%nat 1%nat 0%nat 0%nat 1%nat.
Proof.
  exists (stiffness_loops (4 / 1) (4 / 1 / 2) 1).
  split; [apply precompute_stiffness_tensor_ok; lra | ].
  cbv zeta.
  assert (Hm1 : snd (Mac5.precompute_reciprocal_space_and_kernel
                       2 (stiffness_loops (4 / 1) (4 / 1 / 2) 1))
                    1%nat 0%nat 0%nat 0%nat 1%nat 1%nat 0%nat = - 1).
  { rewrite mac5_kernel_at by (lia || apply norm_q_grid_2_100_nonzero).
    unfold Mac5.kernel_entry, esum.
    rewrite !mac5_green_2_100 by lia. rewrite !unit_q_grid_2_100.
    eval_stiffness. unfold diag3. field. }
  assert (Hm2 : snd (Mac5.precompute_reciprocal_space_and_kernel
                       2 (stiffness_loops (4 / 1) (4 / 1 / 2) 1))
                    1%nat 0%nat 0%nat 1%nat 0%nat 0%nat 1%nat = 0).
  { rewrite mac5_kernel_at by (lia || apply norm_q_grid_2_100_nonzero).
    unfold Mac5.kernel_entry, esum.
    rewrite !mac5_green_2_100 by lia. rewrite !unit_q_grid_2_100.
    eval_stiffness. unfold diag3. field. }
  assert (Hs1 : snd (Sporc.precompute_reciprocal_space_and_kernel
                       2 (stiffness_loops (4 / 1) (4 / 1 / 2) 1))
                    1%nat 0%nat 0%nat 0%nat 1%nat 1%nat 0%nat = - (1 / 2)).
  { rewrite sporc_kernel_at by (lia || apply norm_q_grid_2_100_nonzero).
    unfold Sporc.kernel_value, esum.
    rewrite !sporc_green_2_100 by lia.
    eval_stiffness. unfold diag3. field. }
  assert (Hs2 : snd (Sporc.precompute_reciprocal_space_and_kernel
                       2 (stiffness_loops (4 / 1) (4 / 1 / 2) 1))
                    1%nat 0%nat 0%nat 1%nat 0%nat 0%nat 1%nat = - (1 / 4)).
  { rewrite sporc_kernel_at by (lia || apply norm_q_grid_2_100_nonzero).
    unfold Sporc.kernel_value, esum.
    rewrite !sporc_green_2_100 by lia.
    eval_stiffness. unfold diag3. field. }
  rewrite Hm1, Hm2, Hs1, Hs2.
  repeat split; try reflexivity; try lra.
  apply norm_q_grid_2_100_nonzero.
Qed.

(** C8, as the code has it: B is the zero tensor wherever the wavevector
    has norm zero, which it has at the origin of the grid, and at every
    grid point with a nonzero wavevector B(q) is unchanged when its four
    indices are reversed, B[i,j,k,l] = B[l,k,j,i] (the exchange of the
    two pairs together with the exchange of the two indices inside each
    pair), for every a > 0, in both scripts. *)
Theorem kernel_zero_and_reversal_symmetry (a : R) (N : nat) :
  0 < a ->
  exists C : Tensor4,
    precompute_stiffness_tensor a = inr C /\
    let Bm := snd (Mac5.precompute_reciprocal_space_and_kernel N C) in
    let Bs := snd (Sporc.precompute_reciprocal_space_and_kernel N C) in
    norm (q_grid_of N 0%nat 0%nat 0%nat) = 0 /\
    (forall qx qy qz i j k l,
        norm (q_grid_of N qx qy qz) = 0 ->
        Bm qx qy qz i j k l = 0 /\ Bs qx qy qz i j k l = 0) /\
    (forall qx qy qz i j k l,
        (qx < N)%nat -> (qy < N)%nat -> (qz < N)%nat ->
        norm (q_grid_of N qx qy qz) <> 0 ->
        (i < 3)%nat -> (j < 3)%nat -> (k < 3)%nat -> (l < 3)%nat ->
        Bm qx qy qz i j k l = Bm qx qy qz l k j i /\
        Bs qx qy qz i j k l = Bs qx qy qz l k j i).
Proof.
  intro Ha.
  exists (stiffness_loops (4 / a) (4 / a / 2) 1).
  split; [apply precompute_stiffness_tensor_ok; lra | ].
  cbv zeta.
  split; [apply norm_q_grid_origin | ].
  split; [intros; apply kernel_zero_at_zero_norm; assumption | ].
  intros qx qy qz i j k l Hx Hy Hz Hn Hi Hj Hk Hl.
  rewrite !mac5_kernel_at by assumption.
  rewrite !sporc_kernel_at by assumption.
  split.
  - apply mac5_entry_reversal; assumption.
  - apply sporc_value_reversal; assumption.
Qed.

Lemma kernel_zero_and_reversal_symmetry_witness :
  0 < 1 /\
  exists C : Tensor4,
    precompute_stiffness_tensor 1 = inr C /\
    let Bm := snd (Mac5.precompute_reciprocal_space_and_kernel 2 C) in
    let Bs := snd (Sporc.precompute_reciprocal_space_and_kernel 2 C) in
    norm (q_grid_of 2 0%nat 0%nat 0%nat) = 0 /\
    (forall qx qy qz i j k l,
        norm (q_grid_of 2 qx qy qz) = 0 ->
        Bm qx qy qz i j k l = 0 /\ Bs qx qy qz i j k l = 0) /\
    (forall qx qy qz i j k l,
        (qx < 2)%nat -> (qy < 2)%nat -> (qz < 2)%nat ->
        norm (q_grid_of 2 qx qy qz) <> 0 ->
        (i < 3)%nat -> (j < 3)%nat -> (k < 3)%nat -> (l < 3)%nat ->
        Bm qx qy qz i j k l = Bm qx qy qz l k j i /\
        Bs qx qy qz i j k l = Bs qx qy qz l k j i).
Proof.
  split; [lra | apply (kernel_zero_and_reversal_symmetry 1 2); lra].
Defined.

(** ** Monte Carlo step *)

Lemma other_spins_first (c : Z) : choice (other_spins c) 0 <> c.
Proof.
  unfold choice, other_spins, filter.
  destruct (Z.eqb_spec 1 c), (Z.eqb_spec 2 c), (Z.eqb_spec 3 c);
    cbn [negb nth]; lia.
Qed.

Lemma other_spins_second (c : Z) :
  choice (other_spins c) 1 <> choice (other_spins c) 0.
Proof.
  unfold choice, other_spins, filter.
  destruct (Z.eqb_spec 1 c), (Z.eqb_spec 2 c), (Z.eqb_spec 3 c);
    cbn [negb nth]; lia.
Qed.

Lemma other_spins_in_range (c : Z) (pick : nat) :
  (1 <= c <= 3)%Z -> (pick < 2)%nat ->
  (1 <= choice (other_spins c) pick <= 3)%Z /\
  choice (other_spins c) pick <> c.
Proof.
  intros Hc Hp. unfold choice, other_spins, filter.
  destruct (Z.eqb_spec 1 c), (Z.eqb_spec 2 c), (Z.eqb_spec 3 c);
    cbn [negb]; try lia;
    destruct pick as [| [| pick]]; cbn [nth]; lia.
Qed.

Lemma accepts_zero (delta_E temperature : R) :
  accepts 0 (acceptance_probability delta_E temperature) = true.
Proof. apply accepts_iff. apply acceptance_probability_gt_0. Qed.

Lemma upd_same {A : Type} (m : Heap.Ref -> A) (r : Heap.Ref) (a : A) :
  Heap.upd m r a r = a.
Proof. unfold Heap.upd. rewrite Nat.eqb_refl. reflexivity. Qed.

Lemma setG_same {A : Type} (F : Grid A) (x y z : nat) (v : A) :
  setG F x y z v x y z = v.
Proof. unfold setG. rewrite !Nat.eqb_refl. reflexivity. Qed.

Lemma setG_setG_back {A : Type} (F : Grid A) (x y z : nat) (v : A)
    (x' y' z' : nat) :
  setG (setG F x y z v) x y z (F x y z) x' y' z' = F x' y' z'.
Proof.
  unfold setG.
  destruct (Nat.eqb_spec x' x) as [-> | ?];
    destruct (Nat.eqb_spec y' y) as [-> | ?];
    destruct (Nat.eqb_spec z' z) as [-> | ?]; reflexivity.
Qed.

(** What the proposal of rank 0 leaves in its heap in [mac5.py]: the
    caller's strain field with the reference strain of the proposed spin
    at the site, and nothing else changed. *)
Lemma mac5_propose_root (N : nat) (e1 e2 e3 : Mat3) (w : Mac5.Worker) (d : Draws) :
  let p := draw_proposal (Heap.ints (Mac5.heap w) (Mac5.lattice_spins w)) d in
  (1 <= proposed_spin p <= 3)%Z ->
  exists h strain_ft_new,
    Mac5.propose_root N e1 e2 e3 w d = (h, p, Mac5.strain_field w, strain_ft_new) /\
    Heap.ints h = Heap.ints (Mac5.heap w) /\
    Heap.floats h (Mac5.strain_field w) =
    setG (Heap.floats (Mac5.heap w) (Mac5.strain_field w)) (px p) (py p) (pz p)
         (strain_for e1 e2 e3 (proposed_spin p)).
Proof.
  intros p Hp. unfold Mac5.propose_root. fold p.
  unfold strain_for.
  destruct (Z.eqb_spec (proposed_spin p) 1) as [H1 | H1];
    [ | destruct (Z.eqb_spec (proposed_spin p) 2) as [H2 | H2];
        [ | destruct (Z.eqb_spec (proposed_spin p) 3) as [H3 | H3];
            [ | exfalso; lia ] ] ];
    eexists; eexists; (split; [reflexivity | ]);
    (split; [reflexivity | ]); cbn [Heap.floats Heap.store_float];
    apply upd_same.
Qed.

(** In [mac5.py], when rank 0 rejects a proposal, its lattice and its
    energy are what they were, but its real-space strain field is not:
    [strain_field_new] is the caller's [strain_field] under a second
    name, so the tentative strain written before the decision stays at
    the site, where the lattice still holds the old spin. *)
Lemma mac5_rejected_step_overwrites_strain_field
    (N : nat) (temperature : R) (q_grid : Grid Vec3) (B : Grid Tensor4)
    (e1 e2 e3 : Mat3) (root : Mac5.Worker) (others : list Mac5.Worker)
    (d : Draws) :
  let L := Heap.ints (Mac5.heap root) (Mac5.lattice_spins root) in
  let F := Heap.floats (Mac5.heap root) (Mac5.strain_field root) in
  let p := draw_proposal L d in
  (1 <= current_spin p <= 3)%Z ->
  (pick d < 2)%nat ->
  F (px p) (py p) (pz p) = strain_for e1 e2 e3 (current_spin p) ->
  e1 <> e2 /\ e1 <> e3 /\ e2 <> e3 ->
  exists root' accepted rest,
    Mac5.monte_carlo_step N temperature q_grid B e1 e2 e3 (root :: others) d
    = (root', accepted) :: rest /\
    (accepted = false ->
     Heap.ints (Mac5.heap root') (Mac5.lattice_spins root') = L /\
     Mac5.current_energy root' = Mac5.current_energy root /\
     Heap.floats (Mac5.heap root') (Mac5.strain_field root')
                 (px p) (py p) (pz p)
     = strain_for e1 e2 e3 (proposed_spin p) /\
     Heap.floats (Mac5.heap root') (Mac5.strain_field root')
                 (px p) (py p) (pz p)
     <> F (px p) (py p) (pz p)).
Proof.
  intros L F p Hc Hpick HF Hdistinct.
  destruct (other_spins_in_range (current_spin p) (pick d) Hc Hpick)
    as [Hrange Hne].
  change (choice (other_spins (current_spin p)) (pick d))
    with (proposed_spin p) in Hrange, Hne.
  destruct (mac5_propose_root N e1 e2 e3 root d Hrange)
    as (h & strain_ft_new & Hprop & Hints & Hfloats).
  change (draw_proposal (Heap.ints (Mac5.heap root) (Mac5.lattice_spins root)) d)
    with p in Hprop, Hfloats.
  fold F in Hfloats.
  unfold Mac5.monte_carlo_step. rewrite Hprop.
  set (E_new := reduce_sum_bcast _).
  unfold Mac5.decide_root.
  destruct (accepts (uniform d) _).
  - eexists; eexists; eexists. split; [reflexivity | ].
    intro H. discriminate H.
  - eexists; eexists; eexists. split; [reflexivity | ].
    intros _. cbn [Mac5.heap Mac5.lattice_spins Mac5.strain_field
                   Mac5.current_energy].
    split; [rewrite Hints; reflexivity | ].
    split; [reflexivity | ].
    rewrite Hfloats, setG_same, HF.
    split; [reflexivity | ].
    unfold strain_for.
    destruct Hdistinct as (H12 & H13 & H23).
    destruct (Z.eqb_spec (proposed_spin p) 1), (Z.eqb_spec (proposed_spin p) 2),
      (Z.eqb_spec (current_spin p) 1), (Z.eqb_spec (current_spin p) 2);
      try (exfalso; lia); try assumption; try (apply not_eq_sym; assumption).
Qed.

(** The same step in [sporc_mpi6.py]: a rank that rejects has its
    lattice, its spectrum and its energy back. *)
Lemma sporc_rejected_step_restores
    (N : nat) (temperature : R) (q_grid : Grid Vec3) (B : Grid Tensor4)
    (e1 e2 e3 : Mat3) (rank size : nat) (w : Sporc.Worker) (d : Draws)
    (E_new : R) :
  let '(h, p, strain_ft_new, _) :=
    Sporc.propose N q_grid B e1 e2 e3 rank size w d in
  let '(w', accepted) := Sporc.decide temperature w h p strain_ft_new E_new d in
  accepted = false ->
  (forall x y z,
      Heap.ints (Sporc.heap w') (Sporc.lattice_spins w') x y z =
      Heap.ints (Sporc.heap w) (Sporc.lattice_spins w) x y z) /\
  Heap.complexes (Sporc.heap w') = Heap.complexes (Sporc.heap w) /\
  Heap.floats (Sporc.heap w') = Heap.floats (Sporc.heap w) /\
  Sporc.current_energy w' = Sporc.current_energy w.
Proof.
  unfold Sporc.propose, Sporc.decide.
  destruct (accepts (uniform d) _).
  - intro H. discriminate H.
  - intros _.
    cbn [Sporc.heap Sporc.lattice_spins Sporc.strain_ft Sporc.current_energy
         Heap.ints Heap.floats Heap.complexes Heap.store_int].
    split; [ | repeat split ].
    intros x y z. rewrite !upd_same.
    cbn [draw_proposal px py pz current_spin proposed_spin].
    apply setG_setG_back.
Qed.

Lemma diag3_distinct :
  example_e1 <> example_e2 /\ example_e1 <> example_e3 /\
  example_e2 <> example_e3.
Proof.
  repeat split; intro H.
  - apply (f_equal (fun M : Mat3 => M 0%nat 0%nat)) in H.
    unfold example_e1, example_e2, diag3 in H. lra.
  - apply (f_equal (fun M : Mat3 => M 0%nat 0%nat)) in H.
    unfold example_e1, example_e3, diag3 in H. lra.
  - apply (f_equal (fun M : Mat3 => M 1%nat 1%nat)) in H.
    unfold example_e2, example_e3, diag3 in H. lra.
Qed.


(** C4, in [mac5.py]: two ranks start one step as identical replicas and
    rank 0 accepts its proposal (the uniform draw is 0).  Rank 0 commits
    the proposed spin to its lattice; rank 1 receives the broadcast
    lattice under a name local to the call, so the lattice it passed in,
    and will pass in again, still holds the old spin. *)
Theorem mac5_replicas_diverge_after_acceptance
    (N : nat) (temperature : R) (q_grid : Grid Vec3) (B : Grid Tensor4)
    (e1 e2 e3 : Mat3) (w : Mac5.Worker) (x y z : nat) :
  let d := {| site_x := x; site_y := y; site_z := z; pick := 0;
              uniform := 0 |} in
  let L := Heap.ints (Mac5.heap w) (Mac5.lattice_spins w) in
  exists root' rank1',
    Mac5.monte_carlo_step N temperature q_grid B e1 e2 e3 [w; w] d
    = [(root', true); (rank1', true)] /\
    Heap.ints (Mac5.heap root') (Mac5.lattice_spins root') x y z
    = choice (other_spins (L x y z)) 0 /\
    Heap.ints (Mac5.heap rank1') (Mac5.lattice_spins rank1') x y z = L x y z /\
    Heap.ints (Mac5.heap root') (Mac5.lattice_spins root') x y z
    <> Heap.ints (Mac5.heap rank1') (Mac5.lattice_spins rank1') x y z.
Proof.
  intros d L.
  unfold Mac5.monte_carlo_step.
  destruct (Mac5.propose_root N e1 e2 e3 w d)
    as [[[h p] strain_field_new] strain_ft_new] eqn:Hprop.
  assert (Hp : p = draw_proposal L d /\ Heap.ints h = Heap.ints (Mac5.heap w)).
  { unfold Mac5.propose_root in Hprop. fold L in Hprop.
    injection Hprop as Hh Hp' _ _. subst p. split; [reflexivity | ].
    rewrite <- Hh.
    repeat match goal with
           | |- context [if ?b then _ else _] => destruct b
           end; reflexivity. }
  destruct Hp as [Hp Hints].
  unfold Mac5.decide_root.
  change (uniform d) with 0. rewrite accepts_zero.
  eexists; eexists. split; [reflexivity | ].
  cbn [Mac5.heap Mac5.lattice_spins Heap.ints Heap.store_int Heap.store_float].
  rewrite upd_same, Hints. subst p.
  cbn [draw_proposal px py pz proposed_spin site_x site_y site_z pick d].
  rewrite setG_same. fold L.
  split; [reflexivity | ]. split; [reflexivity | ].
  apply other_spins_first.
Qed.

(** In [sporc_mpi6.py] every rank draws its own proposal and its own
    uniform number.  Two identical replicas whose generators select
    different spins for the same site, and which both accept (uniform
    draw 0), end the step with different lattices. *)
Lemma sporc_replicas_diverge
    (N : nat) (temperature : R) (q_grid : Grid Vec3) (B : Grid Tensor4)
    (e1 e2 e3 : Mat3) (w : Sporc.Worker) (x y z : nat) :
  let d0 := {| site_x := x; site_y := y; site_z := z; pick := 0;
               uniform := 0 |} in
  let d1 := {| site_x := x; site_y := y; site_z := z; pick := 1;
               uniform := 0 |} in
  let L := Heap.ints (Sporc.heap w) (Sporc.lattice_spins w) in
  exists rank0' rank1',
    Sporc.monte_carlo_step N temperature q_grid B e1 e2 e3 [w; w] [d0; d1]
    = [(rank0', true); (rank1', true)] /\
    Heap.ints (Sporc.heap rank0') (Sporc.lattice_spins rank0') x y z
    = choice (other_spins (L x y z)) 0 /\
    Heap.ints (Sporc.heap rank1') (Sporc.lattice_spins rank1') x y z
    = choice (other_spins (L x y z)) 1 /\
    Heap.ints (Sporc.heap rank0') (Sporc.lattice_spins rank0') x y z
    <> Heap.ints (Sporc.heap rank1') (Sporc.lattice_spins rank1') x y z.
Proof.
  intros d0 d1 L.
  unfold Sporc.monte_carlo_step.
  cbn [length range seq combine map].
  unfold Sporc.propose, Sporc.decide.
  change (uniform d0) with 0. change (uniform d1) with 0.
  rewrite !accepts_zero.
  eexists; eexists. split; [reflexivity | ].
  cbn [Sporc.heap Sporc.lattice_spins Heap.ints Heap.store_int
       Heap.assign_complex].
  rewrite !upd_same.
  cbn [draw_proposal px py pz proposed_spin site_x site_y site_z pick d0 d1].
  rewrite !setG_same. fold L.
  split; [reflexivity | ]. split; [reflexivity | ].
  apply not_eq_sym. apply other_spins_second.
Qed.

(** ** Scaling the direction *)

Lemma det_scale (M : Mat3) (s : R) :
  det (fun a b => M a b * s) = det M * (s * s * s).
Proof. unfold det, cofactor. ring. Qed.

(** The Green operator of [s * M] is the Green operator of [M] over [s]. *)
Lemma green_scale (M : Mat3) (s : R) (i j : nat) :
  s <> 0 -> (i < 3)%nat -> (j < 3)%nat ->
  green (fun a b => M a b * s) i j = green M i j / s.
Proof.
  intros Hs. unfold green. rewrite det_scale.
  destruct (Req_EM_T (det M) 0) as [Hd | Hd].
  - rewrite Hd, Rmult_0_l.
    destruct (Req_EM_T 0 0); [ | contradiction ].
    intros _ _. unfold zeros2. field. assumption.
  - destruct (Req_EM_T (det M * (s * s * s)) 0) as [H0 | H0].
    + exfalso. apply Rmult_integral in H0. destruct H0 as [H0 | H0];
        [contradiction | ].
      apply Rmult_integral in H0. destruct H0 as [H0 | H0];
        [ | contradiction ].
      apply Rmult_integral in H0. destruct H0; contradiction.
    + intros _ _. unfold inv. rewrite det_scale. unfold cofactor.
      field. split; assumption.
Qed.

Lemma mac5_acoustic_scale (C : Tensor4) (n : Vec3) (t : R) (i j : nat) :
  t <> 0 ->
  Mac5.acoustic C (fun c => n c / t) i j =
  Mac5.acoustic C n i j * (/ (t * t)).
Proof.
  intro Ht. unfold Mac5.acoustic, esum. field. assumption.
Qed.

(** A kernel entry of [mac5.py] does not change when the direction is
    divided by a nonzero number. *)
Lemma mac5_entry_scale (C : Tensor4) (n : Vec3) (t : R) (i j k l : nat) :
  t <> 0 ->
  Mac5.kernel_entry C (fun c => n c / t) i j k l = Mac5.kernel_entry C n i j k l.
Proof.
  intro Ht.
  assert (Htt : / (t * t) <> 0).
  { apply Rinv_neq_0_compat. apply Rmult_integral_contrapositive_currified;
      assumption. }
  assert (HG : forall q r, (q < 3)%nat -> (r < 3)%nat ->
             green (Mac5.acoustic C (fun c => n c / t)) q r =
             green (Mac5.acoustic C n) q r * (t * t)).
  { intros q r Hq Hr.
    rewrite (green_ext _ (fun a b => Mac5.acoustic C n a b * (/ (t * t))))
      by (assumption || (intros; apply mac5_acoustic_scale; assumption)).
    rewrite green_scale by assumption.
    field. assumption. }
  unfold Mac5.kernel_entry, esum.
  rewrite !HG by lia. field. assumption.
Qed.

Lemma norm_zero_components (k : Vec3) :
  norm k = 0 -> k 0%nat = 0 /\ k 1%nat = 0 /\ k 2%nat = 0.
Proof.
  unfold norm. intro H.
  pose proof (Rle_0_sqr (k 0%nat)) as H0. pose proof (Rle_0_sqr (k 1%nat)) as H1.
  pose proof (Rle_0_sqr (k 2%nat)) as H2. unfold Rsqr in *.
  apply sqrt_eq_0 in H; [ | lra ].
  assert (k 0%nat * k 0%nat = 0) by lra.
  assert (k 1%nat * k 1%nat = 0) by lra.
  assert (k 2%nat * k 2%nat = 0) by lra.
  repeat split; apply Rsqr_0_uniq; unfold Rsqr; assumption.
Qed.

(** The wavevectors of the grid of side 2. *)
Lemma q_grid_2 (qx qy qz : nat) (c : nat) :
  (qx < 2)%nat -> (qy < 2)%nat -> (qz < 2)%nat ->
  q_grid_of 2 qx qy qz c = vec3 (INR qx) (INR qy) (INR qz) c / (- / PI).
Proof.
  assert (Hpi : PI <> 0) by (apply PI_neq0).
  intros Hx Hy Hz.
  destruct qx as [| [| qx]]; [ | | exfalso; lia ];
    destruct qy as [| [| qy]]; [ | | exfalso; lia | | | exfalso; lia ];
    destruct qz as [| [| qz]]; try (exfalso; lia);
    destruct c as [| [| c]]; unfold q_grid_of, fftfreq, vec3; simpl;
    field; assumption.
Qed.

Lemma mac5_acoustic_ext (C : Tensor4) (n n' : Vec3) (i j : nat) :
  (forall c, (c < 3)%nat -> n c = n' c) ->
  Mac5.acoustic C n i j = Mac5.acoustic C n' i j.
Proof.
  intro H. unfold Mac5.acoustic, esum.
  rewrite (H 0%nat), (H 1%nat), (H 2%nat) by lia. reflexivity.
Qed.

Lemma mac5_entry_ext (C : Tensor4) (n n' : Vec3) (i j k l : nat) :
  (forall c, (c < 3)%nat -> n c = n' c) ->
  Mac5.kernel_entry C n i j k l = Mac5.kernel_entry C n' i j k l.
Proof.
  intro H.
  assert (HG : forall q r, (q < 3)%nat -> (r < 3)%nat ->
             green (Mac5.acoustic C n) q r = green (Mac5.acoustic C n') q r).
  { intros q r Hq Hr. apply green_ext; [ | assumption | assumption ].
    intros a b _ _. apply mac5_acoustic_ext. assumption. }
  unfold Mac5.kernel_entry, esum.
  rewrite !HG by lia.
  rewrite (H 0%nat), (H 1%nat), (H 2%nat) by lia. reflexivity.
Qed.

Lemma norm_q_grid_2_nonzero (qx qy qz : nat) :
  (qx < 2)%nat -> (qy < 2)%nat -> (qz < 2)%nat ->
  (0 < qx + qy + qz)%nat ->
  norm (q_grid_of 2 qx qy qz) <> 0.
Proof.
  intros Hx Hy Hz Hq Hn.
  assert (Hpi : PI <> 0) by (apply PI_neq0).
  apply norm_zero_components in Hn. destruct Hn as (H0 & H1 & H2).
  rewrite q_grid_2 in H0, H1, H2 by assumption.
  unfold vec3 in H0, H1, H2.
  assert (Hz0 : forall v, v / - / PI = 0 -> v = 0).
  { intros v Hv.
    replace (v / - / PI) with (- v * PI) in Hv by (field; assumption).
    apply Rmult_integral in Hv. destruct Hv as [Hv | Hv];
      [lra | contradiction]. }
  apply Hz0 in H0, H1, H2.
  change 0 with (INR 0) in H0, H1, H2.
  apply INR_eq in H0, H1, H2. lia.
Qed.

(** The kernel of [mac5.py] on the grid of side 2: the entry of a grid
    point is the entry of its index vector, taken as a direction. *)
Lemma mac5_kernel_2 (C : Tensor4) (qx qy qz i j k l : nat) :
  (qx < 2)%nat -> (qy < 2)%nat -> (qz < 2)%nat ->
  (0 < qx + qy + qz)%nat ->
  snd (Mac5.precompute_reciprocal_space_and_kernel 2 C) qx qy qz i j k l =
  Mac5.kernel_entry C (vec3 (INR qx) (INR qy) (INR qz)) i j k l.
Proof.
  intros Hx Hy Hz Hq.
  assert (Hpi : PI <> 0) by (apply PI_neq0).
  pose proof (norm_q_grid_2_nonzero qx qy qz Hx Hy Hz Hq) as Hn.
  rewrite mac5_kernel_at by assumption.
  unfold unit_of. rewrite mac5_entry_scale by assumption.
  rewrite (mac5_entry_ext C _ (fun c => vec3 (INR qx) (INR qy) (INR qz) c / (- / PI)))
    by (intros c _; apply q_grid_2; assumption).
  apply mac5_entry_scale.
  apply Ropp_neq_0_compat. apply Rinv_neq_0_compat. assumption.
Qed.

(** ** The seven directions of the grid of side 2, for [anisoPar = 1] *)

Ltac eval_acoustic :=
  unfold Mac5.acoustic, esum; eval_stiffness; unfold vec3.

(** A right inverse is the Green operator. *)
Lemma green_unique (M G : Mat3) :
  (forall i j, (i < 3)%nat -> (j < 3)%nat ->
     esum (fun k => M i k * G k j) = if (i =? j)%nat then 1 else 0) ->
  forall i j, (i < 3)%nat -> (j < 3)%nat -> green M i j = G i j.
Proof.
  intros H.
  assert (H00 := H 0%nat 0%nat). assert (H01 := H 0%nat 1%nat).
  assert (H02 := H 0%nat 2%nat). assert (H10 := H 1%nat 0%nat).
  assert (H11 := H 1%nat 1%nat). assert (H12 := H 1%nat 2%nat).
  assert (H20 := H 2%nat 0%nat). assert (H21 := H 2%nat 1%nat).
  assert (H22 := H 2%nat 2%nat).
  unfold esum in *. cbn [Nat.eqb] in *.
  specialize (H00 ltac:(lia) ltac:(lia)). specialize (H01 ltac:(lia) ltac:(lia)).
  specialize (H02 ltac:(lia) ltac:(lia)). specialize (H10 ltac:(lia) ltac:(lia)).
  specialize (H11 ltac:(lia) ltac:(lia)). specialize (H12 ltac:(lia) ltac:(lia)).
  specialize (H20 ltac:(lia) ltac:(lia)). specialize (H21 ltac:(lia) ltac:(lia)).
  specialize (H22 ltac:(lia) ltac:(lia)).
  assert (Hmul : det M * det G = 1).
  { transitivity
      (det (fun i j => M i 0%nat * G 0%nat j + M i 1%nat * G 1%nat j
                       + M i 2%nat * G 2%nat j)).
    - unfold det, cofactor. eval_idx. ring.
    - unfold det, cofactor. eval_idx.
      rewrite H00, H01, H02, H10, H11, H12, H20, H21, H22. ring. }
  assert (Hdet : det M <> 0).
  { intro H0. rewrite H0, Rmult_0_l in Hmul. lra. }
  intros i j Hi Hj.
  pose proof (H 0%nat j ltac:(lia) Hj) as E0.
  pose proof (H 1%nat j ltac:(lia) Hj) as E1.
  pose proof (H 2%nat j ltac:(lia) Hj) as E2.
  pose proof (proj2 (inv_is_inverse M i 0%nat Hdet Hi ltac:(lia))) as L0.
  pose proof (proj2 (inv_is_inverse M i 1%nat Hdet Hi ltac:(lia))) as L1.
  pose proof (proj2 (inv_is_inverse M i 2%nat Hdet Hi ltac:(lia))) as L2.
  unfold esum in E0, E1, E2, L0, L1, L2.
  unfold green. destruct (Req_EM_T (det M) 0); [contradiction | ].
  transitivity
    (inv M i 0%nat * (if (0 =? j)%nat then 1 else 0)
     + inv M i 1%nat * (if (1 =? j)%nat then 1 else 0)
     + inv M i 2%nat * (if (2 =? j)%nat then 1 else 0)).
  { clear - Hj. revert Hj. case3 j; cbn [Nat.eqb]; ring. }
  rewrite <- E0, <- E1, <- E2.
  transitivity
    ((inv M i 0%nat * M 0%nat 0%nat + inv M i 1%nat * M 1%nat 0%nat
      + inv M i 2%nat * M 2%nat 0%nat) * G 0%nat j
     + (inv M i 0%nat * M 0%nat 1%nat + inv M i 1%nat * M 1%nat 1%nat
        + inv M i 2%nat * M 2%nat 1%nat) * G 1%nat j
     + (inv M i 0%nat * M 0%nat 2%nat + inv M i 1%nat * M 1%nat 2%nat
        + inv M i 2%nat * M 2%nat 2%nat) * G 2%nat j).
  { ring. }
  rewrite L0, L1, L2. clear - Hi. revert Hi. case3 i; cbn [Nat.eqb]; ring.
Qed.

Lemma mac5_green_dir_100 (i j : nat) :
  (i < 3)%nat -> (j < 3)%nat ->
  green (Mac5.acoustic (stiffness_loops (4 / 1) (4 / 1 / 2) 1) (vec3 1 0 0)) i j
  = (mat3 (1 / 4) 0 0
       0 1 0
       0 0 1) i j.
Proof.
  apply green_unique. clear i j.
  intros i j; case3 i; case3 j; unfold esum at 1; eval_acoustic;
    unfold mat3; cbn [Nat.eqb]; field.
Qed.

Lemma mac5_flip_12_dir_100 :
  let K := Mac5.kernel_entry (stiffness_loops (4 / 1) (4 / 1 / 2) 1) (vec3 1 0 0) in
  K 0%nat 0%nat 0%nat 0%nat - K 0%nat 0%nat 1%nat 1%nat
  - K 1%nat 1%nat 0%nat 0%nat + K 1%nat 1%nat 1%nat 1%nat = 3.
Proof.
  cbv zeta. unfold Mac5.kernel_entry, esum.
  rewrite !mac5_green_dir_100 by lia.
  eval_stiffness. unfold vec3, mat3. field.
Qed.

Lemma mac5_green_dir_010 (i j : nat) :
  (i < 3)%nat -> (j < 3)%nat ->
  green (Mac5.acoustic (stiffness_loops (4 / 1) (4 / 1 / 2) 1) (vec3 0 1 0)) i j
  = (mat3 1 0 0
       0 (1 / 4) 0
       0 0 1) i j.
Proof.
  apply green_unique. clear i j.
  intros i j; case3 i; case3 j; unfold esum at 1; eval_acoustic;
    unfold mat3; cbn [Nat.eqb]; field.
Qed.

Lemma mac5_flip_12_dir_010 :
  let K := Mac5.kernel_entry (stiffness_loops (4 / 1) (4 / 1 / 2) 1) (vec3 0 1 0) in
  K 0%nat 0%nat 0%nat 0%nat - K 0%nat 0%nat 1%nat 1%nat
  - K 1%nat 1%nat 0%nat 0%nat + K 1%nat 1%nat 1%nat 1%nat = 3.
Proof.
  cbv zeta. unfold Mac5.kernel_entry, esum.
  rewrite !mac5_green_dir_010 by lia.
  eval_stiffness. unfold vec3, mat3. field.
Qed.

Lemma mac5_green_dir_001 (i j : nat) :
  (i < 3)%nat -> (j < 3)%nat ->
  green (Mac5.acoustic (stiffness_loops (4 / 1) (4 / 1 / 2) 1) (vec3 0 0 1)) i j
  = (mat3 1 0 0
       0 1 0
       0 0 (1 / 4)) i j.
Proof.
  apply green_unique. clear i j.
  intros i j; case3 i; case3 j; unfold esum at 1; eval_acoustic;
    unfold mat3; cbn [Nat.eqb]; field.
Qed.

Lemma mac5_flip_12_dir_001 :
  let K := Mac5.kernel_entry (stiffness_loops (4 / 1) (4 / 1 / 2) 1) (vec3 0 0 1) in
  K 0%nat 0%nat 0%nat 0%nat - K 0%nat 0%nat 1%nat 1%nat
  - K 1%nat 1%nat 0%nat 0%nat + K 1%nat 1%nat 1%nat 1%nat = 4.
Proof.
  cbv zeta. unfold Mac5.kernel_entry, esum.
  rewrite !mac5_green_dir_001 by lia.
  eval_stiffness. unfold vec3, mat3. field.
Qed.

Lemma mac5_green_dir_110 (i j : nat) :
  (i < 3)%nat -> (j < 3)%nat ->
  green (Mac5.acoustic (stiffness_loops (4 / 1) (4 / 1 / 2) 1) (vec3 1 1 0)) i j
  = (mat3 (5 / 21) (- (2 / 21)) 0
       (- (2 / 21)) (5 / 21) 0
       0 0 (1 / 2)) i j.
Proof.
  apply green_unique. clear i j.
  intros i j; case3 i; case3 j; unfold esum at 1; eval_acoustic;
    unfold mat3; cbn [Nat.eqb]; field.
Qed.

Lemma mac5_flip_12_dir_110 :
  let K := Mac5.kernel_entry (stiffness_loops (4 / 1) (4 / 1 / 2) 1) (vec3 1 1 0) in
  K 0%nat 0%nat 0%nat 0%nat - K 0%nat 0%nat 1%nat 1%nat
  - K 1%nat 1%nat 0%nat 0%nat + K 1%nat 1%nat 1%nat 1%nat = 4 / 3.
Proof.
  cbv zeta. unfold Mac5.kernel_entry, esum.
  rewrite !mac5_green_dir_110 by lia.
  eval_stiffness. unfold vec3, mat3. field.
Qed.

Lemma mac5_green_dir_101 (i j : nat) :
  (i < 3)%nat -> (j < 3)%nat ->
  green (Mac5.acoustic (stiffness_loops (4 / 1) (4 / 1 / 2) 1) (vec3 1 0 1)) i j
  = (mat3 (5 / 21) 0 (- (2 / 21))
       0 (1 / 2) 0
       (- (2 / 21)) 0 (5 / 21)) i j.
Proof.
  apply green_unique. clear i j.
  intros i j; case3 i; case3 j; unfold esum at 1; eval_acoustic;
    unfold mat3; cbn [Nat.eqb]; field.
Qed.

Lemma mac5_flip_12_dir_101 :
  let K := Mac5.kernel_entry (stiffness_loops (4 / 1) (4 / 1 / 2) 1) (vec3 1 0 1) in
  K 0%nat 0%nat 0%nat 0%nat - K 0%nat 0%nat 1%nat 1%nat
  - K 1%nat 1%nat 0%nat 0%nat + K 1%nat 1%nat 1%nat 1%nat = 64 / 21.
Proof.
  cbv zeta. unfold Mac5.kernel_entry, esum.
  rewrite !mac5_green_dir_101 by lia.
  eval_stiffness. unfold vec3, mat3. field.
Qed.

Lemma mac5_green_dir_011 (i j : nat) :
  (i < 3)%nat -> (j < 3)%nat ->
  green (Mac5.acoustic (stiffness_loops (4 / 1) (4 / 1 / 2) 1) (vec3 0 1 1)) i j
  = (mat3 (1 / 2) 0 0
       0 (5 / 21) (- (2 / 21))
       0 (- (2 / 21)) (5 / 21)) i j.
Proof.
  apply green_unique. clear i j.
  intros i j; case3 i; case3 j; unfold esum at 1; eval_acoustic;
    unfold mat3; cbn [Nat.eqb]; field.
Qed.

Lemma mac5_flip_12_dir_011 :
  let K := Mac5.kernel_entry (stiffness_loops (4 / 1) (4 / 1 / 2) 1) (vec3 0 1 1) in
  K 0%nat 0%nat 0%nat 0%nat - K 0%nat 0%nat 1%nat 1%nat
  - K 1%nat 1%nat 0%nat 0%nat + K 1%nat 1%nat 1%nat 1%nat = 64 / 21.
Proof.
  cbv zeta. unfold Mac5.kernel_entry, esum.
  rewrite !mac5_green_dir_011 by lia.
  eval_stiffness. unfold vec3, mat3. field.
Qed.

Lemma mac5_green_dir_111 (i j : nat) :
  (i < 3)%nat -> (j < 3)%nat ->
  green (Mac5.acoustic (stiffness_loops (4 / 1) (4 / 1 / 2) 1) (vec3 1 1 1)) i j
  = (mat3 (1 / 5) (- (1 / 20)) (- (1 / 20))
       (- (1 / 20)) (1 / 5) (- (1 / 20))
       (- (1 / 20)) (- (1 / 20)) (1 / 5)) i j.
Proof.
  apply green_unique. clear i j.
  intros i j; case3 i; case3 j; unfold esum at 1; eval_acoustic;
    unfold mat3; cbn [Nat.eqb]; field.
Qed.

Lemma mac5_flip_12_dir_111 :
  let K := Mac5.kernel_entry (stiffness_loops (4 / 1) (4 / 1 / 2) 1) (vec3 1 1 1) in
  K 0%nat 0%nat 0%nat 0%nat - K 0%nat 0%nat 1%nat 1%nat
  - K 1%nat 1%nat 0%nat 0%nat + K 1%nat 1%nat 1%nat 1%nat = 2.
Proof.
  cbv zeta. unfold Mac5.kernel_entry, esum.
  rewrite !mac5_green_dir_111 by lia.
  eval_stiffness. unfold vec3, mat3. field.
Qed.

(** ** The spectrum on the grid of side 2 *)

Lemma cos_sin_PI_INR (m : nat) :
  cos (PI * INR m) = (if Nat.even m then 1 else - 1) /\ sin (PI * INR m) = 0.
Proof.
  induction m as [| m [IHc IHs]].
  - simpl INR. rewrite Rmult_0_r, cos_0, sin_0. split; reflexivity.
  - rewrite S_INR, Rmult_plus_distr_l, Rmult_1_r, neg_cos, neg_sin, IHc, IHs.
    rewrite Nat.even_succ, <- Nat.negb_even.
    destruct (Nat.even m); cbn [negb]; split; ring.
Qed.

(** The phases of the transform of side 2 are signs. *)
Lemma cis_phase_2 (a b c x y z : nat) :
  Cx.cis (- (2 * PI) * (INR a * INR x + INR b * INR y + INR c * INR z)
          / INR 2)
  = (if Nat.even (a * x + b * y + c * z) then 1 else - 1, 0).
Proof.
  replace (- (2 * PI) * (INR a * INR x + INR b * INR y + INR c * INR z)
           / INR 2)
    with (- (PI * INR (a * x + b * y + c * z))).
  - unfold Cx.cis. rewrite cos_neg, sin_neg.
    destruct (cos_sin_PI_INR (a * x + b * y + c * z)) as [Hc Hs].
    rewrite Hc, Hs. f_equal. ring.
  - rewrite !plus_INR, !mult_INR. simpl (INR 2). field.
Qed.

Lemma uniform_strain_field_2 (e1 e2 e3 : Mat3) (x y z : nat) :
  (x < 2)%nat -> (y < 2)%nat -> (z < 2)%nat ->
  compute_strain_field 2 (fun _ _ _ => 1%Z) e1 e2 e3 x y z = e1.
Proof.
  intros Hx Hy Hz.
  destruct x as [| [| x]]; [ | | exfalso; lia ];
    destruct y as [| [| y]]; [ | | exfalso; lia | | | exfalso; lia ];
    destruct z as [| [| z]]; try (exfalso; lia); reflexivity.
Qed.

(** The spectrum of the lattice of side 2 that holds spin 1 everywhere but
    for spin 2 at the origin: at every nonzero wavevector it is the
    difference of the two reference strains. *)
Lemma flipped_origin_spectrum (e1 e2 e3 : Mat3) (qx qy qz i j : nat) :
  (qx < 2)%nat -> (qy < 2)%nat -> (qz < 2)%nat -> (0 < qx + qy + qz)%nat ->
  fftn 2 (setG (compute_strain_field 2 (fun _ _ _ => 1%Z) e1 e2 e3)
               0 0 0 e2) qx qy qz i j
  = (e2 i j - e1 i j, 0).
Proof.
  intros Hx Hy Hz Hq.
  unfold fftn, Cx.sum, range. cbn [seq fold_left].
  rewrite !cis_phase_2.
  unfold setG. cbn [Nat.eqb andb].
  rewrite !uniform_strain_field_2 by lia.
  destruct qx as [| [| qx]]; [ | | exfalso; lia ];
    destruct qy as [| [| qy]]; [ | | exfalso; lia | | | exfalso; lia ];
    destruct qz as [| [| qz]]; try (exfalso; lia);
    cbn [Nat.even Nat.mul Nat.add];
    unfold Cx.add, Cx.mul, Cx.of_real, Cx.zero; cbn [fst snd];
    f_equal; ring.
Qed.

(** The contraction of a real diagonal strain with a kernel entry. *)
Lemma contraction_real_diagonal (e : CMat3) (Bq : Tensor4) (a b c : R) :
  (forall i j, (i < 3)%nat -> (j < 3)%nat -> e i j = (diag3 a b c i j, 0)) ->
  contraction e Bq =
  a * a * Bq 0%nat 0%nat 0%nat 0%nat + a * b * Bq 0%nat 0%nat 1%nat 1%nat
  + a * c * Bq 0%nat 0%nat 2%nat 2%nat
  + b * a * Bq 1%nat 1%nat 0%nat 0%nat + b * b * Bq 1%nat 1%nat 1%nat 1%nat
  + b * c * Bq 1%nat 1%nat 2%nat 2%nat
  + c * a * Bq 2%nat 2%nat 0%nat 0%nat + c * b * Bq 2%nat 2%nat 1%nat 1%nat
  + c * c * Bq 2%nat 2%nat 2%nat 2%nat.
Proof.
  intro H. unfold contraction, Cx.esum.
  rewrite !H by lia.
  unfold diag3, Cx.real, Cx.add, Cx.mul, Cx.conj, Cx.of_real. cbn [fst snd].
  ring.
Qed.

Lemma allclose0_grid_2 (qx qy qz : nat) :
  (qx < 2)%nat -> (qy < 2)%nat -> (qz < 2)%nat ->
  allclose0 (q_grid_of 2 qx qy qz) = (qx + qy + qz =? 0)%nat.
Proof.
  intros Hx Hy Hz.
  assert (Hpi : PI <> 0) by (apply PI_neq0).
  pose proof PI2_3_2 as Hpi3.
  assert (Hzero : Rabs (0 / - / PI - 0) <= atol + rtol * Rabs 0).
  { replace (0 / - / PI - 0) with 0 by (field; assumption).
    rewrite Rabs_R0. unfold atol, rtol. lra. }
  assert (Hfar : ~ Rabs (1 / - / PI - 0) <= atol + rtol * Rabs 0).
  { replace (1 / - / PI - 0) with (- PI) by (field; assumption).
    rewrite Rabs_Ropp, Rabs_R0, (Rabs_right PI) by lra.
    unfold atol, rtol. lra. }
  unfold allclose0. cbn [forallb].
  rewrite !q_grid_2 by assumption. unfold vec3.
  destruct qx as [| [| qx]]; [ | | exfalso; lia ];
    destruct qy as [| [| qy]]; [ | | exfalso; lia | | | exfalso; lia ];
    destruct qz as [| [| qz]]; try (exfalso; lia);
    simpl INR; cbn [Nat.add Nat.eqb];
    repeat match goal with
           | |- context [Rle_dec ?a ?b] =>
               destruct (Rle_dec a b); try contradiction
           end;
    reflexivity.
Qed.

Lemma example_strain_difference (i j : nat) :
  (i < 3)%nat -> (j < 3)%nat ->
  (example_e2 i j - example_e1 i j, 0) = (diag3 (- 1) 1 0 i j, 0).
Proof.
  case3 i; case3 j; unfold example_e1, example_e2, diag3; f_equal; ring.
Qed.

(** What each nonzero wavevector of the grid of side 2 adds to the energy
    of the lattice with spin 2 at the origin and spin 1 elsewhere. *)
Lemma example_energy_term (qx qy qz : nat) :
  (qx < 2)%nat -> (qy < 2)%nat -> (qz < 2)%nat -> (0 < qx + qy + qz)%nat ->
  let K := Mac5.kernel_entry (stiffness_loops (4 / 1) (4 / 1 / 2) 1)
                             (vec3 (INR qx) (INR qy) (INR qz)) in
  energy_term (q_grid_of 2) example_kernel
    (fftn 2 (setG (compute_strain_field 2 (fun _ _ _ => 1%Z)
                     example_e1 example_e2 example_e3)
                  0 0 0 example_e2))
    qx qy qz
  = K 0%nat 0%nat 0%nat 0%nat - K 0%nat 0%nat 1%nat 1%nat
    - K 1%nat 1%nat 0%nat 0%nat + K 1%nat 1%nat 1%nat 1%nat.
Proof.
  intros Hx Hy Hz Hq K.
  unfold energy_term. rewrite allclose0_grid_2 by assumption.
  replace (qx + qy + qz =? 0)%nat with false
    by (symmetry; apply Nat.eqb_neq; lia).
  rewrite (contraction_real_diagonal _ _ (- 1) 1 0).
  - unfold example_kernel. rewrite !mac5_kernel_2 by assumption.
    subst K. ring.
  - intros i j Hi Hj. rewrite flipped_origin_spectrum by assumption.
    apply example_strain_difference; assumption.
Qed.

(** The energy [mac5.py] computes, on one worker, for that lattice. *)
Lemma example_tentative_energy :
  Mac5.compute_elastic_energy 2 (q_grid_of 2) example_kernel
    (fftn 2 (setG (compute_strain_field 2 (fun _ _ _ => 1%Z)
                     example_e1 example_e2 example_e3)
                  0 0 0 example_e2))
    0 1
  = 136 / 7 / (16 * PI ^ 3).
Proof.
  unfold Mac5.compute_elastic_energy. cbv zeta.
  rewrite energy_loops_single_worker.
  unfold total_energy, rsum, range. cbn [seq fold_left].
  rewrite (example_energy_term 0 0 1), (example_energy_term 0 1 0),
    (example_energy_term 0 1 1), (example_energy_term 1 0 0),
    (example_energy_term 1 0 1), (example_energy_term 1 1 0),
    (example_energy_term 1 1 1) by lia.
  cbv zeta. simpl INR.
  pose proof mac5_flip_12_dir_001 as H001. pose proof mac5_flip_12_dir_010 as H010.
  pose proof mac5_flip_12_dir_011 as H011. pose proof mac5_flip_12_dir_100 as H100.
  pose proof mac5_flip_12_dir_101 as H101. pose proof mac5_flip_12_dir_110 as H110.
  pose proof mac5_flip_12_dir_111 as H111.
  cbv zeta in H001, H010, H011, H100, H101, H110, H111.
  rewrite H001, H010, H011, H100, H101, H110, H111.
  unfold energy_term. rewrite allclose0_grid_2 by lia. cbn [Nat.add Nat.eqb].
  assert (Hpi : PI <> 0) by (apply PI_neq0).
  field. assumption.
Qed.

(** The reference strains and the stiffness tensor of the example are
    what the material model returns for [epsilon_a = 0], [gamma_0 = 0.4]
    and [anisoPar = 1]. *)
Lemma example_material :
  material_model 0 (2 / 5) 1 =
  inr (example_e1, example_e2, example_e3,
       stiffness_loops (4 / 1) (4 / 1 / 2) 1).
Proof.
  unfold material_model, main_setup.
  rewrite define_dimensionless_strains_ok by lra.
  rewrite precompute_stiffness_tensor_ok by lra.
  replace (0 / (2 / 5)) with 0 by field.
  replace (1 + 0) with 1 by ring.
  reflexivity.
Qed.

(** The spectrum of the lattice of side 2 with spin 1 everywhere vanishes
    away from the zero wavevector, and so does its energy: the
    [current_energy] of [example_root] is the energy [main] computes for
    its lattice. *)
Lemma uniform_spectrum (e1 e2 e3 : Mat3) (qx qy qz i j : nat) :
  (qx < 2)%nat -> (qy < 2)%nat -> (qz < 2)%nat -> (0 < qx + qy + qz)%nat ->
  fftn 2 (compute_strain_field 2 (fun _ _ _ => 1%Z) e1 e2 e3) qx qy qz i j
  = (0, 0).
Proof.
  intros Hx Hy Hz Hq.
  unfold fftn, Cx.sum, range. cbn [seq fold_left].
  rewrite !cis_phase_2.
  rewrite !uniform_strain_field_2 by lia.
  destruct qx as [| [| qx]]; [ | | exfalso; lia ];
    destruct qy as [| [| qy]]; [ | | exfalso; lia | | | exfalso; lia ];
    destruct qz as [| [| qz]]; try (exfalso; lia);
    cbn [Nat.even Nat.mul Nat.add];
    unfold Cx.add, Cx.mul, Cx.of_real, Cx.zero; cbn [fst snd];
    f_equal; ring.
Qed.

Lemma example_initial_energy :
  Mac5.compute_elastic_energy 2 (q_grid_of 2) example_kernel
    (Heap.complexes (Mac5.heap example_root) 0%nat) 0 1
  = Mac5.current_energy example_root.
Proof.
  unfold Mac5.compute_elastic_energy. cbv zeta.
  rewrite energy_loops_single_worker.
  assert (Hterm : forall qx qy qz, (qx < 2)%nat -> (qy < 2)%nat -> (qz < 2)%nat ->
            energy_term (q_grid_of 2) example_kernel
              (Heap.complexes (Mac5.heap example_root) 0%nat) qx qy qz = 0).
  { intros qx qy qz Hx Hy Hz. unfold energy_term.
    rewrite allclose0_grid_2 by assumption.
    destruct (Nat.eqb_spec (qx + qy + qz) 0) as [H0 | H0]; [reflexivity | ].
    rewrite (contraction_real_diagonal _ _ 0 0 0); [ring | ].
    intros i j Hi Hj. cbn [example_root Mac5.heap heap_of Heap.complexes].
    rewrite uniform_spectrum by lia.
    revert Hi Hj. case3 i; case3 j; reflexivity. }
  unfold total_energy, rsum, range. cbn [seq fold_left].
  rewrite !Hterm by lia.
  cbn [example_root Mac5.current_energy]. unfold Rdiv. ring.
Qed.

Lemma example_probability_bound :
  acceptance_probability (0 + 136 / 7 / (16 * PI ^ 3) - 0) 2 <= 999 / 1000.
Proof.
  pose proof PI_RGT_0 as Hpos. pose proof PI_4 as H4.
  assert (Hcube : 0 < PI ^ 3 <= 64).
  { split; [apply pow_lt; assumption | ].
    replace 64 with (4 ^ 3) by ring. apply pow_incr. lra. }
  assert (HE : 9 / 1000 <= (0 + 136 / 7 / (16 * PI ^ 3) - 0) / 2).
  { replace ((0 + 136 / 7 / (16 * PI ^ 3) - 0) / 2)
      with (17 / 28 * / PI ^ 3) by (field; lra).
    assert (Hinv : / 64 <= / PI ^ 3)
      by (apply Rinv_le_contravar; lra).
    lra. }
  rewrite acceptance_probability_positive by lra.
  set (m := Rmin _ 700).
  assert (Hm : 9 / 1000 <= m) by (apply Rmin_glb; lra).
  rewrite exp_Ropp.
  pose proof (exp_ineq1_le m) as Hexp.
  apply Rle_trans with (/ (1 + 9 / 1000)); [ | lra ].
  apply Rinv_le_contravar; lra.
Qed.

(** C3 at a concrete run of [mac5.py] on one worker: the lattice of side
    2 holds spin 1 everywhere, its strain field and its energy (zero) are
    those [main] computes, [anisoPar = 1], [epsilon_a = 0], the
    temperature is 2; rank 0 proposes spin 2 at the origin and draws
    0.999.  The tentative energy is 136 / (7 * 16 * pi^3), the proposal
    is rejected, lattice and energy are unchanged, and the strain field
    holds the strain of spin 2 at the origin, where it held the strain of
    spin 1. *)
Theorem mac5_rejection_example :
  exists root' : Mac5.Worker,
    Mac5.monte_carlo_step 2 2 (q_grid_of 2) example_kernel
                          example_e1 example_e2 example_e3
                          [example_root] example_draws
    = [(root', false)] /\
    Heap.ints (Mac5.heap root') (Mac5.lattice_spins root')
    = Heap.ints (Mac5.heap example_root) (Mac5.lattice_spins example_root) /\
    Mac5.current_energy root' = Mac5.current_energy example_root /\
    Heap.floats (Mac5.heap example_root) (Mac5.strain_field example_root)
                0%nat 0%nat 0%nat = example_e1 /\
    Heap.floats (Mac5.heap root') (Mac5.strain_field root')
                0%nat 0%nat 0%nat = example_e2 /\
    example_e2 <> example_e1.
Proof.
  unfold Mac5.monte_carlo_step, Mac5.propose_root.
  cbn [example_root example_draws Mac5.heap Mac5.lattice_spins
       Mac5.strain_field Mac5.current_energy heap_of Heap.ints Heap.floats
       draw_proposal site_x site_y site_z pick uniform
       px py pz current_spin proposed_spin].
  change (choice (other_spins 1) 0) with 2%Z.
  cbn [Z.eqb Pos.eqb Heap.store_float Heap.floats Heap.ints].
  rewrite upd_same.
  cbn [length range seq map].
  unfold reduce_sum_bcast. cbn [fold_left].
  change (Heap.floats (heap_of 2 (fun _ _ _ => 1%Z)
                              example_e1 example_e2 example_e3) 0%nat)
    with (compute_strain_field 2 (fun _ _ _ => 1%Z)
                               example_e1 example_e2 example_e3).
  rewrite example_tentative_energy.
  unfold Mac5.decide_root.
  change (uniform example_draws) with (999 / 1000).
  change (Mac5.current_energy example_root) with 0.
  replace (accepts (999 / 1000)
             (acceptance_probability (0 + 136 / 7 / (16 * PI ^ 3) - 0) 2))
    with false.
  - eexists. split; [reflexivity | ].
    cbn [Mac5.heap Mac5.lattice_spins Mac5.strain_field Mac5.current_energy
         Heap.ints Heap.floats].
    split; [reflexivity | ]. split; [reflexivity | ].
    split; [reflexivity | ].
    split; [ reflexivity | ].
    apply not_eq_sym. apply diag3_distinct.
  - symmetry. unfold accepts.
    destruct (Rlt_dec (999 / 1000) _) as [Hlt | Hge]; [ | reflexivity ].
    pose proof example_probability_bound. lra.
Qed.

(** * Further properties of the scripts *)

(** ** The grid of wavevectors *)

Lemma half_split (n : nat) : (0 < n)%nat -> (n / 2 + (n - 1) / 2 + 1 = n)%nat.
Proof.
  intro Hn.
  pose proof (Nat.div_mod_eq n 2) as H1.
  pose proof (Nat.div_mod_eq (n - 1) 2) as H2.
  pose proof (Nat.mod_upper_bound n 2) as H3.
  pose proof (Nat.mod_upper_bound (n - 1) 2) as H4.
  destruct (Nat.eq_dec (n mod 2) 0) as [He | He].
  - assert (Ho : ((n - 1) mod 2 = 1)%nat).
    { destruct (Nat.eq_dec ((n - 1) mod 2) 0) as [H0 | H0]; [ | lia ].
      exfalso. lia. }
    lia.
  - assert (Ho : ((n - 1) mod 2 = 0)%nat).
    { destruct (Nat.eq_dec ((n - 1) mod 2) 0) as [H0 | H0]; [ assumption | ].
      exfalso. lia. }
    lia.
Qed.

Lemma fftfreq_wrapped (n : nat) (d : R) (i : nat) :
  (i < n)%nat ->
  fftfreq n d i = IZR (wrapped n i) * (1 / (INR n * d)).
Proof.
  intro Hi. unfold fftfreq, wrapped. cbv zeta.
  pose proof (half_split n ltac:(lia)) as Hh.
  destruct (Nat.ltb_spec i ((n - 1) / 2 + 1)) as [Hlt | Hge];
    destruct (Nat.leb_spec i ((n - 1) / 2)) as [Hle | Hgt]; try (exfalso; lia).
  - rewrite INR_IZR_INZ. reflexivity.
  - f_equal. f_equal. lia.
Qed.

Lemma wrapped_zero (n i : nat) :
  (i < n)%nat -> (wrapped n i = 0%Z <-> i = 0%nat).
Proof.
  intro Hi. unfold wrapped.
  destruct (Nat.leb_spec i ((n - 1) / 2)); lia.
Qed.

Lemma wrapped_bound (n i : nat) :
  (i < n)%nat -> (i <> 0)%nat -> 1 <= Rabs (IZR (wrapped n i)).
Proof.
  intros Hi H0. rewrite <- abs_IZR. apply IZR_le.
  unfold wrapped. destruct (Nat.leb_spec i ((n - 1) / 2)); lia.
Qed.

(** The wavevector of a grid point, through its integer frequencies. *)
Lemma q_grid_wrapped (N qx qy qz c : nat) :
  (qx < N)%nat -> (qy < N)%nat -> (qz < N)%nat ->
  q_grid_of N qx qy qz c = frequencies N qx qy qz c * (2 * PI / INR N).
Proof.
  intros Hx Hy Hz.
  assert (Hpi : PI <> 0) by apply PI_neq0.
  assert (HN : INR N <> 0) by (apply not_0_INR; lia).
  unfold q_grid_of, frequencies, vec3. cbv zeta.
  destruct c as [| [| c]]; rewrite fftfreq_wrapped by assumption;
    field; split; assumption.
Qed.

Lemma grid_step_pos (N : nat) : (0 < N)%nat -> 0 < 2 * PI / INR N.
Proof.
  intro HN. pose proof PI_RGT_0.
  apply Rdiv_lt_0_compat; [lra | ]. apply lt_0_INR. assumption.
Qed.

Lemma q_grid_component_zero (N qx qy qz c : nat) :
  (qx < N)%nat -> (qy < N)%nat -> (qz < N)%nat -> (c < 3)%nat ->
  q_grid_of N qx qy qz c = 0 <->
  nth c [qx; qy; qz] 0%nat = 0%nat.
Proof.
  intros Hx Hy Hz Hc.
  pose proof (grid_step_pos N ltac:(lia)) as Hs.
  rewrite q_grid_wrapped by assumption.
  assert (Hm : forall i, (i < N)%nat ->
            IZR (wrapped N i) * (2 * PI / INR N) = 0 <-> i = 0%nat).
  { intros i Hi. split.
    - intro H. apply Rmult_integral in H. destruct H as [H | H]; [ | lra ].
      apply eq_IZR in H. apply wrapped_zero in H; assumption.
    - intros ->. replace (wrapped N 0) with 0%Z.
      + ring.
      + symmetry. apply wrapped_zero; [assumption | reflexivity]. }
  destruct c as [| [| [| c]]]; [ | | | exfalso; lia ];
    unfold frequencies, vec3; cbn [nth]; apply Hm; assumption.
Qed.

Lemma norm_q_grid_zero_iff (N qx qy qz : nat) :
  (qx < N)%nat -> (qy < N)%nat -> (qz < N)%nat ->
  norm (q_grid_of N qx qy qz) = 0 <-> (qx = 0 /\ qy = 0 /\ qz = 0)%nat.
Proof.
  intros Hx Hy Hz. split.
  - intro Hn. apply norm_zero_components in Hn. destruct Hn as (H0 & H1 & H2).
    apply q_grid_component_zero in H0, H1, H2; try assumption; try lia.
    cbn [nth] in H0, H1, H2. repeat split; assumption.
  - intros (-> & -> & ->). apply norm_q_grid_origin.
Qed.

Lemma allclose0_iff (q : Vec3) :
  allclose0 q = true <->
  Rabs (q 0%nat) <= atol /\ Rabs (q 1%nat) <= atol /\ Rabs (q 2%nat) <= atol.
Proof.
  unfold allclose0. cbn [forallb].
  rewrite Rabs_R0, Rmult_0_r, Rplus_0_r, !Rminus_0_r.
  destruct (Rle_dec (Rabs (q 0%nat)) atol), (Rle_dec (Rabs (q 1%nat)) atol),
    (Rle_dec (Rabs (q 2%nat)) atol); cbn [andb]; split; intro H;
    try discriminate H; try reflexivity; try (repeat split; assumption);
    destruct H as (? & ? & ?); contradiction.
Qed.

Lemma grid_step_above_atol (N : nat) :
  (0 < N)%nat -> (Z.of_nat N <= 600000000)%Z -> atol < 2 * PI / INR N.
Proof.
  intros HN Hb.
  pose proof PI2_3_2 as Hpi.
  assert (H0 : 0 < INR N) by (apply lt_0_INR; assumption).
  assert (H1 : INR N <= 600000000).
  { rewrite INR_IZR_INZ. apply IZR_le. assumption. }
  unfold atol.
  apply Rmult_lt_reg_r with (INR N); [assumption | ].
  unfold Rdiv at 2. rewrite Rmult_assoc, Rinv_l by lra. lra.
Qed.

Lemma q_grid_component_close (N qx qy qz c : nat) :
  (Z.of_nat N <= 600000000)%Z ->
  (qx < N)%nat -> (qy < N)%nat -> (qz < N)%nat -> (c < 3)%nat ->
  Rabs (q_grid_of N qx qy qz c) <= atol <->
  nth c [qx; qy; qz] 0%nat = 0%nat.
Proof.
  intros Hb Hx Hy Hz Hc.
  pose proof (grid_step_above_atol N ltac:(lia) Hb) as Hs.
  pose proof (grid_step_pos N ltac:(lia)) as Hp.
  split.
  - intro Hclose.
    destruct (Nat.eq_dec (nth c [qx; qy; qz] 0%nat) 0) as [H0 | H0];
      [assumption | exfalso].
    rewrite q_grid_wrapped in Hclose by assumption.
    rewrite Rabs_mult, (Rabs_right (2 * PI / INR N)) in Hclose by lra.
    assert (Hm : 1 <= Rabs (frequencies N qx qy qz c)).
    { destruct c as [| [| [| c]]]; [ | | | exfalso; lia ];
        unfold frequencies, vec3;
        cbn [nth] in H0; apply wrapped_bound; assumption. }
    nra.
  - intro H0.
    apply (proj2 (q_grid_component_zero N qx qy qz c Hx Hy Hz Hc)) in H0.
    rewrite H0, Rabs_R0. unfold atol. lra.
Qed.

(** X8: on a grid of side at most 600000000 the test
    [np.allclose(q_grid[qx, qy, qz], 0)] of [compute_elastic_energy]
    holds at the origin of the grid and nowhere else, so the energy
    evaluator skips exactly the point the kernel builder skips with
    [np.linalg.norm(k) == 0]. *)
Theorem energy_skips_exactly_the_origin (N qx qy qz : nat) :
  (Z.of_nat N <= 600000000)%Z ->
  (qx < N)%nat -> (qy < N)%nat -> (qz < N)%nat ->
  (allclose0 (q_grid_of N qx qy qz) = true
   <-> (qx = 0 /\ qy = 0 /\ qz = 0)%nat) /\
  allclose0 (q_grid_of N qx qy qz) = zero_norm (q_grid_of N qx qy qz).
Proof.
  intros Hb Hx Hy Hz.
  assert (Hiff : allclose0 (q_grid_of N qx qy qz) = true
                 <-> (qx = 0 /\ qy = 0 /\ qz = 0)%nat).
  { rewrite allclose0_iff.
    rewrite !q_grid_component_close by (assumption || lia).
    cbn [nth]. reflexivity. }
  split; [exact Hiff | ].
  pose proof (norm_q_grid_zero_iff N qx qy qz Hx Hy Hz) as Hz0.
  unfold zero_norm.
  destruct (Req_EM_T (norm (q_grid_of N qx qy qz)) 0) as [Hn | Hn].
  - apply Hiff. apply Hz0. assumption.
  - destruct (allclose0 (q_grid_of N qx qy qz)) eqn:Ha; [ | reflexivity ].
    exfalso. apply Hn. apply Hz0. apply Hiff. reflexivity.
Qed.

Lemma energy_skips_exactly_the_origin_witness :
  (Z.of_nat 12 <= 600000000)%Z /\
  ((allclose0 (q_grid_of 12 0%nat 7%nat 0%nat) = true
    <-> (0 = 0 /\ 7 = 0 /\ 0 = 0)%nat) /\
   allclose0 (q_grid_of 12 0%nat 7%nat 0%nat)
   = zero_norm (q_grid_of 12 0%nat 7%nat 0%nat)).
Proof.
  split; [lia | apply (energy_skips_exactly_the_origin 12 0 7 0); lia].
Defined.

(** ** The kernel through the integer frequencies *)

Lemma norm_frequencies_nonzero (N qx qy qz : nat) :
  (qx < N)%nat -> (qy < N)%nat -> (qz < N)%nat ->
  norm (q_grid_of N qx qy qz) <> 0 ->
  norm (frequencies N qx qy qz) <> 0.
Proof.
  intros Hx Hy Hz Hn Hf. apply Hn.
  apply norm_zero_components in Hf. destruct Hf as (H0 & H1 & H2).
  unfold norm. rewrite !q_grid_wrapped by assumption.
  rewrite H0, H1, H2.
  replace (0 * (2 * PI / INR N) * (0 * (2 * PI / INR N))
           + 0 * (2 * PI / INR N) * (0 * (2 * PI / INR N))
           + 0 * (2 * PI / INR N) * (0 * (2 * PI / INR N))) with 0 by ring.
  apply sqrt_0.
Qed.

Lemma norm_scale (k : Vec3) (s : R) :
  0 <= s -> norm (fun c => k c * s) = norm k * s.
Proof.
  intro Hs. unfold norm.
  replace (k 0%nat * s * (k 0%nat * s) + k 1%nat * s * (k 1%nat * s)
           + k 2%nat * s * (k 2%nat * s))
    with ((k 0%nat * k 0%nat + k 1%nat * k 1%nat + k 2%nat * k 2%nat)
          * (s * s)) by ring.
  pose proof (Rle_0_sqr (k 0%nat)). pose proof (Rle_0_sqr (k 1%nat)).
  pose proof (Rle_0_sqr (k 2%nat)). unfold Rsqr in *.
  rewrite sqrt_mult by nra.
  rewrite sqrt_square by assumption. reflexivity.
Qed.

Lemma norm_ext (k k' : Vec3) :
  (forall c, (c < 3)%nat -> k c = k' c) -> norm k = norm k'.
Proof.
  intro H. unfold norm.
  rewrite (H 0%nat), (H 1%nat), (H 2%nat) by lia. reflexivity.
Qed.

(** The direction of a grid point is the direction of its integer
    frequencies. *)
Lemma unit_of_q_grid (N qx qy qz c : nat) :
  (qx < N)%nat -> (qy < N)%nat -> (qz < N)%nat -> (c < 3)%nat ->
  norm (q_grid_of N qx qy qz) <> 0 ->
  unit_of (q_grid_of N qx qy qz) c = unit_of (frequencies N qx qy qz) c.
Proof.
  intros Hx Hy Hz Hc Hn.
  pose proof (grid_step_pos N ltac:(lia)) as Hs.
  pose proof (norm_frequencies_nonzero N qx qy qz Hx Hy Hz Hn) as Hf.
  unfold unit_of.
  rewrite (norm_ext (q_grid_of N qx qy qz)
             (fun c => frequencies N qx qy qz c * (2 * PI / INR N)))
    by (intros; apply q_grid_wrapped; assumption).
  rewrite norm_scale by lra.
  rewrite q_grid_wrapped by assumption.
  set (s := 2 * PI / INR N) in *.
  field. split; (lra || assumption).
Qed.

Lemma sporc_acoustic_ext (C : Tensor4) (n n' : Vec3) (i j : nat) :
  (forall c, (c < 3)%nat -> n c = n' c) ->
  Sporc.acoustic C n i j = Sporc.acoustic C n' i j.
Proof.
  intro H. unfold Sporc.acoustic, esum.
  rewrite (H 0%nat), (H 1%nat), (H 2%nat) by lia. reflexivity.
Qed.

Lemma sporc_value_ext (C : Tensor4) (G G' : Mat3) (i j k l : nat) :
  (forall a b, (a < 3)%nat -> (b < 3)%nat -> G a b = G' a b) ->
  Sporc.kernel_value C G i j k l = Sporc.kernel_value C G' i j k l.
Proof.
  intro H. unfold Sporc.kernel_value, esum.
  rewrite !H by lia. reflexivity.
Qed.

(** X2: the kernel builders skip exactly the origin of the grid, whose
    cells keep the zero of [np.zeros]; at every other grid point the
    kernel is a function of the integer frequencies of the point alone.
    In [mac5.py] the entry is the kernel entry of the frequency vector
    taken as it is (no normalisation and no grid spacing matter); in
    [sporc_mpi6.py] it is the kernel value for the Green operator of the
    normalised frequency vector. *)
Theorem kernel_depends_on_integer_direction
    (N : nat) (C : Tensor4) (qx qy qz i j k l : nat) :
  (qx < N)%nat -> (qy < N)%nat -> (qz < N)%nat ->
  (i < 3)%nat -> (j < 3)%nat -> (k < 3)%nat -> (l < 3)%nat ->
  let m := frequencies N qx qy qz in
  snd (Mac5.precompute_reciprocal_space_and_kernel N C) qx qy qz i j k l
  = (if (qx =? 0)%nat && (qy =? 0)%nat && (qz =? 0)%nat then 0
     else Mac5.kernel_entry C m i j k l) /\
  snd (Sporc.precompute_reciprocal_space_and_kernel N C) qx qy qz i j k l
  = (if (qx =? 0)%nat && (qy =? 0)%nat && (qz =? 0)%nat then 0
     else Sporc.kernel_value C (green (Sporc.acoustic C (unit_of m))) i j k l).
Proof.
  intros Hx Hy Hz Hi Hj Hk Hl m.
  pose proof (norm_q_grid_zero_iff N qx qy qz Hx Hy Hz) as Hiff.
  destruct (Req_EM_T (norm (q_grid_of N qx qy qz)) 0) as [Hn | Hn].
  - destruct (proj1 Hiff Hn) as (H0x & H0y & H0z).
    rewrite H0x, H0y, H0z. cbn [Nat.eqb andb].
    apply kernel_zero_at_zero_norm. apply norm_q_grid_origin.
  - replace ((qx =? 0)%nat && (qy =? 0)%nat && (qz =? 0)%nat) with false.
    + pose proof (norm_frequencies_nonzero N qx qy qz Hx Hy Hz Hn) as Hf.
      split.
      * rewrite mac5_kernel_at by assumption.
        rewrite (mac5_entry_ext C _ (unit_of m))
          by (intros c Hc; apply unit_of_q_grid; assumption).
        unfold unit_of. apply mac5_entry_scale. assumption.
      * rewrite sporc_kernel_at by assumption.
        apply sporc_value_ext. intros a b Ha Hb.
        apply green_ext; [ | assumption | assumption ].
        intros a' b' _ _. apply sporc_acoustic_ext.
        intros c Hc. apply unit_of_q_grid; assumption.
    + symmetry. apply not_true_iff_false. intro Hb.
      apply andb_prop in Hb. destruct Hb as [Hb Hqz].
      apply andb_prop in Hb. destruct Hb as [Hqx Hqy].
      apply Nat.eqb_eq in Hqx, Hqy, Hqz. apply Hn. apply Hiff.
      repeat split; assumption.
Qed.

Lemma kernel_depends_on_integer_direction_witness :
  let C := stiffness_loops 4 2 1 in
  let m := frequencies 4 3 0 2 in
  (3 < 4)%nat /\
  snd (Mac5.precompute_reciprocal_space_and_kernel 4 C) 3%nat 0%nat 2%nat
      0%nat 1%nat 1%nat 0%nat
  = (if (3 =? 0)%nat && (0 =? 0)%nat && (2 =? 0)%nat then 0
     else Mac5.kernel_entry C m 0%nat 1%nat 1%nat 0%nat) /\
  snd (Sporc.precompute_reciprocal_space_and_kernel 4 C) 3%nat 0%nat 2%nat
      0%nat 1%nat 1%nat 0%nat
  = (if (3 =? 0)%nat && (0 =? 0)%nat && (2 =? 0)%nat then 0
     else Sporc.kernel_value C (green (Sporc.acoustic C (unit_of m)))
                             0%nat 1%nat 1%nat 0%nat).
Proof.
  split; [lia | ].
  apply (kernel_depends_on_integer_direction
           4 (stiffness_loops 4 2 1) 3 0 2 0 1 1 0); lia.
Defined.

(** ** The strain field *)

Lemma compute_strain_field_cell (N : nat) (L : Grid Z) (e1 e2 e3 : Mat3)
    (x y z : nat) :
  compute_strain_field N L e1 e2 e3 x y z =
  if (x <? N)%nat && (y <? N)%nat && (z <? N)%nat
  then strain_of e1 e2 e3 (L x y z) else zeros2.
Proof.
  unfold compute_strain_field.
  set (get := fun (F : Grid Mat3) (c : nat * nat * nat) =>
                F (fst (fst c)) (snd (fst c)) (snd c)).
  set (v := fun c : nat * nat * nat =>
              strain_of e1 e2 e3 (L (fst (fst c)) (snd (fst c)) (snd c))).
  set (ok := fun c : nat * nat * nat =>
               valid_spin (L (fst (fst c)) (snd (fst c)) (snd c))).
  change (get (for_ (range N) (fun x strain_field =>
                 for_ (range N) (fun y strain_field =>
                 for_ (range N) (fun z strain_field =>
                   let spin := L x y z in
                   if (spin =? 1)%Z then setG strain_field x y z e1
                   else if (spin =? 2)%Z then setG strain_field x y z e2
                   else if (spin =? 3)%Z then setG strain_field x y z e3
                   else strain_field) strain_field) strain_field)
                 (zerosG zeros2)) (x, y, z)
          = if (x <? N)%nat && (y <? N)%nat && (z <? N)%nat
            then v (x, y, z) else zeros2).
  rewrite (for_writes get v (range N) _ (fun c => fst (fst c))
             (fun c => (snd (fst c) <? N)%nat && (snd c <? N)%nat && ok c)).
  - rewrite existsb_range. subst get v ok. cbn [fst snd]. unfold zerosG.
    unfold strain_of, valid_spin.
    destruct (x <? N)%nat, (y <? N)%nat, (z <? N)%nat,
      (L x y z =? 1)%Z, (L x y z =? 2)%Z, (L x y z =? 3)%Z; reflexivity.
  - intros a s c1.
    rewrite (for_writes get v (range N) _ (fun c => snd (fst c))
               (fun c => (fst (fst c) =? a)%nat && (snd c <? N)%nat && ok c)).
    + rewrite existsb_range.
      destruct (fst (fst c1) =? a)%nat, (snd (fst c1) <? N)%nat,
        (snd c1 <? N)%nat, (ok c1); reflexivity.
    + intros b s2 c2.
      rewrite (for_writes get v (range N) _ (fun c => snd c)
                 (fun c => (fst (fst c) =? a)%nat && (snd (fst c) =? b)%nat
                           && ok c)).
      * rewrite existsb_range.
        destruct (fst (fst c2) =? a)%nat, (snd (fst c2) =? b)%nat,
          (snd c2 <? N)%nat, (ok c2); reflexivity.
      * intros c s3 [[x3 y3] z3]. subst get v ok. cbn [fst snd]. cbv zeta.
        unfold strain_of, valid_spin, setG.
        destruct (Nat.eqb_spec z3 c) as [Hz | Hz];
          destruct (Nat.eqb_spec x3 a) as [Hx | Hx];
          destruct (Nat.eqb_spec y3 b) as [Hy | Hy];
          cbn [andb]; subst;
          destruct (L a b c =? 1)%Z, (L a b c =? 2)%Z, (L a b c =? 3)%Z;
          cbn [andb orb];
          rewrite ?Nat.eqb_refl; cbn [andb];
          repeat match goal with
                 | H : ?u <> ?w |- context [(?u =? ?w)%nat] =>
                     replace (u =? w)%nat with false
                       by (symmetry; apply Nat.eqb_neq; exact H)
                 end;
          rewrite ?andb_false_r; cbn [andb]; reflexivity.
Qed.

Lemma compute_strain_field_ext (N : nat) (L L' : Grid Z) (e1 e2 e3 : Mat3)
    (x y z : nat) :
  (forall a b c, (a < N)%nat -> (b < N)%nat -> (c < N)%nat ->
     L a b c = L' a b c) ->
  compute_strain_field N L e1 e2 e3 x y z =
  compute_strain_field N L' e1 e2 e3 x y z.
Proof.
  intro H. rewrite !compute_strain_field_cell.
  destruct (Nat.ltb_spec x N); [ | reflexivity ].
  destruct (Nat.ltb_spec y N); [ | reflexivity ].
  destruct (Nat.ltb_spec z N); [ | reflexivity ].
  cbn [andb]. rewrite H by assumption. reflexivity.
Qed.

(** X5: [compute_strain_field] gives every site of the lattice the
    reference strain of its spin: [epsilon_1], [epsilon_2] or [epsilon_3]
    for the spins 1, 2 and 3, and the zero tensor, without any error, for
    a site that holds any other value. *)
Theorem strain_field_follows_spins (N : nat) (L : Grid Z) (e1 e2 e3 : Mat3)
    (x y z : nat) :
  (x < N)%nat -> (y < N)%nat -> (z < N)%nat ->
  let strain_field := compute_strain_field N L e1 e2 e3 in
  (L x y z = 1%Z -> strain_field x y z = e1) /\
  (L x y z = 2%Z -> strain_field x y z = e2) /\
  (L x y z = 3%Z -> strain_field x y z = e3) /\
  (~ (1 <= L x y z <= 3)%Z -> strain_field x y z = zeros2).
Proof.
  intros Hx Hy Hz strain_field. subst strain_field.
  rewrite compute_strain_field_cell.
  replace (x <? N)%nat with true by (symmetry; apply Nat.ltb_lt; assumption).
  replace (y <? N)%nat with true by (symmetry; apply Nat.ltb_lt; assumption).
  replace (z <? N)%nat with true by (symmetry; apply Nat.ltb_lt; assumption).
  cbn [andb]. unfold strain_of.
  destruct (Z.eqb_spec (L x y z) 1) as [H1 | H1];
    destruct (Z.eqb_spec (L x y z) 2) as [H2 | H2];
    destruct (Z.eqb_spec (L x y z) 3) as [H3 | H3];
    repeat split; intros; try reflexivity; exfalso; lia.
Qed.

Lemma strain_field_follows_spins_witness :
  let L : Grid Z := fun x y z => Z.of_nat (x + y + z) in
  let strain_field := compute_strain_field 4 L example_e1 example_e2 example_e3 in
  (L 1%nat 0%nat 1%nat = 1%Z -> strain_field 1%nat 0%nat 1%nat = example_e1) /\
  (L 1%nat 0%nat 1%nat = 2%Z -> strain_field 1%nat 0%nat 1%nat = example_e2) /\
  (L 1%nat 0%nat 1%nat = 3%Z -> strain_field 1%nat 0%nat 1%nat = example_e3) /\
  (~ (1 <= L 1%nat 0%nat 1%nat <= 3)%Z -> strain_field 1%nat 0%nat 1%nat = zeros2).
Proof.
  apply (strain_field_follows_spins
           4 (fun x y z => Z.of_nat (x + y + z))
           example_e1 example_e2 example_e3 1 0 1); lia.
Defined.

Lemma strain_of_for (e1 e2 e3 : Mat3) (s : Z) :
  (1 <= s <= 3)%Z -> strain_of e1 e2 e3 s = strain_for e1 e2 e3 s.
Proof.
  intro Hs. unfold strain_of, strain_for.
  destruct (Z.eqb_spec s 1), (Z.eqb_spec s 2), (Z.eqb_spec s 3);
    try reflexivity; exfalso; lia.
Qed.

(** Writing the strain of a spin at one site of the strain field of a
    lattice gives the strain field of the lattice with that spin at the
    site. *)
Lemma strain_field_update (N : nat) (L : Grid Z) (e1 e2 e3 : Mat3)
    (x y z : nat) (s : Z) (x' y' z' : nat) :
  (x < N)%nat -> (y < N)%nat -> (z < N)%nat ->
  setG (compute_strain_field N L e1 e2 e3) x y z (strain_of e1 e2 e3 s)
       x' y' z'
  = compute_strain_field N (setG L x y z s) e1 e2 e3 x' y' z'.
Proof.
  intros Hx Hy Hz. rewrite compute_strain_field_cell. unfold setG.
  destruct (Nat.eqb_spec x' x) as [-> | Hnx];
    destruct (Nat.eqb_spec y' y) as [-> | Hny];
    destruct (Nat.eqb_spec z' z) as [-> | Hnz]; cbn [andb];
    try apply compute_strain_field_cell.
  replace (x <? N)%nat with true by (symmetry; apply Nat.ltb_lt; assumption).
  replace (y <? N)%nat with true by (symmetry; apply Nat.ltb_lt; assumption).
  replace (z <? N)%nat with true by (symmetry; apply Nat.ltb_lt; assumption).
  reflexivity.
Qed.

(** ** Sums and spectra of fields that agree on the lattice *)

Lemma cx_sum_ext (l : list nat) (f g : nat -> Cx.t) :
  (forall i, In i l -> f i = g i) -> Cx.sum l f = Cx.sum l g.
Proof.
  unfold Cx.sum. generalize Cx.zero.
  induction l as [| i l IH]; intros a H; simpl.
  - reflexivity.
  - rewrite (H i) by (left; reflexivity).
    apply IH. intros j Hj. apply H. right. assumption.
Qed.

Lemma in_range (i N : nat) : In i (range N) <-> (i < N)%nat.
Proof. unfold range. rewrite in_seq. lia. Qed.

Lemma fftn_ext (N : nat) (F F' : Grid Mat3) (qx qy qz i j : nat) :
  (forall x y z, (x < N)%nat -> (y < N)%nat -> (z < N)%nat ->
     F x y z i j = F' x y z i j) ->
  fftn N F qx qy qz i j = fftn N F' qx qy qz i j.
Proof.
  intro H. unfold fftn.
  apply cx_sum_ext. intros x Hx. apply cx_sum_ext. intros y Hy.
  apply cx_sum_ext. intros z Hz.
  apply in_range in Hx, Hy, Hz. rewrite H by assumption. reflexivity.
Qed.

Lemma contraction_ext (e e' : CMat3) (Bq : Tensor4) :
  (forall i j, (i < 3)%nat -> (j < 3)%nat -> e i j = e' i j) ->
  contraction e Bq = contraction e' Bq.
Proof.
  intro H. unfold contraction, Cx.esum. rewrite !H by lia. reflexivity.
Qed.

Lemma energy_term_ext (q_grid : Grid Vec3) (B : Grid Tensor4)
    (A A' : Grid CMat3) (qx qy qz : nat) :
  (forall i j, (i < 3)%nat -> (j < 3)%nat ->
     A qx qy qz i j = A' qx qy qz i j) ->
  energy_term q_grid B A qx qy qz = energy_term q_grid B A' qx qy qz.
Proof.
  intro H. unfold energy_term.
  destruct (allclose0 (q_grid qx qy qz)); [reflexivity | ].
  apply contraction_ext. assumption.
Qed.

Lemma in_range3 (r N W q : nat) : In q (range3 r N W) -> (r <= q)%nat.
Proof.
  unfold range3. rewrite in_map_iff. intros (i & <- & _). lia.
Qed.

Lemma energy_loops_ext (N : nat) (q_grid : Grid Vec3) (B : Grid Tensor4)
    (A A' : Grid CMat3) (rank size : nat) :
  (forall qx qy qz i j, (qy < N)%nat -> (qz < N)%nat ->
     (i < 3)%nat -> (j < 3)%nat -> A qx qy qz i j = A' qx qy qz i j) ->
  energy_loops N q_grid B A rank size = energy_loops N q_grid B A' rank size.
Proof.
  intro H. rewrite !energy_loops_sum.
  apply rsum_ext. intros qx _. apply rsum_ext. intros qy Hy.
  apply rsum_ext. intros qz Hz. apply in_range in Hy, Hz.
  apply energy_term_ext. intros i j Hi Hj. apply H; assumption.
Qed.

Lemma mean_sum (N : nat) (F : Grid Mat3) (i j : nat) :
  mean N F i j =
  rsum (range N) (fun x => rsum (range N) (fun y => rsum (range N) (fun z =>
    F x y z i j))) / INR (N * N * N).
Proof.
  unfold mean. f_equal.
  rewrite (for_ext _ _
             (fun x acc => acc + rsum (range N) (fun y =>
                                 rsum (range N) (fun z => F x y z i j)))).
  - rewrite for_accumulate. ring.
  - intros x acc.
    rewrite (for_ext _ _
               (fun y acc' => acc' + rsum (range N) (fun z => F x y z i j))).
    + apply for_accumulate.
    + intros y acc'. apply for_accumulate.
Qed.

Lemma mean_ext (N : nat) (F F' : Grid Mat3) (i j : nat) :
  (forall x y z, (x < N)%nat -> (y < N)%nat -> (z < N)%nat ->
     F x y z i j = F' x y z i j) ->
  mean N F i j = mean N F' i j.
Proof.
  intro H. rewrite !mean_sum. f_equal.
  apply rsum_ext. intros x Hx. apply rsum_ext. intros y Hy.
  apply rsum_ext. intros z Hz. apply in_range in Hx, Hy, Hz.
  apply H; assumption.
Qed.

(** ** Reduced energies *)

Lemma mac6_reduced_energy (N W : nat) (q_grid : Grid Vec3) (B : Grid Tensor4)
    (A : Grid CMat3) :
  (1 <= W)%nat ->
  reduce_sum_bcast
    (map (fun rank => Mac6.compute_elastic_energy N q_grid B A rank W)
         (range W))
  = Mac6.compute_elastic_energy N q_grid B A 0 1.
Proof.
  intro HW. unfold Mac6.compute_elastic_energy.
  rewrite reduce_sum_bcast_map, rsum_scale.
  rewrite energy_loops_partition by assumption.
  rewrite energy_loops_single_worker. reflexivity.
Qed.

Lemma mac5_reduced_energy (N W : nat) (q_grid : Grid Vec3) (B : Grid Tensor4)
    (A : Grid CMat3) :
  (1 <= W)%nat ->
  reduce_sum_bcast
    (map (fun rank => Mac5.compute_elastic_energy N q_grid B A rank W)
         (range W))
  = Mac5.compute_elastic_energy N q_grid B A 0 1.
Proof.
  intro HW. unfold Mac5.compute_elastic_energy.
  rewrite reduce_sum_bcast_map, rsum_scale.
  rewrite energy_loops_partition by assumption.
  rewrite energy_loops_single_worker. reflexivity.
Qed.

Lemma sporc_reduced_energy_single (f : nat -> R) :
  reduce_sum_bcast [f 0%nat] = f 0%nat.
Proof. unfold reduce_sum_bcast. simpl. ring. Qed.

Lemma setG_overwrite {A : Type} (F : Grid A) (x y z : nat) (a b : A)
    (x' y' z' : nat) :
  setG (setG F x y z a) x y z b x' y' z' = setG F x y z b x' y' z'.
Proof.
  unfold setG.
  destruct ((x' =? x)%nat && (y' =? y)%nat && (z' =? z)%nat); reflexivity.
Qed.

(** ** mac5.py: rank 0 and the other ranks *)

(** X12: in [mac5.py] the result of a step on rank 0 (its arrays, its
    energy and the decision) is the one a single worker computes: it
    does not depend on how many other ranks share the energy sum, nor on
    what they hold.  Every other rank returns the decision of rank 0 and
    is otherwise unchanged. *)
Theorem mac5_root_ignores_other_ranks
    (N : nat) (temperature : R) (q_grid : Grid Vec3) (B : Grid Tensor4)
    (e1 e2 e3 : Mat3) (root : Mac5.Worker) (others : list Mac5.Worker)
    (d : Draws) :
  exists root' accepted,
    Mac5.monte_carlo_step N temperature q_grid B e1 e2 e3 [root] d
    = [(root', accepted)] /\
    Mac5.monte_carlo_step N temperature q_grid B e1 e2 e3 (root :: others) d
    = (root', accepted) :: map (fun w => (w, accepted)) others.
Proof.
  unfold Mac5.monte_carlo_step.
  destruct (Mac5.propose_root N e1 e2 e3 root d)
    as [[[h p] strain_field_new] strain_ft_new].
  rewrite !mac5_reduced_energy by (cbn [length]; lia).
  destruct (Mac5.decide_root temperature root h p strain_field_new _ d)
    as [root' accepted].
  exists root', accepted. split; reflexivity.
Qed.

(** X16: in [mac6.py] the result of a step on rank 0 is the one a single
    worker computes; every other rank returns the decision and the
    macroscopic strain of rank 0, and keeps its own lattice and its own
    [current_energy]. *)
Theorem mac6_root_ignores_other_ranks
    (N : nat) (temperature : R) (q_grid : Grid Vec3) (B : Grid Tensor4)
    (e1 e2 e3 : Mat3) (root : Mac6.Worker) (others : list Mac6.Worker)
    (d : Draws) :
  exists root' accepted,
    Mac6.monte_carlo_step N temperature q_grid B e1 e2 e3 [root] d
    = [(root', accepted)] /\
    Mac6.monte_carlo_step N temperature q_grid B e1 e2 e3 (root :: others) d
    = (root', accepted)
      :: map (fun w =>
                ({| Mac6.heap := Mac6.heap w;
                    Mac6.lattice_spins := Mac6.lattice_spins w;
                    Mac6.macro_strain := Mac6.macro_strain root';
                    Mac6.current_energy := Mac6.current_energy w |}, accepted))
             others.
Proof.
  unfold Mac6.monte_carlo_step.
  destruct (Mac6.propose_root N e1 e2 e3 root d)
    as [[[h p] macro_strain_new] strain_ft_new].
  rewrite !mac6_reduced_energy by (cbn [length]; lia).
  destruct (Mac6.decide_root temperature root h p macro_strain_new _ d)
    as [root' accepted].
  exists root', accepted. split; reflexivity.
Qed.

(** ** mac6.py: what one step does to rank 0 *)

Lemma mac6_step_root (N : nat) (temperature : R) (q_grid : Grid Vec3)
    (B : Grid Tensor4) (e1 e2 e3 : Mat3) (root : Mac6.Worker)
    (others : list Mac6.Worker) (d : Draws) :
  let L := Heap.ints (Mac6.heap root) (Mac6.lattice_spins root) in
  let p := draw_proposal L d in
  let trial := setG L (px p) (py p) (pz p) (proposed_spin p) in
  let trial_field := compute_strain_field N trial e1 e2 e3 in
  let E_new := Mac6.compute_elastic_energy N q_grid B (fftn N trial_field) 0 1 in
  exists root' accepted rest,
    Mac6.monte_carlo_step N temperature q_grid B e1 e2 e3 (root :: others) d
    = (root', accepted) :: rest /\
    accepted = accepts (uniform d)
                 (acceptance_probability (E_new - Mac6.current_energy root)
                                         temperature) /\
    Mac6.lattice_spins root' = Mac6.lattice_spins root /\
    (accepted = false ->
     (forall x y z,
        Heap.ints (Mac6.heap root') (Mac6.lattice_spins root') x y z = L x y z) /\
     Mac6.macro_strain root' = Mac6.macro_strain root /\
     Mac6.current_energy root' = Mac6.current_energy root) /\
    (accepted = true ->
     (forall x y z,
        Heap.ints (Mac6.heap root') (Mac6.lattice_spins root') x y z
        = trial x y z) /\
     Mac6.macro_strain root' = mean N trial_field /\
     Mac6.current_energy root' = E_new).
Proof.
  intros L p trial trial_field E_new.
  unfold Mac6.monte_carlo_step, Mac6.propose_root.
  rewrite mac6_reduced_energy by (cbn [length]; lia).
  cbn [Heap.store_int Heap.ints]. rewrite !upd_same.
  fold L. fold p. fold trial. fold trial_field. fold E_new.
  unfold Mac6.decide_root.
  destruct (accepts (uniform d) _) eqn:Hacc.
  - eexists; eexists; eexists. split; [reflexivity | ].
    split; [reflexivity | ]. split; [reflexivity | ].
    split; [intro H; discriminate H | ]. intros _.
    cbn [Mac6.heap Mac6.lattice_spins Mac6.macro_strain Mac6.current_energy
         Heap.store_int Heap.ints].
    rewrite !upd_same.
    split; [ | split; reflexivity ].
    intros x y z. unfold trial. rewrite !setG_overwrite. reflexivity.
  - eexists; eexists; eexists. split; [reflexivity | ].
    split; [reflexivity | ]. split; [reflexivity | ].
    split; [ | intro H; discriminate H ]. intros _.
    cbn [Mac6.heap Mac6.lattice_spins Mac6.macro_strain Mac6.current_energy
         Heap.store_int Heap.ints].
    rewrite !upd_same.
    split; [ | split; reflexivity ].
    intros x y z. unfold trial.
    change (current_spin p) with (L (px p) (py p) (pz p)).
    apply setG_setG_back.
Qed.

Lemma mac6_energy_ext (N : nat) (q_grid : Grid Vec3) (B : Grid Tensor4)
    (L L' : Grid Z) (e1 e2 e3 : Mat3) (rank size : nat) :
  (forall x y z, (x < N)%nat -> (y < N)%nat -> (z < N)%nat ->
     L x y z = L' x y z) ->
  Mac6.compute_elastic_energy N q_grid B
    (fftn N (compute_strain_field N L e1 e2 e3)) rank size
  = Mac6.compute_elastic_energy N q_grid B
      (fftn N (compute_strain_field N L' e1 e2 e3)) rank size.
Proof.
  intro H. unfold Mac6.compute_elastic_energy. cbv zeta.
  apply (f_equal (fun e => e / (2 * INR N ^ 3))).
  apply energy_loops_ext. intros qx qy qz i j _ _ _ _.
  apply fftn_ext. intros x y z Hx Hy Hz.
  rewrite (compute_strain_field_ext N L L') by assumption. reflexivity.
Qed.

Lemma mac6_consistent_ext (N : nat) (q_grid : Grid Vec3) (B : Grid Tensor4)
    (e1 e2 e3 : Mat3) (L : Grid Z) (w : Mac6.Worker) :
  (forall x y z,
     Heap.ints (Mac6.heap w) (Mac6.lattice_spins w) x y z = L x y z) ->
  (forall i j, Mac6.macro_strain w i j
               = mean N (compute_strain_field N L e1 e2 e3) i j) ->
  Mac6.current_energy w
  = Mac6.compute_elastic_energy N q_grid B
      (fftn N (compute_strain_field N L e1 e2 e3)) 0 1 ->
  mac6_consistent N q_grid B e1 e2 e3 w.
Proof.
  intros HL Hm He. unfold mac6_consistent. cbv zeta. split.
  - intros i j. rewrite Hm. apply mean_ext. intros x y z _ _ _.
    rewrite (compute_strain_field_ext N L
               (Heap.ints (Mac6.heap w) (Mac6.lattice_spins w)))
      by (intros; symmetry; apply HL).
    reflexivity.
  - rewrite He. apply mac6_energy_ext. intros; symmetry; apply HL.
Qed.

Lemma mac6_step_consistent (N : nat) (temperature : R) (q_grid : Grid Vec3)
    (B : Grid Tensor4) (e1 e2 e3 : Mat3) (root : Mac6.Worker)
    (others : list Mac6.Worker) (d : Draws) :
  mac6_consistent N q_grid B e1 e2 e3 root ->
  exists root' accepted rest,
    Mac6.monte_carlo_step N temperature q_grid B e1 e2 e3 (root :: others) d
    = (root', accepted) :: rest /\
    mac6_consistent N q_grid B e1 e2 e3 root'.
Proof.
  intros [Hm He].
  destruct (mac6_step_root N temperature q_grid B e1 e2 e3 root others d)
    as (root' & accepted & rest & Hstep & _ & _ & Hrej & Hacc).
  exists root', accepted, rest. split; [exact Hstep | ].
  set (L := Heap.ints (Mac6.heap root) (Mac6.lattice_spins root)) in *.
  set (p := draw_proposal L d) in *.
  destruct accepted.
  - destruct (Hacc eq_refl) as (HL & Hm' & He').
    apply (mac6_consistent_ext
             N q_grid B e1 e2 e3
             (setG L (px p) (py p) (pz p) (proposed_spin p))).
    + exact HL.
    + intros i j. rewrite Hm'. reflexivity.
    + exact He'.
  - destruct (Hrej eq_refl) as (HL & Hm' & He').
    apply (mac6_consistent_ext N q_grid B e1 e2 e3 L).
    + exact HL.
    + intros i j. rewrite Hm'. apply Hm.
    + rewrite He'. exact He.
Qed.

(** ** Loops with an invariant *)

Lemma for_invariant {S : Type} (P : nat -> S -> Prop) (n : nat)
    (body : nat -> S -> S) (s : S) :
  P 0%nat s ->
  (forall i s', (i < n)%nat -> P i s' -> P (Datatypes.S i) (body i s')) ->
  P n (for_ (range n) body s).
Proof.
  intros H0 Hstep. unfold for_, range.
  induction n as [| n IH].
  - exact H0.
  - rewrite seq_S, fold_left_app. cbn [fold_left Nat.add].
    apply Hstep; [lia | ]. apply IH.
    intros i s' Hi. apply Hstep. lia.
Qed.

Lemma mac6_same_refl (w : Mac6.Worker) : mac6_same w w.
Proof. repeat split. Qed.

(** ** mac6.py: one sweep *)

Lemma mac6_sweep_root (N : nat) (temperature : R) (q_grid : Grid Vec3)
    (B : Grid Tensor4) (e1 e2 e3 : Mat3) (root : Mac6.Worker)
    (others : list Mac6.Worker) (draws : nat -> Draws) :
  exists root' accepted_moves rest,
    Mac6.sweep N temperature q_grid B e1 e2 e3 (root :: others) draws
    = (root', accepted_moves) :: rest /\
    (accepted_moves <= N * N * N / length (root :: others))%nat /\
    (accepted_moves = 0%nat -> mac6_same root root') /\
    (mac6_consistent N q_grid B e1 e2 e3 root ->
     mac6_consistent N q_grid B e1 e2 e3 root').
Proof.
  unfold Mac6.sweep. cbv zeta.
  set (n := (N * N * N / length (root :: others))%nat).
  apply (for_invariant
           (fun k (ranks : list (Mac6.Worker * nat)) =>
              exists root' accepted_moves rest,
                ranks = (root', accepted_moves) :: rest /\
                (accepted_moves <= k)%nat /\
                (accepted_moves = 0%nat -> mac6_same root root') /\
                (mac6_consistent N q_grid B e1 e2 e3 root ->
                 mac6_consistent N q_grid B e1 e2 e3 root'))).
  - cbn [map]. exists root, 0%nat, (map (fun w => (w, 0%nat)) others).
    split; [reflexivity | ]. split; [lia | ].
    split; [intros _; apply mac6_same_refl | intro H; exact H].
  - intros k ranks Hk (r & a & rest & -> & Ha & Hsame & Hcons).
    cbn [map fst].
    destruct (mac6_step_root N temperature q_grid B e1 e2 e3 r
                (map fst rest) (draws k))
      as (r' & accepted & rest' & Hstep & _ & _ & Hrej & _).
    rewrite Hstep. cbn [combine map].
    eexists; eexists; eexists. split; [reflexivity | ].
    split; [destruct accepted; lia | ].
    split.
    + intro Hzero. destruct accepted; [discriminate Hzero | ].
      destruct (Hrej eq_refl) as (HL & Hm & He).
      destruct (Hsame Hzero) as (HL0 & Hm0 & He0).
      split; [ | split ].
      * intros x y z. rewrite HL. apply HL0.
      * rewrite Hm. exact Hm0.
      * rewrite He. exact He0.
    + intro Hc. specialize (Hcons Hc).
      destruct (mac6_step_consistent N temperature q_grid B e1 e2 e3 r
                  (map fst rest) (draws k) Hcons)
        as (r2 & acc2 & rest2 & Hstep2 & Hc2).
      rewrite Hstep in Hstep2. injection Hstep2 as <- _ _. exact Hc2.
Qed.

Lemma trailing_idle_lines_app (l : list Mac6.Line) (line : Mac6.Line) :
  trailing_idle_lines (l ++ [line]) =
  if (Mac6.accepted_moves line =? 0)%nat then S (trailing_idle_lines l) else 0%nat.
Proof.
  unfold trailing_idle_lines. rewrite rev_unit. reflexivity.
Qed.

Lemma leading_idle_lines_le (l : list Mac6.Line) :
  (leading_idle_lines l <= length l)%nat.
Proof.
  induction l as [| line l IH]; cbn [leading_idle_lines length].
  - lia.
  - destruct (Mac6.accepted_moves line =? 0)%nat; lia.
Qed.

Lemma trailing_idle_lines_le (l : list Mac6.Line) :
  (trailing_idle_lines l <= length l)%nat.
Proof.
  unfold trailing_idle_lines. rewrite <- length_rev.
  apply leading_idle_lines_le.
Qed.

Lemma for_map {S : Type} (f : nat -> nat) (l : list nat)
    (body : nat -> S -> S) (s : S) :
  for_ (map f l) body s = for_ l (fun i => body (f i)) s.
Proof.
  unfold for_. revert s. induction l as [| i l IH]; intro s; simpl.
  - reflexivity.
  - apply IH.
Qed.

Lemma range3_steps (num_steps : nat) :
  range3 1 (num_steps + 1) 1 = map S (range num_steps).
Proof.
  unfold range3, range.
  replace ((num_steps + 1 - 1 + (1 - 1)) / 1)%nat with num_steps
    by (rewrite Nat.div_1_r; lia).
  apply map_ext. intro i. lia.
Qed.

Lemma mac6_sweep_length (N : nat) (temperature : R) (q_grid : Grid Vec3)
    (B : Grid Tensor4) (e1 e2 e3 : Mat3) (workers : list Mac6.Worker)
    (draws : nat -> Draws) :
  length (Mac6.sweep N temperature q_grid B e1 e2 e3 workers draws)
  = length workers.
Proof.
  unfold Mac6.sweep. cbv zeta.
  apply (for_invariant
           (fun _ (ranks : list (Mac6.Worker * nat)) =>
              length ranks = length workers)).
  - apply length_map.
  - intros k ranks _ Hlen.
    rewrite length_map, length_combine.
    assert (Hstep : length (Mac6.monte_carlo_step N temperature q_grid B
                              e1 e2 e3 (map fst ranks) (draws k))
                    = length ranks).
    { unfold Mac6.monte_carlo_step.
      destruct ranks as [| [r a] rest]; [reflexivity | ].
      cbn [map fst].
      destruct (Mac6.propose_root N e1 e2 e3 r (draws k))
        as [[[h p] ms] sft].
      destruct (Mac6.decide_root temperature r h p ms _ (draws k))
        as [r' acc].
      cbn [length]. rewrite !length_map. reflexivity. }
    rewrite Hstep. lia.
Qed.

Lemma mac6_main_loop_state (N : nat) (temperature : R) (q_grid : Grid Vec3)
    (B : Grid Tensor4) (e1 e2 e3 : Mat3) (num_steps : nat)
    (root : Mac6.Worker) (others : list Mac6.Worker)
    (draws : nat -> nat -> Draws) :
  mac6_loop_state N (length (root :: others)) num_steps
    (Mac6.main_loop N temperature q_grid B e1 e2 e3 num_steps
                    (root :: others) draws).
Proof.
  unfold Mac6.main_loop. rewrite range3_steps, for_map.
  apply (for_invariant (mac6_loop_state N (length (root :: others)))).
  - unfold mac6_loop_state. cbn [Mac6.terminate_flag Mac6.zero_move_steps].
    split; [reflexivity | ]. split; [cbn [length]; lia | ].
    split; [reflexivity | ]. split; [reflexivity | ].
    split; [reflexivity | ].
    intros j line H. destruct j; discriminate H.
  - intros k [[workers m] printed] Hk (Hlen & Hle & Hrun & Hzero & Hflag & Hlines).
    destruct (Mac6.terminate_flag m) eqn:Hm.
    + unfold mac6_loop_state.
      split; [exact Hlen | ]. split; [lia | ].
      split; [intro H; rewrite Hm in H; discriminate H | ].
      split; [exact Hzero | ]. split; [rewrite Hm; exact Hflag | ].
      exact Hlines.
    + specialize (Hrun eq_refl).
      destruct workers as [| r rest]; [discriminate Hlen | ].
      destruct (mac6_sweep_root N temperature q_grid B e1 e2 e3 r rest
                  (draws (S k)))
        as (r' & a & rest' & Hsweep & Ha & _ & _).
      pose proof (mac6_sweep_length N temperature q_grid B e1 e2 e3
                    (r :: rest) (draws (S k))) as Hslen.
      rewrite Hsweep in *. rewrite Hlen in Ha.
      unfold mac6_loop_state.
      cbn [Mac6.terminate_flag Mac6.zero_move_steps].
      rewrite trailing_idle_lines_app.
      cbn [Mac6.accepted_moves].
      split; [cbn [length] in *; rewrite length_map; lia | ].
      rewrite length_app. cbn [length].
      split; [lia | ]. split; [intros _; lia | ].
      assert (Hleb : (a <=? 0)%nat = (a =? 0)%nat).
      { destruct a; reflexivity. }
      rewrite Hleb, <- Hzero.
      split; [destruct (a =? 0)%nat; lia | ].
      split.
      { destruct (a =? 0)%nat.
        - replace (S (Mac6.zero_move_steps m))
            with (Mac6.zero_move_steps m + 1)%nat by lia.
          destruct (Mac6.max_stable_steps <=? Mac6.zero_move_steps m + 1)%nat;
            reflexivity.
        - reflexivity. }
      intros j line Hj.
      destruct (Nat.lt_ge_cases j (length printed)) as [Hlt | Hge].
      * rewrite nth_error_app1 in Hj by assumption.
        destruct (Hlines j line Hj) as (Hs & Hb & Hpre).
        split; [exact Hs | ]. split; [exact Hb | ]. intros _.
        rewrite firstn_app.
        replace (S j - length printed)%nat with 0%nat by lia.
        rewrite firstn_O, app_nil_r.
        destruct (Nat.eq_dec (S j) (length printed)) as [He | Hne].
        -- rewrite He, firstn_all.
           apply Nat.leb_gt. symmetry. exact Hflag.
        -- apply Hpre. lia.
      * rewrite nth_error_app2 in Hj by assumption.
        destruct (j - length printed)%nat as [| j'] eqn:Hd;
          [ | destruct j'; discriminate Hj ].
        injection Hj as <-. cbn [Mac6.step Mac6.accepted_moves].
        split; [lia | ]. split; [exact Ha | ]. intro H. exfalso. lia.
Qed.

(** ** mac5.py: the strain field rank 0 keeps *)

(** X13: in [mac5.py], after a step on a lattice site whose spin is 1, 2
    or 3, the strain field of rank 0 holds the reference strain of the
    proposed spin at the site and is unchanged elsewhere, whether the
    proposal was accepted or not; the lattice holds the proposed spin only
    if it was accepted. *)
Theorem mac5_strain_field_after_step_ignores_decision
    (N : nat) (temperature : R) (q_grid : Grid Vec3) (B : Grid Tensor4)
    (e1 e2 e3 : Mat3) (root : Mac5.Worker) (others : list Mac5.Worker)
    (d : Draws) :
  let L := Heap.ints (Mac5.heap root) (Mac5.lattice_spins root) in
  let F := Heap.floats (Mac5.heap root) (Mac5.strain_field root) in
  let p := draw_proposal L d in
  (1 <= current_spin p <= 3)%Z ->
  (pick d < 2)%nat ->
  exists root' accepted rest,
    Mac5.monte_carlo_step N temperature q_grid B e1 e2 e3 (root :: others) d
    = (root', accepted) :: rest /\
    (forall x y z,
       Heap.floats (Mac5.heap root') (Mac5.strain_field root') x y z
       = setG F (px p) (py p) (pz p) (strain_for e1 e2 e3 (proposed_spin p))
              x y z) /\
    (forall x y z,
       Heap.ints (Mac5.heap root') (Mac5.lattice_spins root') x y z
       = if accepted
         then setG L (px p) (py p) (pz p) (proposed_spin p) x y z
         else L x y z).
Proof.
  intros L F p Hc Hpick.
  destruct (other_spins_in_range (current_spin p) (pick d) Hc Hpick)
    as [Hrange _].
  change (choice (other_spins (current_spin p)) (pick d))
    with (proposed_spin p) in Hrange.
  destruct (mac5_propose_root N e1 e2 e3 root d Hrange)
    as (h & strain_ft_new & Hprop & Hints & Hfloats).
  change (draw_proposal (Heap.ints (Mac5.heap root) (Mac5.lattice_spins root)) d)
    with p in Hprop, Hfloats.
  fold F in Hfloats.
  unfold Mac5.monte_carlo_step. rewrite Hprop.
  unfold Mac5.decide_root.
  destruct (accepts (uniform d) _).
  - do 3 eexists. split; [reflexivity | ].
    cbn [Mac5.heap Mac5.lattice_spins Mac5.strain_field Heap.floats Heap.ints
         Heap.store_int Heap.store_float].
    rewrite !upd_same, Hfloats, Hints. fold L.
    split; [ | intros; reflexivity ].
    intros x y z. rewrite setG_same. apply setG_overwrite.
  - do 3 eexists. split; [reflexivity | ].
    cbn [Mac5.heap Mac5.lattice_spins Mac5.strain_field].
    rewrite Hfloats, Hints. fold L.
    split; intros; reflexivity.
Qed.

Lemma mac5_strain_field_after_step_ignores_decision_witness :
  let L := Heap.ints (Mac5.heap example_root) (Mac5.lattice_spins example_root) in
  let F := Heap.floats (Mac5.heap example_root)
                       (Mac5.strain_field example_root) in
  let p := draw_proposal L example_draws in
  exists root' accepted rest,
    Mac5.monte_carlo_step 2 2 (q_grid_of 2) example_kernel
      example_e1 example_e2 example_e3 [example_root; example_root]
      example_draws
    = (root', accepted) :: rest /\
    (forall x y z,
       Heap.floats (Mac5.heap root') (Mac5.strain_field root') x y z
       = setG F (px p) (py p) (pz p)
              (strain_for example_e1 example_e2 example_e3 (proposed_spin p))
              x y z) /\
    (forall x y z,
       Heap.ints (Mac5.heap root') (Mac5.lattice_spins root') x y z
       = if accepted
         then setG L (px p) (py p) (pz p) (proposed_spin p) x y z
         else L x y z).
Proof.
  apply (mac5_strain_field_after_step_ignores_decision
           2 2 (q_grid_of 2) example_kernel example_e1 example_e2 example_e3
           example_root [example_root] example_draws).
  - cbn. lia.
  - cbn. lia.
Defined.

(** ** mac5.py and mac6.py evaluate the same tentative spectrum *)

(** X14: as long as the strain field of rank 0 is the one
    [compute_strain_field] gives for its lattice, the tentative spectrum
    [mac5.py] obtains by overwriting one site of the strain field is the
    spectrum [mac6.py] obtains by recomputing the strain field of the
    lattice with the proposed spin. *)
Theorem mac5_tentative_spectrum_is_the_recomputed_one
    (N : nat) (e1 e2 e3 : Mat3) (w5 : Mac5.Worker) (w6 : Mac6.Worker)
    (d : Draws) (qx qy qz i j : nat) :
  let L := Heap.ints (Mac5.heap w5) (Mac5.lattice_spins w5) in
  let F := Heap.floats (Mac5.heap w5) (Mac5.strain_field w5) in
  (forall x y z, Heap.ints (Mac6.heap w6) (Mac6.lattice_spins w6) x y z
                 = L x y z) ->
  (forall x y z, (x < N)%nat -> (y < N)%nat -> (z < N)%nat ->
     F x y z = compute_strain_field N L e1 e2 e3 x y z) ->
  (site_x d < N)%nat -> (site_y d < N)%nat -> (site_z d < N)%nat ->
  (1 <= L (site_x d) (site_y d) (site_z d) <= 3)%Z ->
  (pick d < 2)%nat ->
  snd (Mac5.propose_root N e1 e2 e3 w5 d) qx qy qz i j
  = snd (Mac6.propose_root N e1 e2 e3 w6 d) qx qy qz i j.
Proof.
  intros L F HL HF Hx Hy Hz Hc Hpick.
  set (p := draw_proposal L d).
  destruct (other_spins_in_range (current_spin p) (pick d) Hc Hpick)
    as [Hrange _].
  change (choice (other_spins (current_spin p)) (pick d))
    with (proposed_spin p) in Hrange.
  destruct (mac5_propose_root N e1 e2 e3 w5 d Hrange)
    as (h & strain_ft_new & Hprop & Hints & Hfloats).
  assert (Hsft : strain_ft_new = fftn N (Heap.floats h (Mac5.strain_field w5))).
  { unfold Mac5.propose_root in Hprop. injection Hprop as Hh Hs.
    rewrite <- Hs, <- Hh. reflexivity. }
  rewrite Hprop. cbn [snd]. rewrite Hsft, Hfloats.
  unfold Mac6.propose_root. cbn [snd Heap.store_int Heap.ints].
  rewrite !upd_same.
  apply fftn_ext. intros x y z Hx' Hy' Hz'.
  fold L. fold F. fold p.
  rewrite <- strain_of_for by exact Hrange.
  assert (Hcell : forall a b c,
            setG F (px p) (py p) (pz p) (strain_of e1 e2 e3 (proposed_spin p))
                 a b c
            = setG (compute_strain_field N L e1 e2 e3) (px p) (py p) (pz p)
                   (strain_of e1 e2 e3 (proposed_spin p)) a b c
            \/ ~ ((a < N)%nat /\ (b < N)%nat /\ (c < N)%nat)).
  { intros a b c.
    destruct (Nat.ltb_spec a N); [ | right; lia ].
    destruct (Nat.ltb_spec b N); [ | right; lia ].
    destruct (Nat.ltb_spec c N); [ | right; lia ].
    left. unfold setG.
    destruct ((a =? px p)%nat && (b =? py p)%nat && (c =? pz p)%nat);
      [reflexivity | apply HF; assumption]. }
  destruct (Hcell x y z) as [-> | Hout]; [ | exfalso; apply Hout; lia ].
  rewrite (strain_field_update N L e1 e2 e3 (px p) (py p) (pz p))
    by assumption.
  rewrite (compute_strain_field_ext N
             (setG L (px p) (py p) (pz p) (proposed_spin p))
             (setG (Heap.ints (Mac6.heap w6) (Mac6.lattice_spins w6))
                   (px (draw_proposal
                          (Heap.ints (Mac6.heap w6) (Mac6.lattice_spins w6)) d))
                   (py (draw_proposal
                          (Heap.ints (Mac6.heap w6) (Mac6.lattice_spins w6)) d))
                   (pz (draw_proposal
                          (Heap.ints (Mac6.heap w6) (Mac6.lattice_spins w6)) d))
                   (proposed_spin
                      (draw_proposal
                         (Heap.ints (Mac6.heap w6) (Mac6.lattice_spins w6)) d)))).
  - reflexivity.
  - intros a b c _ _ _.
    cbn [draw_proposal px py pz proposed_spin]. subst p.
    cbn [draw_proposal px py pz proposed_spin current_spin].
    unfold setG. rewrite !HL. reflexivity.
Qed.

(** ** mac6.py: the loop over the steps *)

Lemma mac6_same_trans (a b c : Mac6.Worker) :
  mac6_same a b -> mac6_same b c -> mac6_same a c.
Proof.
  intros (HL1 & Hm1 & He1) (HL2 & Hm2 & He2).
  split; [ | split ].
  - intros x y z. rewrite HL2. apply HL1.
  - rewrite Hm2. exact Hm1.
  - rewrite He2. exact He1.
Qed.

Lemma mac6_main_loop_root (N : nat) (temperature : R) (q_grid : Grid Vec3)
    (B : Grid Tensor4) (e1 e2 e3 : Mat3) (num_steps : nat)
    (root : Mac6.Worker) (others : list Mac6.Worker)
    (draws : nat -> nat -> Draws) :
  let run := Mac6.main_loop N temperature q_grid B e1 e2 e3 num_steps
                            (root :: others) draws in
  exists root' rest,
    fst (fst run) = root' :: rest /\
    (mac6_consistent N q_grid B e1 e2 e3 root ->
     mac6_consistent N q_grid B e1 e2 e3 root') /\
    ((forall line, In line (snd run) -> Mac6.accepted_moves line = 0%nat) ->
     mac6_same root root').
Proof.
  intro run. subst run.
  unfold Mac6.main_loop. rewrite range3_steps, for_map.
  apply (for_invariant
           (fun (_ : nat)
                (st : list Mac6.Worker * Mac6.Monitor * list Mac6.Line) =>
              exists root' rest,
                fst (fst st) = root' :: rest /\
                (mac6_consistent N q_grid B e1 e2 e3 root ->
                 mac6_consistent N q_grid B e1 e2 e3 root') /\
                ((forall line, In line (snd st) ->
                    Mac6.accepted_moves line = 0%nat) ->
                 mac6_same root root'))).
  - exists root, others. split; [reflexivity | ].
    split; [intro H; exact H | intros _; apply mac6_same_refl].
  - intros k [[ws m] printed] _ (r & rest & Hws & Hc & Hidle).
    cbn [fst snd] in Hws, Hidle. subst ws.
    destruct (Mac6.terminate_flag m).
    + exists r, rest. split; [reflexivity | ]. split; assumption.
    + destruct (mac6_sweep_root N temperature q_grid B e1 e2 e3 r rest
                  (draws (S k)))
        as (r' & a & rest' & Hsweep & _ & Hsame & Hc').
      rewrite Hsweep. cbn [fst snd].
      exists r', (map fst rest'). split; [reflexivity | ].
      split; [intro H; apply Hc'; apply Hc; exact H | ].
      intro Hall.
      apply mac6_same_trans with r.
      * apply Hidle. intros line Hin. apply Hall.
        apply in_or_app. left. exact Hin.
      * apply Hsame.
        apply (Hall {| Mac6.step := S k;
                       Mac6.totE := Mac6.current_energy r';
                       Mac6.dErel :=
                         if Req_EM_T (Mac6.current_energy r) 0 then 0
                         else (Mac6.current_energy r' - Mac6.current_energy r)
                              / Mac6.current_energy r;
                       Mac6.accepted_moves := a |}).
        apply in_or_app. right. left. reflexivity.
Qed.

(** X18: the stopping rule of [mac6.py].  Rank 0 prints one line per
    step carried out, numbered from 1, and at most [num_steps] lines; a
    line never reports more accepted moves than N^3 // size, the number
    of proposals of a step.  The run is terminated exactly when the last
    20 lines all report no accepted move, which no earlier line has seen;
    otherwise it carries out all the steps. *)
Theorem mac6_run_stops_after_20_idle_steps
    (N : nat) (temperature : R) (q_grid : Grid Vec3) (B : Grid Tensor4)
    (e1 e2 e3 : Mat3) (num_steps : nat) (root : Mac6.Worker)
    (others : list Mac6.Worker) (draws : nat -> nat -> Draws) :
  let run := Mac6.main_loop N temperature q_grid B e1 e2 e3 num_steps
                            (root :: others) draws in
  let m := snd (fst run) in
  let printed := snd run in
  (length printed <= num_steps)%nat /\
  Mac6.terminate_flag m = (20 <=? trailing_idle_lines printed)%nat /\
  (Mac6.terminate_flag m = false -> length printed = num_steps) /\
  (forall j line, nth_error printed j = Some line ->
     Mac6.step line = S j /\
     (Mac6.accepted_moves line <= N * N * N / length (root :: others))%nat /\
     ((S j < length printed)%nat ->
      (trailing_idle_lines (firstn (S j) printed) < 20)%nat)).
Proof.
  intros run m printed.
  pose proof (mac6_main_loop_state N temperature q_grid B e1 e2 e3 num_steps
                root others draws) as H.
  fold run in H. subst m printed.
  destruct run as [[ws m] printed]. cbn [fst snd].
  destruct H as (_ & Hle & Hrun & _ & Hflag & Hlines).
  split; [exact Hle | ]. split; [exact Hflag | ]. split; [exact Hrun | ].
  exact Hlines.
Qed.

Lemma all_idle_trailing (l : list Mac6.Line) :
  (forall line, In line l -> Mac6.accepted_moves line = 0%nat) ->
  trailing_idle_lines l = length l.
Proof.
  intro H. unfold trailing_idle_lines. rewrite <- length_rev.
  assert (Hr : forall line, In line (rev l) -> Mac6.accepted_moves line = 0%nat).
  { intros line Hin. apply H. apply in_rev. exact Hin. }
  induction (rev l) as [| line l' IH]; [reflexivity | ].
  cbn [leading_idle_lines length].
  rewrite (Hr line) by (left; reflexivity). cbn [Nat.eqb].
  f_equal. apply IH. intros line' Hin. apply Hr. right. exact Hin.
Qed.

(** X19: [mac6.py] on more ranks than lattice sites: N^3 // size is 0,
    no step proposes a move, every line reports no accepted move, the run
    ends after min(num_steps, 20) steps and rank 0 ends with the lattice,
    the macroscopic strain and the energy it started with. *)
Theorem mac6_more_ranks_than_sites
    (N : nat) (temperature : R) (q_grid : Grid Vec3) (B : Grid Tensor4)
    (e1 e2 e3 : Mat3) (num_steps : nat) (root : Mac6.Worker)
    (others : list Mac6.Worker) (draws : nat -> nat -> Draws) :
  (N * N * N < length (root :: others))%nat ->
  let run := Mac6.main_loop N temperature q_grid B e1 e2 e3 num_steps
                            (root :: others) draws in
  let printed := snd run in
  length printed = Nat.min num_steps 20 /\
  (forall line, In line printed -> Mac6.accepted_moves line = 0%nat) /\
  exists root' rest, fst (fst run) = root' :: rest /\ mac6_same root root'.
Proof.
  intros Hsize run printed.
  pose proof (mac6_main_loop_state N temperature q_grid B e1 e2 e3 num_steps
                root others draws) as Hst.
  destruct (mac6_main_loop_root N temperature q_grid B e1 e2 e3 num_steps
              root others draws) as (root' & rest & Hws & _ & Hsame).
  fold run in Hst, Hws, Hsame. subst printed.
  destruct run as [[ws m] printed]. cbn [fst snd] in *.
  destruct Hst as (_ & Hle & Hrun & _ & Hflag & Hlines).
  assert (Hzero : (N * N * N / length (root :: others) = 0)%nat)
    by (apply Nat.div_small; exact Hsize).
  assert (Hidle : forall line, In line printed ->
                    Mac6.accepted_moves line = 0%nat).
  { intros line Hin. apply In_nth_error in Hin. destruct Hin as [j Hj].
    destruct (Hlines j line Hj) as (_ & Hb & _). lia. }
  split; [ | split ].
  - rewrite all_idle_trailing in Hflag by exact Hidle.
    destruct (Mac6.terminate_flag m) eqn:Hm.
    + symmetry in Hflag. apply Nat.leb_le in Hflag.
      unfold Mac6.max_stable_steps in Hflag.
      destruct (Nat.eq_dec (length printed) 20) as [He | Hne]; [lia | ].
      exfalso.
      destruct (nth_error printed (length printed - 2)) as [line |] eqn:Hn.
      * destruct (Hlines _ line Hn) as (_ & _ & Hpre).
        assert (Hlt : (S (length printed - 2) < length printed)%nat) by lia.
        specialize (Hpre Hlt).
        rewrite all_idle_trailing in Hpre.
        -- rewrite length_firstn in Hpre.
           unfold Mac6.max_stable_steps in Hpre. lia.
        -- intros line' Hin. apply Hidle.
           rewrite <- (firstn_skipn (S (length printed - 2)) printed).
           apply in_or_app. left. exact Hin.
      * apply nth_error_None in Hn. lia.
    + specialize (Hrun eq_refl). symmetry in Hflag.
      apply Nat.leb_gt in Hflag. unfold Mac6.max_stable_steps in Hflag. lia.
  - exact Hidle.
  - exists root', rest. split; [exact Hws | ]. apply Hsame. exact Hidle.
Qed.

(** X17: in [mac6.py], if the macroscopic strain and the energy of rank 0
    are those of its lattice when the loop over the steps starts, they
    still are when it ends, for every number of ranks, every number of
    steps and all random draws. *)
Theorem mac6_run_keeps_rank0_consistent
    (N : nat) (temperature : R) (q_grid : Grid Vec3) (B : Grid Tensor4)
    (e1 e2 e3 : Mat3) (num_steps : nat) (root : Mac6.Worker)
    (others : list Mac6.Worker) (draws : nat -> nat -> Draws) :
  mac6_consistent N q_grid B e1 e2 e3 root ->
  exists root' rest,
    fst (fst (Mac6.main_loop N temperature q_grid B e1 e2 e3 num_steps
                             (root :: others) draws)) = root' :: rest /\
    mac6_consistent N q_grid B e1 e2 e3 root'.
Proof.
  intro Hc.
  destruct (mac6_main_loop_root N temperature q_grid B e1 e2 e3 num_steps
              root others draws) as (root' & rest & Hws & Hc' & _).
  exists root', rest. split; [exact Hws | apply Hc'; exact Hc].
Qed.

Lemma mac6_run_keeps_rank0_consistent_witness :
  exists root' rest,
    fst (fst (Mac6.main_loop 2 (1 / 10) (q_grid_of 2) example_kernel
                             example_e1 example_e2 example_e3 3
                             [example_mac6_root; example_mac6_root]
                             (fun _ _ => example_draws))) = root' :: rest /\
    mac6_consistent 2 (q_grid_of 2) example_kernel
                    example_e1 example_e2 example_e3 root'.
Proof.
  apply (mac6_run_keeps_rank0_consistent
           2 (1 / 10) (q_grid_of 2) example_kernel
           example_e1 example_e2 example_e3 3
           example_mac6_root [example_mac6_root]
           (fun _ _ => example_draws)).
  split; [intros i j; reflexivity | reflexivity].
Defined.

Lemma mac6_initial_workers (N size : nat) (q_grid : Grid Vec3)
    (B : Grid Tensor4) (e1 e2 e3 : Mat3) :
  (1 <= size)%nat ->
  exists root rest,
    Mac6.initial_workers N size q_grid B e1 e2 e3 = root :: rest /\
    length (root :: rest) = size /\
    mac6_consistent N q_grid B e1 e2 e3 root.
Proof.
  intro Hsize. unfold Mac6.initial_workers. cbv zeta.
  rewrite mac6_reduced_energy by assumption.
  destruct size as [| size]; [exfalso; lia | ].
  unfold range at 1. cbn [seq map].
  do 2 eexists. split; [reflexivity | ].
  split; [cbn [length]; rewrite length_map, length_seq; reflexivity | ].
  split; [intros i j; reflexivity | reflexivity].
Qed.

(** X20: [main] of [mac6.py], with its constants as parameters.  For a
    nonzero [gamma_0] and [anisoPar], a lattice of side 1 or more, fewer
    than 20 steps and at least one rank, the run raises no error, carries out every step, never
    sets [terminate_flag], and ends with the macroscopic strain and the
    energy of rank 0 being those of its lattice.  The constants of
    [main] itself (10 steps, lattice of side 12) are such a run. *)
Theorem mac6_short_run_performs_every_step
    (epsilon_a gamma_0 anisoPar temperature : R) (num_steps N : nat)
    (size : nat) (draws : nat -> nat -> Draws) :
  gamma_0 <> 0 -> anisoPar <> 0 -> (0 < N)%nat ->
  (num_steps < 20)%nat -> (1 <= size)%nat ->
  exists e1 e2 e3 C root rest m printed,
    material_model epsilon_a gamma_0 anisoPar = inr (e1, e2, e3, C) /\
    Mac6.run epsilon_a gamma_0 anisoPar temperature num_steps N size draws
    = inr (root :: rest, m, printed) /\
    length (root :: rest) = size /\
    length printed = num_steps /\
    Mac6.terminate_flag m = false /\
    mac6_consistent N (q_grid_of N)
      (snd (Mac5.precompute_reciprocal_space_and_kernel N C)) e1 e2 e3 root.
Proof.
  intros Hg Ha HN Hsteps Hsize.
  assert (Hval : INR N * (1 / (2 * PI)) <> 0).
  { pose proof PI_RGT_0 as Hpi.
    assert (0 < INR N) by (apply lt_0_INR; exact HN).
    assert (0 < 1 / (2 * PI)) by (apply Rdiv_lt_0_compat; lra).
    apply Rgt_not_eq. apply Rmult_lt_0_compat; assumption. }
  unfold Mac6.run, material_model, main_setup.
  rewrite define_dimensionless_strains_ok by assumption.
  rewrite precompute_stiffness_tensor_ok by assumption.
  rewrite truediv_ok by exact Hval.
  cbn [bind].
  set (e1 := diag3 _ _ _). set (e2 := diag3 _ _ _). set (e3 := diag3 _ _ _).
  set (C := stiffness_loops _ _ _).
  exists e1, e2, e3, C.
  change (Mac5.precompute_reciprocal_space_and_kernel N C)
    with (q_grid_of N, snd (Mac5.precompute_reciprocal_space_and_kernel N C)).
  cbv iota beta.
  set (B := snd _).
  destruct (mac6_initial_workers N size (q_grid_of N) B e1 e2 e3 Hsize)
    as (root & rest & -> & Hlen & Hc).
  pose proof (mac6_main_loop_state N temperature (q_grid_of N) B e1 e2 e3
                num_steps root rest draws) as Hst.
  destruct (mac6_main_loop_root N temperature (q_grid_of N) B e1 e2 e3
              num_steps root rest draws) as (root' & rest' & Hws & Hc' & _).
  destruct (Mac6.main_loop N temperature (q_grid_of N) B e1 e2 e3 num_steps
                           (root :: rest) draws) as [[ws m] printed].
  cbn [fst snd] in Hws. subst ws.
  destruct Hst as (Hwlen & Hle & Hrun & _ & Hflag & _).
  pose proof (trailing_idle_lines_le printed) as Htr.
  assert (Hfalse : Mac6.terminate_flag m = false).
  { rewrite Hflag. apply Nat.leb_gt. unfold Mac6.max_stable_steps. lia. }
  exists root', rest', m, printed.
  split; [reflexivity | ]. split; [reflexivity | ].
  split; [rewrite Hwlen; exact Hlen | ].
  split; [apply Hrun; exact Hfalse | ].
  split; [exact Hfalse | apply Hc'; exact Hc].
Qed.

Lemma mac6_short_run_performs_every_step_witness :
  exists e1 e2 e3 C root rest m printed,
    material_model 0 (4 / 10) 1 = inr (e1, e2, e3, C) /\
    Mac6.main 4 (fun _ _ => example_draws) = inr (root :: rest, m, printed) /\
    length (root :: rest) = 4%nat /\
    length printed = 10%nat /\
    Mac6.terminate_flag m = false /\
    mac6_consistent 12 (q_grid_of 12)
      (snd (Mac5.precompute_reciprocal_space_and_kernel 12 C)) e1 e2 e3 root.
Proof.
  apply (mac6_short_run_performs_every_step
           0 (4 / 10) 1 (1 / 10) 10 12 4 (fun _ _ => example_draws));
    [lra | lra | lia | lia | lia].
Defined.

(** ** sporc_mpi6.py: what one step does to a rank *)

Lemma sporc_rank_outcome (N : nat) (temperature : R) (q_grid : Grid Vec3)
    (B : Grid Tensor4) (e1 e2 e3 : Mat3) (rank size : nat)
    (w : Sporc.Worker) (d : Draws) (E_new : R) :
  let L := Heap.ints (Sporc.heap w) (Sporc.lattice_spins w) in
  let p := draw_proposal L d in
  let trial := setG L (px p) (py p) (pz p) (proposed_spin p) in
  let spectrum := fftn N (compute_strain_field N trial e1 e2 e3) in
  exists h local_E_new w' accepted,
    Sporc.propose N q_grid B e1 e2 e3 rank size w d
    = (h, p, spectrum, local_E_new) /\
    local_E_new = Sporc.compute_elastic_energy N q_grid B spectrum rank size /\
    Sporc.decide temperature w h p spectrum E_new d = (w', accepted) /\
    accepted = accepts (uniform d)
                 (acceptance_probability (E_new - Sporc.current_energy w)
                                         temperature) /\
    Sporc.lattice_spins w' = Sporc.lattice_spins w /\
    Sporc.strain_ft w' = Sporc.strain_ft w /\
    (accepted = false -> sporc_same w w') /\
    (accepted = true ->
     Heap.ints (Sporc.heap w') (Sporc.lattice_spins w') = trial /\
     Heap.complexes (Sporc.heap w') (Sporc.strain_ft w') = spectrum /\
     Sporc.current_energy w' = E_new).
Proof.
  intros L p trial spectrum.
  unfold Sporc.propose, Sporc.decide.
  cbn [Heap.store_int Heap.ints]. rewrite !upd_same.
  fold L. fold p. fold trial. fold spectrum.
  destruct (accepts (uniform d) _) eqn:Hacc.
  - do 4 eexists. split; [reflexivity | ]. split; [reflexivity | ].
    split; [reflexivity | ]. split; [reflexivity | ].
    split; [reflexivity | ]. split; [reflexivity | ].
    split; [intro H; discriminate H | ]. intros _.
    cbn [Sporc.heap Sporc.lattice_spins Sporc.strain_ft Sporc.current_energy
         Heap.assign_complex Heap.store_int Heap.ints Heap.complexes].
    rewrite !upd_same. repeat split; reflexivity.
  - do 4 eexists. split; [reflexivity | ]. split; [reflexivity | ].
    split; [reflexivity | ]. split; [reflexivity | ].
    split; [reflexivity | ]. split; [reflexivity | ].
    split; [ | intro H; discriminate H ]. intros _.
    unfold sporc_same.
    cbn [Sporc.heap Sporc.lattice_spins Sporc.strain_ft Sporc.current_energy
         Heap.store_int Heap.ints Heap.complexes].
    rewrite !upd_same.
    split; [ | split; reflexivity ].
    intros x y z. unfold trial.
    change (current_spin p) with (L (px p) (py p) (pz p)).
    apply setG_setG_back.
Qed.

Lemma sporc_rank_keeps_spectrum (N : nat) (temperature : R)
    (q_grid : Grid Vec3) (B : Grid Tensor4) (e1 e2 e3 : Mat3)
    (rank size : nat) (w : Sporc.Worker) (d : Draws) (E_new : R)
    (h : Heap.t) (p : Proposal) (spectrum : Grid CMat3) (local_E_new : R) :
  Sporc.propose N q_grid B e1 e2 e3 rank size w d
  = (h, p, spectrum, local_E_new) ->
  sporc_spectrum_consistent N e1 e2 e3 w ->
  sporc_spectrum_consistent
    N e1 e2 e3 (fst (Sporc.decide temperature w h p spectrum E_new d)).
Proof.
  intros Hprop Hc.
  destruct (sporc_rank_outcome N temperature q_grid B e1 e2 e3 rank size
              w d E_new)
    as (h0 & l0 & w' & accepted & Hp & _ & Hd & _ & _ & _ & Hrej & Hacc).
  rewrite Hprop in Hp. injection Hp as Hh Hpp Hs _. subst h p spectrum.
  cbn [draw_proposal px py pz proposed_spin] in Hd, Hacc.
  rewrite Hd. cbn [fst].
  unfold sporc_spectrum_consistent in *.
  intros qx qy qz i j.
  destruct accepted.
  - destruct (Hacc eq_refl) as (HL & HA & _). rewrite HL, HA. reflexivity.
  - destruct (Hrej eq_refl) as (HL & HA & _). rewrite HA, Hc.
    apply fftn_ext. intros x y z _ _ _.
    rewrite (compute_strain_field_ext
               N (Heap.ints (Sporc.heap w') (Sporc.lattice_spins w'))
               (Heap.ints (Sporc.heap w) (Sporc.lattice_spins w)))
      by (intros; apply HL).
    reflexivity.
Qed.

(** ** Lists of ranks *)

Lemma forall2_map_combine {A D B : Type} (R : A -> B -> Prop)
    (F : nat * (A * D) -> B) (ws : list A) :
  (forall i w d, R w (F (i, (w, d)))) ->
  forall (idx : list nat) (ds : list D),
    length ds = length ws -> length idx = length ws ->
    Forall2 R ws (map F (combine idx (combine ws ds))).
Proof.
  intro H. induction ws as [| w ws IH]; intros idx ds Hd Hi.
  - destruct idx; [ | discriminate Hi ]. constructor.
  - destruct idx as [| i idx]; [discriminate Hi | ].
    destruct ds as [| d ds]; [discriminate Hd | ].
    cbn [combine map]. constructor.
    + apply H.
    + apply IH; [injection Hd | injection Hi]; auto.
Qed.

Lemma forall_map_combine {A D B : Type} (P : A -> Prop) (Q : B -> Prop)
    (F : nat * (A * D) -> B) (ws : list A) :
  (forall i w d, P w -> Q (F (i, (w, d)))) ->
  Forall P ws ->
  forall (idx : list nat) (ds : list D),
    Forall Q (map F (combine idx (combine ws ds))).
Proof.
  intros H HP. induction HP as [| w ws Hw HP IH]; intros idx ds.
  - destruct idx; constructor.
  - destruct idx as [| i idx]; [constructor | ].
    destruct ds as [| d ds]; [constructor | ].
    cbn [combine map]. constructor.
    + apply H. exact Hw.
    + apply IH.
Qed.

Lemma sporc_step_by_rank (N : nat) (temperature : R) (q_grid : Grid Vec3)
    (B : Grid Tensor4) (e1 e2 e3 : Mat3) (workers : list Sporc.Worker)
    (draws : list Draws) :
  exists E_new,
    Sporc.monte_carlo_step N temperature q_grid B e1 e2 e3 workers draws
    = map (sporc_rank_step N temperature q_grid B e1 e2 e3
                           (length workers) E_new)
          (combine (range (length workers)) (combine workers draws)).
Proof.
  unfold Sporc.monte_carlo_step. cbv zeta.
  eexists. rewrite map_map. apply map_ext.
  intros [rank [w d]]. unfold sporc_rank_step.
  destruct (Sporc.propose N q_grid B e1 e2 e3 rank (length workers) w d)
    as [[[h p] sft] loc].
  reflexivity.
Qed.

Lemma sporc_rank_step_outcome (N : nat) (temperature : R)
    (q_grid : Grid Vec3) (B : Grid Tensor4) (e1 e2 e3 : Mat3)
    (size : nat) (E_new : R) (rank : nat) (w : Sporc.Worker) (d : Draws) :
  let o := sporc_rank_step N temperature q_grid B e1 e2 e3 size E_new
                           (rank, (w, d)) in
  (snd o = false -> sporc_same w (fst o)) /\
  (sporc_spectrum_consistent N e1 e2 e3 w ->
   sporc_spectrum_consistent N e1 e2 e3 (fst o)).
Proof.
  intro o. subst o. unfold sporc_rank_step.
  destruct (Sporc.propose N q_grid B e1 e2 e3 rank size w d)
    as [[[h p] sft] loc] eqn:Hprop.
  split.
  - destruct (sporc_rank_outcome N temperature q_grid B e1 e2 e3 rank size
                w d E_new)
      as (h0 & l0 & w' & accepted & Hp & _ & Hd & _ & _ & _ & Hrej & _).
    rewrite Hprop in Hp. injection Hp as Hh Hpp Hs _. subst h p sft.
    cbn [draw_proposal px py pz proposed_spin] in Hd.
    rewrite Hd. cbn [fst snd]. exact Hrej.
  - apply (sporc_rank_keeps_spectrum N temperature q_grid B e1 e2 e3
             rank size w d E_new h p sft loc Hprop).
Qed.

(** X21: in [sporc_mpi6.py], for any number of ranks, every rank that
    rejects its proposal ends the step with the lattice, the spectrum and
    the energy it started with. *)
Theorem sporc_rejecting_ranks_are_restored
    (N : nat) (temperature : R) (q_grid : Grid Vec3) (B : Grid Tensor4)
    (e1 e2 e3 : Mat3) (workers : list Sporc.Worker) (draws : list Draws) :
  length draws = length workers ->
  Forall2 (fun w (o : Sporc.Worker * bool) =>
             snd o = false -> sporc_same w (fst o))
          workers
          (Sporc.monte_carlo_step N temperature q_grid B e1 e2 e3
                                  workers draws).
Proof.
  intro Hlen.
  destruct (sporc_step_by_rank N temperature q_grid B e1 e2 e3 workers draws)
    as [E_new ->].
  apply forall2_map_combine.
  - intros rank w d.
    apply (sporc_rank_step_outcome N temperature q_grid B e1 e2 e3
             (length workers) E_new rank w d).
  - exact Hlen.
  - unfold range. apply length_seq.
Qed.

(** X22: in [sporc_mpi6.py], if the spectrum of every rank is the
    transform of the strain field of its lattice before a step, it is so
    after the step, whatever each rank proposes and decides. *)
Theorem sporc_step_keeps_spectra_consistent
    (N : nat) (temperature : R) (q_grid : Grid Vec3) (B : Grid Tensor4)
    (e1 e2 e3 : Mat3) (workers : list Sporc.Worker) (draws : list Draws) :
  Forall (sporc_spectrum_consistent N e1 e2 e3) workers ->
  Forall (fun o : Sporc.Worker * bool =>
            sporc_spectrum_consistent N e1 e2 e3 (fst o))
         (Sporc.monte_carlo_step N temperature q_grid B e1 e2 e3
                                 workers draws).
Proof.
  intro Hc.
  destruct (sporc_step_by_rank N temperature q_grid B e1 e2 e3 workers draws)
    as [E_new ->].
  apply (forall_map_combine (sporc_spectrum_consistent N e1 e2 e3)).
  - intros rank w d.
    apply (sporc_rank_step_outcome N temperature q_grid B e1 e2 e3
             (length workers) E_new rank w d).
  - exact Hc.
Qed.

(** ** sporc_mpi6.py: sweeps and the loop over the steps *)

Lemma sporc_step_length (N : nat) (temperature : R) (q_grid : Grid Vec3)
    (B : Grid Tensor4) (e1 e2 e3 : Mat3) (workers : list Sporc.Worker)
    (draws : list Draws) :
  length draws = length workers ->
  length (Sporc.monte_carlo_step N temperature q_grid B e1 e2 e3 workers draws)
  = length workers.
Proof.
  intro Hlen.
  destruct (sporc_step_by_rank N temperature q_grid B e1 e2 e3 workers draws)
    as [E_new ->].
  rewrite length_map, !length_combine. unfold range. rewrite length_seq. lia.
Qed.

Lemma sporc_sweep_length (N : nat) (temperature : R) (q_grid : Grid Vec3)
    (B : Grid Tensor4) (e1 e2 e3 : Mat3) (workers : list Sporc.Worker)
    (draws : nat -> list Draws) :
  (forall call, length (draws call) = length workers) ->
  length (Sporc.sweep N temperature q_grid B e1 e2 e3 workers draws)
  = length workers.
Proof.
  intro Hd. unfold Sporc.sweep. cbv zeta.
  apply (for_invariant
           (fun _ (ranks : list (Sporc.Worker * nat)) =>
              length ranks = length workers)).
  - apply length_map.
  - intros k ranks _ Hlen.
    rewrite length_map, length_combine, sporc_step_length;
      rewrite ?length_map; rewrite ?Hd; lia.
Qed.

Lemma sporc_steps_loop_state (N : nat) (temperature : R)
    (q_grid : Grid Vec3) (B : Grid Tensor4) (e1 e2 e3 : Mat3)
    (num_steps : nat) (workers : list Sporc.Worker)
    (draws : nat -> nat -> list Draws) :
  workers <> [] ->
  (forall step call, length (draws step call) = length workers) ->
  sporc_loop_state (length workers) num_steps
    (Sporc.steps_loop N temperature q_grid B e1 e2 e3 num_steps workers draws).
Proof.
  intros Hne Hd.
  unfold Sporc.steps_loop. rewrite range3_steps, for_map.
  apply (for_invariant (sporc_loop_state (length workers))).
  - unfold sporc_loop_state.
    cbn [Sporc.terminate_flag Sporc.stable_steps Sporc.zero_move_steps].
    repeat split; try reflexivity; unfold Sporc.max_stable_steps; lia.
  - intros k [[ws m] done] Hk (Hlen & Hle & Hrun & Hst & Hze & Hflag).
    destruct (Sporc.terminate_flag m) eqn:Hm.
    + unfold sporc_loop_state.
      split; [exact Hlen | ]. split; [lia | ].
      split; [intro H; rewrite Hm in H; discriminate H | ].
      split; [exact Hst | ]. split; [exact Hze | ].
      rewrite Hm. exact Hflag.
    + specialize (Hrun eq_refl).
      destruct ws as [| r rest];
        [exfalso; apply Hne; destruct workers; [reflexivity | discriminate Hlen] | ].
      pose proof (sporc_sweep_length N temperature q_grid B e1 e2 e3
                    (r :: rest) (draws (S k))) as Hslen.
      rewrite Hlen in Hslen. specialize (Hslen (Hd (S k))).
      destruct (Sporc.sweep N temperature q_grid B e1 e2 e3 (r :: rest)
                            (draws (S k)))
        as [| [r' a] rest'].
      { exfalso. cbn [length] in Hslen. destruct workers; [apply Hne; reflexivity | discriminate Hslen]. }
      unfold sporc_loop_state, Sporc.end_of_step.
      cbn [Sporc.terminate_flag Sporc.stable_steps Sporc.zero_move_steps].
      split; [cbn [length] in *; rewrite length_map; lia | ].
      split; [lia | ]. split; [intros _; lia | ].
      split; [destruct (Sporc.below_tolerance _ _); lia | ].
      split; [destruct (a <=? 0)%nat; lia | ].
      rewrite Hm.
      match goal with
      | |- (if ?b then true else false) = _ => destruct b; reflexivity
      end.
Qed.

(** X24: the loop over the steps of [sporc_mpi6.py] carries out at most
    [num_steps] steps, all of them unless [terminate_flag] is set, and it
    never sets the flag before step 50: the flag means that one of the
    two counters has reached 50. *)
Theorem sporc_run_never_stops_before_step_50
    (N : nat) (temperature : R) (q_grid : Grid Vec3) (B : Grid Tensor4)
    (e1 e2 e3 : Mat3) (num_steps : nat) (root : Sporc.Worker)
    (others : list Sporc.Worker) (draws : nat -> nat -> list Draws) :
  (2 <= N)%nat ->
  (forall step call, length (draws step call) = length (root :: others)) ->
  let run := Sporc.steps_loop N temperature q_grid B e1 e2 e3 num_steps
                              (root :: others) draws in
  let m := snd (fst run) in
  let steps_done := snd run in
  (steps_done <= num_steps)%nat /\
  (Sporc.terminate_flag m = false -> steps_done = num_steps) /\
  (Sporc.terminate_flag m = true ->
   (50 <= steps_done)%nat /\
   ((50 <= Sporc.stable_steps m)%nat \/ (50 <= Sporc.zero_move_steps m)%nat)).
Proof.
  intros _ Hd run m steps_done.
  pose proof (sporc_steps_loop_state N temperature q_grid B e1 e2 e3
                num_steps (root :: others) draws
                ltac:(discriminate) Hd) as H.
  fold run in H. subst m steps_done.
  destruct run as [[ws m] done]. cbn [fst snd].
  destruct H as (_ & Hle & Hrun & Hst & Hze & Hflag).
  split; [exact Hle | ]. split; [exact Hrun | ].
  intro Ht. rewrite Ht in Hflag. symmetry in Hflag.
  apply orb_true_iff in Hflag.
  unfold Sporc.max_stable_steps in Hflag.
  destruct Hflag as [H | H]; apply Nat.leb_le in H; split; try lia.
Qed.

(** X25: the stability test of [sporc_mpi6.py] divides by the signed
    previous energy.  For a negative previous energy every step counts as
    stable, whatever the energy has become; for a zero one no step does;
    for a positive one a step is stable exactly when the energy changed
    by less than 1e-10 times the previous energy. *)
Theorem sporc_stability_test_is_one_sided
    (prev_energy current_energy : R) (accepted_moves : nat)
    (m : Sporc.Monitor) :
  let m' := Sporc.end_of_step prev_energy current_energy accepted_moves m in
  (prev_energy < 0 ->
   Sporc.stable_steps m' = (Sporc.stable_steps m + 1)%nat) /\
  (prev_energy = 0 -> Sporc.stable_steps m' = 0%nat) /\
  (0 < prev_energy ->
   (Rabs (current_energy - prev_energy) < prev_energy / 10 ^ 10 ->
    Sporc.stable_steps m' = (Sporc.stable_steps m + 1)%nat) /\
   (prev_energy / 10 ^ 10 <= Rabs (current_energy - prev_energy) ->
    Sporc.stable_steps m' = 0%nat)).
Proof.
  intro m'. subst m'. unfold Sporc.end_of_step. cbn [Sporc.stable_steps].
  unfold Sporc.below_tolerance, Sporc.dErel_tolerance.
  assert (Hten : 0 < 10 ^ 10) by (apply pow_lt; lra).
  pose proof (Rabs_pos (current_energy - prev_energy)) as Habs.
  split; [ | split ].
  - intro Hneg.
    destruct (Req_EM_T prev_energy 0) as [H0 | H0]; [lra | ].
    destruct (Rlt_dec _ _) as [Hlt | Hge]; [reflexivity | ].
    exfalso. apply Hge.
    apply Rle_lt_trans with 0.
    + unfold Rdiv.
      replace 0 with (Rabs (current_energy - prev_energy) * 0) by ring.
      apply Rmult_le_compat_l; [exact Habs | ].
      apply Rlt_le. apply Rinv_lt_0_compat. exact Hneg.
    + apply Rdiv_lt_0_compat; lra.
  - intro H0. destruct (Req_EM_T prev_energy 0); [reflexivity | contradiction].
  - intro Hpos.
    destruct (Req_EM_T prev_energy 0) as [H0 | H0]; [lra | ].
    assert (Hiff : Rabs (current_energy - prev_energy) / prev_energy
                   < 1 / 10 ^ 10
                   <-> Rabs (current_energy - prev_energy)
                       < prev_energy / 10 ^ 10).
    { split; intro H.
      - apply Rmult_lt_compat_r with (r := prev_energy) in H; [ | exact Hpos ].
        unfold Rdiv in H. rewrite Rmult_assoc, Rinv_l, Rmult_1_r in H by exact H0.
        unfold Rdiv. lra.
      - apply Rmult_lt_reg_r with prev_energy; [exact Hpos | ].
        unfold Rdiv. rewrite Rmult_assoc, Rinv_l, Rmult_1_r by exact H0.
        unfold Rdiv in H. lra. }
    split; intro H; destruct (Rlt_dec _ _) as [Hlt | Hge]; try reflexivity.
    + exfalso. apply Hge. apply Hiff. exact H.
    + exfalso. apply Hiff in Hlt. lra.
Qed.

(** ** sporc_mpi6.py on one worker *)

Lemma sporc_single_step (N : nat) (temperature : R) (q_grid : Grid Vec3)
    (B : Grid Tensor4) (e1 e2 e3 : Mat3) (w : Sporc.Worker) (d : Draws) :
  exists w' accepted,
    Sporc.monte_carlo_step N temperature q_grid B e1 e2 e3 [w] [d]
    = [(w', accepted)] /\
    (accepted = false -> sporc_same w w') /\
    (sporc_spectrum_consistent N e1 e2 e3 w ->
     sporc_spectrum_consistent N e1 e2 e3 w') /\
    (sporc_energy_consistent N q_grid B w ->
     sporc_energy_consistent N q_grid B w').
Proof.
  unfold Sporc.monte_carlo_step. cbn [length range seq combine map].
  destruct (Sporc.propose N q_grid B e1 e2 e3 0 1 w d)
    as [[[h p] sft] loc] eqn:Hprop.
  cbn [map].
  set (E_new := reduce_sum_bcast [loc]).
  destruct (sporc_rank_outcome N temperature q_grid B e1 e2 e3 0 1 w d E_new)
    as (h0 & l0 & w' & accepted & Hp & Hl & Hd & _ & _ & _ & Hrej & Hacc).
  pose proof (sporc_rank_keeps_spectrum N temperature q_grid B e1 e2 e3
                0 1 w d E_new h p sft loc Hprop) as Hspec.
  rewrite Hprop in Hp. injection Hp as Hh Hpp Hs Hloc. subst h p sft.
  cbn [draw_proposal px py pz proposed_spin] in Hd, Hacc, Hl.
  rewrite Hd in *. cbn [fst] in Hspec.
  exists w', accepted. split; [reflexivity | ].
  split; [exact Hrej | ]. split; [exact Hspec | ].
  unfold sporc_energy_consistent. intro He.
  destruct accepted.
  - destruct (Hacc eq_refl) as (_ & HA & HE). rewrite HE, HA.
    subst E_new. unfold reduce_sum_bcast. cbn [fold_left].
    rewrite Hloc, Hl. ring.
  - destruct (Hrej eq_refl) as (_ & HA & HE). rewrite HE, HA. exact He.
Qed.

Lemma sporc_single_sweep (N : nat) (temperature : R) (q_grid : Grid Vec3)
    (B : Grid Tensor4) (e1 e2 e3 : Mat3) (w : Sporc.Worker)
    (draws : nat -> list Draws) :
  (forall call, length (draws call) = 1%nat) ->
  exists w' accepted_moves,
    Sporc.sweep N temperature q_grid B e1 e2 e3 [w] draws
    = [(w', accepted_moves)] /\
    (accepted_moves = 0%nat -> sporc_same w w') /\
    (sporc_spectrum_consistent N e1 e2 e3 w ->
     sporc_spectrum_consistent N e1 e2 e3 w') /\
    (sporc_energy_consistent N q_grid B w ->
     sporc_energy_consistent N q_grid B w').
Proof.
  intro Hd. unfold Sporc.sweep. cbv zeta.
  apply (for_invariant
           (fun (_ : nat) (ranks : list (Sporc.Worker * nat)) =>
              exists w' accepted_moves,
                ranks = [(w', accepted_moves)] /\
                (accepted_moves = 0%nat -> sporc_same w w') /\
                (sporc_spectrum_consistent N e1 e2 e3 w ->
                 sporc_spectrum_consistent N e1 e2 e3 w') /\
                (sporc_energy_consistent N q_grid B w ->
                 sporc_energy_consistent N q_grid B w'))).
  - exists w, 0%nat. split; [reflexivity | ].
    split; [intros _; repeat split | ]. split; intro H; exact H.
  - intros k ranks _ (r & a & -> & Hsame & Hs & He).
    cbn [map fst].
    specialize (Hd k).
    destruct (draws k) as [| d [| d' ds]]; try discriminate Hd.
    destruct (sporc_single_step N temperature q_grid B e1 e2 e3 r d)
      as (r' & accepted & Hstep & Hrej & Hs' & He').
    rewrite Hstep. cbn [combine map].
    do 2 eexists. split; [reflexivity | ].
    split; [ | split; intro H; auto ].
    intro Hzero. destruct accepted; [discriminate Hzero | ].
    destruct (Hrej eq_refl) as (HL & HA & HE).
    destruct (Hsame Hzero) as (HL0 & HA0 & HE0).
    split; [ | split ].
    + intros x y z. rewrite HL. apply HL0.
    + rewrite HA. exact HA0.
    + rewrite HE. exact HE0.
Qed.

(** X23: [sporc_mpi6.py] on one worker: if the spectrum is the transform
    of the strain field of the lattice and the energy is the energy of
    that spectrum when the loop over the steps starts, both still hold
    when it ends. *)
Theorem sporc_single_worker_run_is_consistent
    (N : nat) (temperature : R) (q_grid : Grid Vec3) (B : Grid Tensor4)
    (e1 e2 e3 : Mat3) (num_steps : nat) (w : Sporc.Worker)
    (draws : nat -> nat -> list Draws) :
  (2 <= N)%nat ->
  (forall step call, length (draws step call) = 1%nat) ->
  sporc_spectrum_consistent N e1 e2 e3 w ->
  sporc_energy_consistent N q_grid B w ->
  exists w',
    fst (fst (Sporc.steps_loop N temperature q_grid B e1 e2 e3 num_steps
                               [w] draws)) = [w'] /\
    sporc_spectrum_consistent N e1 e2 e3 w' /\
    sporc_energy_consistent N q_grid B w'.
Proof.
  intros _ Hd Hs He.
  unfold Sporc.steps_loop. rewrite range3_steps, for_map.
  apply (for_invariant
           (fun (_ : nat) (st : list Sporc.Worker * Sporc.Monitor * nat) =>
              exists w',
                fst (fst st) = [w'] /\
                sporc_spectrum_consistent N e1 e2 e3 w' /\
                sporc_energy_consistent N q_grid B w')).
  - exists w. repeat split; assumption.
  - intros k [[ws m] done] _ (r & Hws & Hsr & Her).
    cbn [fst] in Hws. subst ws.
    destruct (Sporc.terminate_flag m).
    + exists r. repeat split; assumption.
    + destruct (sporc_single_sweep N temperature q_grid B e1 e2 e3 r
                  (draws (S k)) (Hd (S k)))
        as (r' & a & Hsweep & _ & Hs' & He').
      rewrite Hsweep. cbn [map fst].
      exists r'. split; [reflexivity | ]. split; auto.
Qed.

(** ** Real and imaginary parts of a complex sum *)

Lemma cx_sum_parts (l : list nat) (f : nat -> Cx.t) :
  Cx.sum l f = (rsum l (fun i => fst (f i)), rsum l (fun i => snd (f i))).
Proof.
  unfold Cx.sum, rsum, Cx.zero.
  generalize 0 at 1 3. generalize 0.
  induction l as [| i l IH]; intros b a; cbn [fold_left].
  - reflexivity.
  - unfold Cx.add at 2. cbn [fst snd]. apply IH.
Qed.

Lemma rsum_mult_l (l : list nat) (f : nat -> R) (c : R) :
  rsum l (fun i => c * f i) = c * rsum l f.
Proof.
  induction l as [| i l IH].
  - unfold rsum. simpl. ring.
  - change (i :: l) with ([i] ++ l). rewrite !rsum_app, !rsum_single, IH. ring.
Qed.

Lemma rsum_zero (l : list nat) (f : nat -> R) :
  (forall i, In i l -> f i = 0) -> rsum l f = 0.
Proof.
  intro H. rewrite (rsum_ext l f (fun _ => 0) H).
  induction l as [| i l IH].
  - reflexivity.
  - change (i :: l) with ([i] ++ l). rewrite rsum_app, rsum_single, IH.
    + ring.
    + intros j Hj. apply H. right. exact Hj.
Qed.

Lemma rsum_swap (l l' : list nat) (f : nat -> nat -> R) :
  rsum l (fun i => rsum l' (fun j => f i j))
  = rsum l' (fun j => rsum l (fun i => f i j)).
Proof.
  induction l as [| i l IH].
  - rewrite rsum_nil. symmetry. apply rsum_zero. intros; apply rsum_nil.
  - change (i :: l) with ([i] ++ l). rewrite rsum_app, rsum_single, IH.
    rewrite <- rsum_plus. apply rsum_ext. intros j _.
    rewrite rsum_app, rsum_single. reflexivity.
Qed.

Lemma rsum_shift (N : nat) (f : nat -> R) :
  rsum (range N) (fun t => f (S t)) = rsum (range N) f + f N - f 0%nat.
Proof.
  unfold range. induction N as [| N IH].
  - rewrite !rsum_nil. ring.
  - rewrite seq_S, !rsum_app, !rsum_single, IH. cbn [Nat.add]. ring.
Qed.

(** ** Sums of plane waves over one axis *)

Lemma cos_sin_shift_period (phi : R) (q : nat) :
  cos (phi - 2 * PI * INR q) = cos phi /\ sin (phi - 2 * PI * INR q) = sin phi.
Proof.
  split.
  - rewrite <- (cos_period (phi - 2 * PI * INR q) q). f_equal. ring.
  - rewrite <- (sin_period (phi - 2 * PI * INR q) q). f_equal. ring.
Qed.

Lemma cos_lt_1 (q N : nat) :
  (0 < q)%nat -> (q < N)%nat -> cos (- (2 * PI) * INR q / INR N) < 1.
Proof.
  intros Hq HN.
  assert (HNpos : 0 < INR N) by (apply lt_0_INR; lia).
  assert (Hqpos : 0 < INR q) by (apply lt_0_INR; lia).
  assert (HqN : INR q < INR N) by (apply lt_INR; lia).
  pose proof PI_RGT_0 as Hpi.
  set (a := PI * INR q / INR N).
  replace (- (2 * PI) * INR q / INR N) with (- (2 * a))
    by (unfold a; field; lra).
  rewrite cos_neg, cos_2a_sin.
  assert (Ha : 0 < a < PI).
  { unfold a. split.
    - apply Rdiv_lt_0_compat; [apply Rmult_lt_0_compat | ]; assumption.
    - apply Rmult_lt_reg_r with (INR N); [assumption | ].
      unfold Rdiv. rewrite Rmult_assoc, Rinv_l, Rmult_1_r by lra.
      apply Rmult_lt_compat_l; assumption. }
  pose proof (sin_gt_0 a (proj1 Ha) (proj2 Ha)) as Hs.
  nra.
Qed.

(** The values of a plane wave over one period add up to zero. *)
Lemma plane_wave_sum (N q : nat) (phi : R) :
  (0 < q)%nat -> (q < N)%nat ->
  rsum (range N) (fun t => cos (phi + - (2 * PI) * INR q / INR N * INR t)) = 0 /\
  rsum (range N) (fun t => sin (phi + - (2 * PI) * INR q / INR N * INR t)) = 0.
Proof.
  intros Hq HN.
  assert (HNpos : INR N <> 0) by (apply not_0_INR; lia).
  set (theta := - (2 * PI) * INR q / INR N).
  set (c := fun t => cos (phi + theta * INR t)).
  set (s := fun t => sin (phi + theta * INR t)).
  change (rsum (range N) c = 0 /\ rsum (range N) s = 0).
  assert (Hstep : forall t,
            c (S t) = c t * cos theta - s t * sin theta /\
            s (S t) = s t * cos theta + c t * sin theta).
  { intro t. unfold c, s. rewrite S_INR.
    replace (phi + theta * (INR t + 1)) with ((phi + theta * INR t) + theta)
      by ring.
    rewrite (cos_plus (phi + theta * INR t) theta),
      (sin_plus (phi + theta * INR t) theta). split; ring. }
  assert (Hper : c N = c 0%nat /\ s N = s 0%nat).
  { unfold c, s. simpl (INR 0). rewrite Rmult_0_r, Rplus_0_r.
    replace (phi + theta * INR N) with (phi - 2 * PI * INR q)
      by (unfold theta; field; assumption).
    apply cos_sin_shift_period. }
  pose proof (rsum_shift N c) as Hc. pose proof (rsum_shift N s) as Hs.
  destruct Hper as [Hpc Hps]. rewrite Hpc in Hc. rewrite Hps in Hs.
  rewrite (rsum_ext (range N) (fun t => c (S t))
             (fun t => cos theta * c t + - sin theta * s t)) in Hc
    by (intros t _; cbv beta; rewrite (proj1 (Hstep t)); ring).
  rewrite (rsum_ext (range N) (fun t => s (S t))
             (fun t => cos theta * s t + sin theta * c t)) in Hs
    by (intros t _; cbv beta; rewrite (proj2 (Hstep t)); ring).
  rewrite rsum_plus, !rsum_mult_l in Hc, Hs.
  pose proof (cos_lt_1 q N Hq HN) as Hlt. fold theta in Hlt.
  set (Cs := rsum (range N) c) in *. set (Ss := rsum (range N) s) in *.
  set (u := cos theta) in *. set (v := sin theta) in *.
  assert (E1 : (u - 1) * Cs - v * Ss = 0) by lra.
  assert (E2 : (u - 1) * Ss + v * Cs = 0) by lra.
  assert (HC : Cs * ((u - 1) * (u - 1) + v * v) = 0).
  { replace (Cs * ((u - 1) * (u - 1) + v * v))
      with ((u - 1) * ((u - 1) * Cs - v * Ss) + v * ((u - 1) * Ss + v * Cs))
      by ring.
    rewrite E1, E2. ring. }
  assert (HS : Ss * ((u - 1) * (u - 1) + v * v) = 0).
  { replace (Ss * ((u - 1) * (u - 1) + v * v))
      with ((u - 1) * ((u - 1) * Ss + v * Cs) - v * ((u - 1) * Cs - v * Ss))
      by ring.
    rewrite E1, E2. ring. }
  assert (Hpos : 0 < (u - 1) * (u - 1) + v * v).
  { assert (0 < (u - 1) * (u - 1)) by nra.
    pose proof (Rle_0_sqr v) as Hv. unfold Rsqr in Hv. lra. }
  split.
  - apply Rmult_integral in HC. destruct HC; [assumption | lra].
  - apply Rmult_integral in HS. destruct HS; [assumption | lra].
Qed.

(** ** Sums of plane waves over the lattice *)

Lemma lattice_wave_sum (g : R -> R) (N qx qy qz : nat) :
  (forall q phi, (0 < q)%nat -> (q < N)%nat ->
     rsum (range N) (fun t => g (phi + - (2 * PI) * INR q / INR N * INR t)) = 0) ->
  (qx < N)%nat -> (qy < N)%nat -> (qz < N)%nat ->
  (0 < qx + qy + qz)%nat ->
  rsum (range N) (fun x => rsum (range N) (fun y => rsum (range N) (fun z =>
    g (phase N qx qy qz x y z)))) = 0.
Proof.
  intros Hg Hx Hy Hz Hq.
  assert (HN : INR N <> 0) by (apply not_0_INR; lia).
  destruct (Nat.eq_dec qz 0) as [Hz0 | Hz0].
  - destruct (Nat.eq_dec qy 0) as [Hy0 | Hy0].
    + (* the x axis carries the wave *)
      rewrite rsum_swap. apply rsum_zero. intros y _.
      rewrite rsum_swap. apply rsum_zero. intros z _.
      rewrite (rsum_ext _ _
                 (fun x => g (- (2 * PI) * (INR qy * INR y + INR qz * INR z)
                              / INR N
                              + - (2 * PI) * INR qx / INR N * INR x))).
      * apply Hg; lia.
      * intros x _. f_equal. unfold phase. field. exact HN.
    + apply rsum_zero. intros x _.
      rewrite rsum_swap. apply rsum_zero. intros z _.
      rewrite (rsum_ext _ _
                 (fun y => g (- (2 * PI) * (INR qx * INR x + INR qz * INR z)
                              / INR N
                              + - (2 * PI) * INR qy / INR N * INR y))).
      * apply Hg; lia.
      * intros y _. f_equal. unfold phase. field. exact HN.
  - apply rsum_zero. intros x _. apply rsum_zero. intros y _.
    rewrite (rsum_ext _ _
               (fun z => g (- (2 * PI) * (INR qx * INR x + INR qy * INR y)
                            / INR N
                            + - (2 * PI) * INR qz / INR N * INR z))).
    + apply Hg; lia.
    + intros z _. f_equal. unfold phase. field. exact HN.
Qed.

Lemma fftn_parts (N : nat) (F : Grid Mat3) (qx qy qz i j : nat) :
  fftn N F qx qy qz i j =
  (rsum (range N) (fun x => rsum (range N) (fun y => rsum (range N) (fun z =>
     F x y z i j * cos (phase N qx qy qz x y z)))),
   rsum (range N) (fun x => rsum (range N) (fun y => rsum (range N) (fun z =>
     F x y z i j * sin (phase N qx qy qz x y z))))).
Proof.
  unfold fftn. rewrite cx_sum_parts. f_equal.
  - apply rsum_ext. intros x _. rewrite cx_sum_parts. cbn [fst].
    apply rsum_ext. intros y _. rewrite cx_sum_parts. cbn [fst].
    apply rsum_ext. intros z _.
    unfold Cx.mul, Cx.of_real, Cx.cis, phase. cbn [fst snd]. ring.
  - apply rsum_ext. intros x _. rewrite cx_sum_parts. cbn [snd].
    apply rsum_ext. intros y _. rewrite cx_sum_parts. cbn [snd].
    apply rsum_ext. intros z _.
    unfold Cx.mul, Cx.of_real, Cx.cis, phase. cbn [fst snd]. ring.
Qed.

(** Adding the same tensor at every site changes the spectrum at the
    zero wavevector only. *)
Lemma fftn_uniform_shift (N : nat) (F F' : Grid Mat3) (c : R)
    (qx qy qz i j : nat) :
  (forall x y z, (x < N)%nat -> (y < N)%nat -> (z < N)%nat ->
     F' x y z i j = F x y z i j + c) ->
  (qx < N)%nat -> (qy < N)%nat -> (qz < N)%nat ->
  (0 < qx + qy + qz)%nat ->
  fftn N F' qx qy qz i j = fftn N F qx qy qz i j.
Proof.
  intros HF Hx Hy Hz Hq.
  pose proof (lattice_wave_sum cos N qx qy qz
                (fun q phi H0 H1 => proj1 (plane_wave_sum N q phi H0 H1))
                Hx Hy Hz Hq) as Hcos.
  pose proof (lattice_wave_sum sin N qx qy qz
                (fun q phi H0 H1 => proj2 (plane_wave_sum N q phi H0 H1))
                Hx Hy Hz Hq) as Hsin.
  rewrite !fftn_parts.
  assert (Hsum : forall g : R -> R,
            rsum (range N) (fun x => rsum (range N) (fun y =>
              rsum (range N) (fun z => g (phase N qx qy qz x y z)))) = 0 ->
            rsum (range N) (fun x => rsum (range N) (fun y =>
              rsum (range N) (fun z =>
                F' x y z i j * g (phase N qx qy qz x y z))))
            = rsum (range N) (fun x => rsum (range N) (fun y =>
                rsum (range N) (fun z =>
                  F x y z i j * g (phase N qx qy qz x y z))))).
  { intros g Hg.
    rewrite (rsum_ext _ _
               (fun x =>
                  rsum (range N) (fun y => rsum (range N) (fun z =>
                    F x y z i j * g (phase N qx qy qz x y z)))
                  + c * rsum (range N) (fun y => rsum (range N) (fun z =>
                          g (phase N qx qy qz x y z))))).
    - rewrite rsum_plus, rsum_mult_l, Hg. ring.
    - intros x Hx'. apply in_range in Hx'.
      rewrite <- rsum_mult_l, <- rsum_plus. apply rsum_ext. intros y Hy'.
      apply in_range in Hy'.
      rewrite <- rsum_mult_l, <- rsum_plus. apply rsum_ext. intros z Hz'.
      apply in_range in Hz'.
      rewrite HF by assumption. ring. }
  rewrite (Hsum cos Hcos), (Hsum sin Hsin). reflexivity.
Qed.

(** ** Energies of fields that differ by a uniform strain *)

Lemma in_range3_lt (r N W q : nat) : In q (range3 r N W) -> (q < N)%nat.
Proof.
  unfold range3. rewrite in_map_iff. intros (i & <- & Hi).
  apply in_seq in Hi. destruct Hi as [_ Hi]. cbn [Nat.add] in Hi.
  destruct W as [| W]; [rewrite Nat.div_0_r in Hi; lia | ].
  assert (Hle : (S i <= (N - r + (S W - 1)) / S W)%nat) by lia.
  pose proof (Nat.Div0.mul_div_le (N - r + (S W - 1)) (S W)) as Hm.
  assert (Hmul : (S W * S i <= S W * ((N - r + (S W - 1)) / S W))%nat)
    by (apply Nat.mul_le_mono_l; exact Hle).
  nia.
Qed.

Lemma allclose0_origin (N : nat) :
  allclose0 (q_grid_of N 0%nat 0%nat 0%nat) = true.
Proof.
  apply allclose0_iff.
  assert (H : forall c, q_grid_of N 0%nat 0%nat 0%nat c = 0).
  { intro c. unfold q_grid_of, fftfreq.
    replace (0 <? (N - 1) / 2 + 1)%nat with true
      by (symmetry; apply Nat.ltb_lt; lia).
    destruct c as [| [| c]]; simpl INR; ring. }
  rewrite !H, Rabs_R0. unfold atol. lra.
Qed.

Lemma energy_loops_uniform_shift (N : nat) (B : Grid Tensor4)
    (F F' : Grid Mat3) (c : Mat3) (rank size : nat) :
  (forall x y z i j, (x < N)%nat -> (y < N)%nat -> (z < N)%nat ->
     F' x y z i j = F x y z i j + c i j) ->
  energy_loops N (q_grid_of N) B (fftn N F') rank size
  = energy_loops N (q_grid_of N) B (fftn N F) rank size.
Proof.
  intro HF. rewrite !energy_loops_sum.
  apply rsum_ext. intros qx Hx. apply in_range3_lt in Hx.
  apply rsum_ext. intros qy Hy. apply in_range in Hy.
  apply rsum_ext. intros qz Hz. apply in_range in Hz.
  destruct (Nat.eq_dec (qx + qy + qz) 0) as [H0 | H0].
  - assert (qx = 0 /\ qy = 0 /\ qz = 0)%nat as (-> & -> & ->) by lia.
    unfold energy_term. rewrite allclose0_origin. reflexivity.
  - apply energy_term_ext. intros i j _ _.
    apply (fftn_uniform_shift N F F' (c i j)); try assumption; try lia.
    intros x y z Hx' Hy' Hz'. apply HF; assumption.
Qed.

Lemma cx_mul_zero_l (a : Cx.t) : Cx.mul Cx.zero a = Cx.zero.
Proof. unfold Cx.mul, Cx.zero. cbn [fst snd]. f_equal; ring. Qed.

Lemma cx_add_zero : Cx.add Cx.zero Cx.zero = Cx.zero.
Proof. unfold Cx.add, Cx.zero. cbn [fst snd]. f_equal; ring. Qed.

Lemma contraction_zero (Bq : Tensor4) :
  contraction (fun _ _ => Cx.zero) Bq = 0.
Proof.
  unfold contraction, Cx.esum.
  rewrite !cx_mul_zero_l, !cx_add_zero. reflexivity.
Qed.

(** X9: a lattice whose sites all hold the same spin has elastic energy
    zero, on every rank, for every kernel and in each of the three
    scripts: its spectrum vanishes away from the zero wavevector, which
    the evaluator skips.  This is the lattice [main] of [mac6.py] starts
    from. *)
Theorem uniform_lattice_has_zero_energy
    (N : nat) (spin : Z) (e1 e2 e3 : Mat3) (B : Grid Tensor4)
    (rank size : nat) :
  let strain_ft :=
    fftn N (compute_strain_field N (fun _ _ _ => spin) e1 e2 e3) in
  Sporc.compute_elastic_energy N (q_grid_of N) B strain_ft rank size = 0 /\
  Mac5.compute_elastic_energy N (q_grid_of N) B strain_ft rank size = 0 /\
  Mac6.compute_elastic_energy N (q_grid_of N) B strain_ft rank size = 0.
Proof.
  intro strain_ft.
  assert (H : energy_loops N (q_grid_of N) B strain_ft rank size = 0).
  { subst strain_ft.
    rewrite (energy_loops_uniform_shift N B (zerosG zeros2) _
               (strain_of e1 e2 e3 spin)).
    - rewrite energy_loops_sum.
      apply rsum_zero. intros qx _. apply rsum_zero. intros qy _.
      apply rsum_zero. intros qz _. unfold energy_term.
      destruct (allclose0 (q_grid_of N qx qy qz)); [reflexivity | ].
      rewrite (contraction_ext _ (fun _ _ => Cx.zero)).
      + apply contraction_zero.
      + intros i j _ _. rewrite fftn_parts. unfold Cx.zero. f_equal;
          (apply rsum_zero; intros x _; apply rsum_zero; intros y _;
           apply rsum_zero; intros z _; unfold zerosG, zeros2; ring).
    - intros x y z i j Hx Hy Hz. rewrite compute_strain_field_cell.
      replace (x <? N)%nat with true by (symmetry; apply Nat.ltb_lt; assumption).
      replace (y <? N)%nat with true by (symmetry; apply Nat.ltb_lt; assumption).
      replace (z <? N)%nat with true by (symmetry; apply Nat.ltb_lt; assumption).
      cbn [andb]. unfold zerosG, zeros2. ring. }
  unfold Sporc.compute_elastic_energy, Mac5.compute_elastic_energy,
    Mac6.compute_elastic_energy. cbv zeta. rewrite H.
  unfold Rdiv. repeat split; ring.
Qed.

(** X10: for a lattice whose spins are all 1, 2 or 3, the energy every
    script computes from the strain field does not depend on
    [epsilon_a]: the reference strains for [epsilon_a] and for 0 differ
    by the same multiple of the identity at every site, which only
    changes the spectrum at the zero wavevector. *)
Theorem energy_does_not_depend_on_epsilon_a
    (N : nat) (lattice_spins : Grid Z) (epsilon_a gamma_0 : R)
    (B : Grid Tensor4) (rank size : nat) :
  gamma_0 <> 0 ->
  (forall x y z, (x < N)%nat -> (y < N)%nat -> (z < N)%nat ->
     (1 <= lattice_spins x y z <= 3)%Z) ->
  exists e1 e2 e3 e1' e2' e3',
    define_dimensionless_strains epsilon_a gamma_0 = inr (e1, e2, e3) /\
    define_dimensionless_strains 0 gamma_0 = inr (e1', e2', e3') /\
    let strain_ft :=
      fftn N (compute_strain_field N lattice_spins e1 e2 e3) in
    let strain_ft' :=
      fftn N (compute_strain_field N lattice_spins e1' e2' e3') in
    Sporc.compute_elastic_energy N (q_grid_of N) B strain_ft rank size
    = Sporc.compute_elastic_energy N (q_grid_of N) B strain_ft' rank size /\
    Mac5.compute_elastic_energy N (q_grid_of N) B strain_ft rank size
    = Mac5.compute_elastic_energy N (q_grid_of N) B strain_ft' rank size /\
    Mac6.compute_elastic_energy N (q_grid_of N) B strain_ft rank size
    = Mac6.compute_elastic_energy N (q_grid_of N) B strain_ft' rank size.
Proof.
  intros Hg HL.
  rewrite !define_dimensionless_strains_ok by exact Hg.
  do 6 eexists. split; [reflexivity | ]. split; [reflexivity | ].
  set (f := epsilon_a / gamma_0).
  replace (0 / gamma_0) with 0 by (field; exact Hg).
  intros strain_ft strain_ft'.
  assert (H : energy_loops N (q_grid_of N) B strain_ft rank size
              = energy_loops N (q_grid_of N) B strain_ft' rank size).
  { subst strain_ft strain_ft'.
    apply (energy_loops_uniform_shift N B _ _ (diag3 f f f)).
    intros x y z i j Hx Hy Hz.
    rewrite !compute_strain_field_cell.
    replace (x <? N)%nat with true by (symmetry; apply Nat.ltb_lt; assumption).
    replace (y <? N)%nat with true by (symmetry; apply Nat.ltb_lt; assumption).
    replace (z <? N)%nat with true by (symmetry; apply Nat.ltb_lt; assumption).
    cbn [andb]. specialize (HL x y z Hx Hy Hz).
    unfold strain_of.
    destruct (Z.eqb_spec (lattice_spins x y z) 1);
      [ | destruct (Z.eqb_spec (lattice_spins x y z) 2);
          [ | destruct (Z.eqb_spec (lattice_spins x y z) 3);
              [ | exfalso; lia ] ] ];
      unfold diag3;
      destruct i as [| [| [| i]]]; destruct j as [| [| [| j]]]; ring. }
  unfold Sporc.compute_elastic_energy, Mac5.compute_elastic_energy,
    Mac6.compute_elastic_energy. cbv zeta. rewrite H.
  repeat split; reflexivity.
Qed.

Lemma energy_does_not_depend_on_epsilon_a_witness :
  let lattice_spins : Grid Z :=
    fun x y z => (1 + Z.of_nat ((x + y + z) mod 3))%Z in
  let B : Grid Tensor4 := zerosG zeros4 in
  exists e1 e2 e3 e1' e2' e3',
    define_dimensionless_strains (1 / 10) (4 / 10) = inr (e1, e2, e3) /\
    define_dimensionless_strains 0 (4 / 10) = inr (e1', e2', e3') /\
    let strain_ft :=
      fftn 16 (compute_strain_field 16 lattice_spins e1 e2 e3) in
    let strain_ft' :=
      fftn 16 (compute_strain_field 16 lattice_spins e1' e2' e3') in
    Sporc.compute_elastic_energy 16 (q_grid_of 16) B strain_ft 1 4
    = Sporc.compute_elastic_energy 16 (q_grid_of 16) B strain_ft' 1 4 /\
    Mac5.compute_elastic_energy 16 (q_grid_of 16) B strain_ft 1 4
    = Mac5.compute_elastic_energy 16 (q_grid_of 16) B strain_ft' 1 4 /\
    Mac6.compute_elastic_energy 16 (q_grid_of 16) B strain_ft 1 4
    = Mac6.compute_elastic_energy 16 (q_grid_of 16) B strain_ft' 1 4.
Proof.
  apply (energy_does_not_depend_on_epsilon_a
           16 (fun x y z => (1 + Z.of_nat ((x + y + z) mod 3))%Z)
           (1 / 10) (4 / 10) (zerosG zeros4) 1 4).
  - lra.
  - intros x y z _ _ _.
    pose proof (Nat.mod_upper_bound (x + y + z) 3 ltac:(lia)). lia.
Defined.

(** ** The acoustic tensor of mac5.py is never singular *)

Lemma mac5_acoustic_entries (C11 C12 C44 : R) (n : Vec3) (i j : nat) :
  (i < 3)%nat -> (j < 3)%nat ->
  Mac5.acoustic (stiffness_loops C11 C12 C44) n i j =
  mat3 (C11 * (n 0%nat * n 0%nat)
        + C44 * (n 1%nat * n 1%nat + n 2%nat * n 2%nat))
       (C12 * (n 0%nat * n 1%nat)) (C12 * (n 0%nat * n 2%nat))
       (C12 * (n 1%nat * n 0%nat))
       (C11 * (n 1%nat * n 1%nat)
        + C44 * (n 0%nat * n 0%nat + n 2%nat * n 2%nat))
       (C12 * (n 1%nat * n 2%nat))
       (C12 * (n 2%nat * n 0%nat)) (C12 * (n 2%nat * n 1%nat))
       (C11 * (n 2%nat * n 2%nat)
        + C44 * (n 0%nat * n 0%nat + n 1%nat * n 1%nat)) i j.
Proof.
  case3 i; case3 j; unfold Mac5.acoustic, esum; eval_stiffness;
    unfold mat3; ring.
Qed.

Lemma norm_nonzero_squares (n : Vec3) :
  norm n <> 0 -> 0 < n 0%nat * n 0%nat + n 1%nat * n 1%nat + n 2%nat * n 2%nat.
Proof.
  intro Hn.
  pose proof (Rle_0_sqr (n 0%nat)) as H0. pose proof (Rle_0_sqr (n 1%nat)) as H1.
  pose proof (Rle_0_sqr (n 2%nat)) as H2. unfold Rsqr in *.
  destruct (Req_dec (n 0%nat * n 0%nat + n 1%nat * n 1%nat + n 2%nat * n 2%nat) 0)
    as [Hz | Hz]; [ | lra ].
  exfalso. apply Hn. unfold norm. rewrite Hz. apply sqrt_0.
Qed.

Lemma mac5_acoustic_det_pos (a : R) (n : Vec3) :
  0 < a -> norm n <> 0 ->
  0 < det (Mac5.acoustic (stiffness_loops (4 / a) (4 / a / 2) 1) n).
Proof.
  intros Ha Hn.
  apply norm_nonzero_squares in Hn.
  unfold det, cofactor. eval_idx.
  rewrite !mac5_acoustic_entries by lia. unfold mat3.
  set (x := n 0%nat * n 0%nat) in *. set (y := n 1%nat * n 1%nat) in *.
  set (z := n 2%nat * n 2%nat) in *.
  assert (Hx : 0 <= x) by (pose proof (Rle_0_sqr (n 0%nat)) as H; exact H).
  assert (Hy : 0 <= y) by (pose proof (Rle_0_sqr (n 1%nat)) as H; exact H).
  assert (Hz : 0 <= z) by (pose proof (Rle_0_sqr (n 2%nat)) as H; exact H).
  set (c := 4 / a / 2).
  assert (Hc : 0 < c).
  { unfold c. apply Rdiv_lt_0_compat; [ | lra ].
    apply Rdiv_lt_0_compat; lra. }
  replace (4 / a) with (2 * c) by (unfold c; field; lra).
  set (d0 := c * x + (y + z)). set (d1 := c * y + (x + z)).
  set (d2 := c * z + (x + y)).
  assert (Hcx : 0 <= c * x) by (apply Rmult_le_pos; lra).
  assert (Hcy : 0 <= c * y) by (apply Rmult_le_pos; lra).
  assert (Hcz : 0 <= c * z) by (apply Rmult_le_pos; lra).
  assert (Hpos : forall u, 0 <= u -> 0 < u \/ u = 0) by (intros; lra).
  assert (Hd0 : 0 < d0).
  { unfold d0. destruct (Hpos x Hx) as [Hp | Hp]; [ | lra ].
    assert (0 < c * x) by (apply Rmult_lt_0_compat; assumption). lra. }
  assert (Hd1 : 0 < d1).
  { unfold d1. destruct (Hpos y Hy) as [Hp | Hp]; [ | lra ].
    assert (0 < c * y) by (apply Rmult_lt_0_compat; assumption). lra. }
  assert (Hd2 : 0 < d2).
  { unfold d2. destruct (Hpos z Hz) as [Hp | Hp]; [ | lra ].
    assert (0 < c * z) by (apply Rmult_lt_0_compat; assumption). lra. }
  match goal with
  | |- 0 < ?e =>
      replace e with (d0 * d1 * d2
                      + c * (x * (d1 * d2) + y * (d0 * d2) + z * (d0 * d1)))
        by (unfold d0, d1, d2, x, y, z; ring)
  end.
  assert (H012 : 0 < d0 * d1 * d2)
    by (apply Rmult_lt_0_compat; [apply Rmult_lt_0_compat | ]; assumption).
  assert (H12 : 0 <= x * (d1 * d2))
    by (apply Rmult_le_pos; [ | apply Rmult_le_pos]; lra).
  assert (H02 : 0 <= y * (d0 * d2))
    by (apply Rmult_le_pos; [ | apply Rmult_le_pos]; lra).
  assert (H01 : 0 <= z * (d0 * d1))
    by (apply Rmult_le_pos; [ | apply Rmult_le_pos]; lra).
  assert (0 <= c * (x * (d1 * d2) + y * (d0 * d2) + z * (d0 * d1)))
    by (apply Rmult_le_pos; lra).
  lra.
Qed.

(** X4: for a positive anisotropy parameter and any nonzero direction,
    the acoustic tensor [mac5.py] builds from the stiffness tensor has a
    positive determinant: [G] is always [np.linalg.inv(G_inv)], a right
    inverse of the acoustic tensor, and the fallback [np.zeros((3, 3))]
    is never taken. *)
Theorem mac5_green_operator_is_the_inverse (a : R) (n : Vec3) :
  0 < a -> norm n <> 0 ->
  exists C,
    precompute_stiffness_tensor a = inr C /\
    let G_inv := Mac5.acoustic C n in
    0 < det G_inv /\
    (forall i j, green G_inv i j = inv G_inv i j) /\
    (forall i j, (i < 3)%nat -> (j < 3)%nat ->
       esum (fun k => G_inv i k * green G_inv k j)
       = (if (i =? j)%nat then 1 else 0)).
Proof.
  intros Ha Hn.
  rewrite precompute_stiffness_tensor_ok by lra.
  eexists. split; [reflexivity | ]. intro G_inv.
  pose proof (mac5_acoustic_det_pos a n Ha Hn) as Hdet. fold G_inv in Hdet.
  split; [exact Hdet | ]. split.
  - intros i j. unfold green.
    destruct (Req_EM_T (det G_inv) 0); [lra | reflexivity].
  - intros i j Hi Hj. apply green_inverse; [lra | assumption | assumption].
Qed.

Lemma norm_vec3_110 : norm (vec3 1 1 0) <> 0.
Proof.
  unfold norm, vec3. intro H. apply sqrt_eq_0 in H; lra.
Qed.

Lemma mac5_green_operator_is_the_inverse_witness :
  exists C,
    precompute_stiffness_tensor 3 = inr C /\
    let G_inv := Mac5.acoustic C (vec3 1 1 0) in
    0 < det G_inv /\
    (forall i j, green G_inv i j = inv G_inv i j) /\
    (forall i j, (i < 3)%nat -> (j < 3)%nat ->
       esum (fun k => G_inv i k * green G_inv k j)
       = (if (i =? j)%nat then 1 else 0)).
Proof.
  apply (mac5_green_operator_is_the_inverse 3 (vec3 1 1 0));
    [lra | exact norm_vec3_110].
Defined.

(** ** The proposal *)

(** X11: the proposal of [monte_carlo_step] reads the current spin at
    the drawn site and proposes one of 1, 2, 3 that differs from it;
    [random.choice] picks among two candidates when the current spin is
    1, 2 or 3, and among all three otherwise. *)
Theorem proposal_is_another_spin (lattice : Grid Z) (d : Draws) :
  let p := draw_proposal lattice d in
  (pick d < length (other_spins (current_spin p)))%nat ->
  current_spin p = lattice (site_x d) (site_y d) (site_z d) /\
  (1 <= proposed_spin p <= 3)%Z /\
  proposed_spin p <> current_spin p /\
  length (other_spins (current_spin p))
  = (if ((1 <=? current_spin p) && (current_spin p <=? 3))%Z then 2 else 3)%nat.
Proof.
  intros p. subst p.
  cbn [draw_proposal current_spin proposed_spin].
  set (c := lattice (site_x d) (site_y d) (site_z d)).
  unfold choice, other_spins, filter.
  destruct (Z.eqb_spec 1 c), (Z.eqb_spec 2 c), (Z.eqb_spec 3 c);
    cbn [negb length]; try (exfalso; lia); intro Hp;
    (split; [reflexivity | ]);
    destruct (pick d) as [| [| [| k]]]; cbn [nth]; try (exfalso; lia);
    repeat split; try lia;
    destruct (Z.leb_spec 1 c), (Z.leb_spec c 3); cbn [andb];
    try reflexivity; exfalso; lia.
Qed.

Lemma proposal_is_another_spin_witness :
  let p := draw_proposal (fun x y z => Z.of_nat (x + y + z)) 
             {| site_x := 1; site_y := 0; site_z := 1; pick := 1;
                uniform := 1 / 2 |} in
  current_spin p = 2%Z /\
  (1 <= proposed_spin p <= 3)%Z /\
  proposed_spin p <> current_spin p /\
  length (other_spins (current_spin p))
  = (if ((1 <=? current_spin p) && (current_spin p <=? 3))%Z then 2 else 3)%nat.
Proof.
  apply (proposal_is_another_spin
           (fun x y z => Z.of_nat (x + y + z))
           {| site_x := 1; site_y := 0; site_z := 1; pick := 1;
              uniform := 1 / 2 |}).
  cbn. lia.
Defined.

(** ** The macroscopic strain *)

Lemma rsum_const (N : nat) (c : R) :
  rsum (range N) (fun _ => c) = INR N * c.
Proof.
  unfold range. induction N as [| N IH].
  - rewrite rsum_nil. simpl. ring.
  - rewrite seq_S, rsum_app, rsum_single, IH, S_INR. ring.
Qed.

Lemma INR_cube_nonzero (N : nat) : (0 < N)%nat -> INR (N * N * N) <> 0.
Proof. intro H. apply not_0_INR. nia. Qed.

(** X6: on a nonempty lattice whose spins are all 1, 2 or 3, the mean of
    the strain field (the macroscopic strain of [mac6.py]) has trace
    1 + 3 * epsilon_a / gamma_0 and no off-diagonal entry, whatever the
    arrangement of the spins: no Monte Carlo move changes its trace. *)
Theorem macro_strain_trace_is_conserved
    (N : nat) (lattice_spins : Grid Z) (epsilon_a gamma_0 : R) :
  (0 < N)%nat -> gamma_0 <> 0 ->
  (forall x y z, (x < N)%nat -> (y < N)%nat -> (z < N)%nat ->
     (1 <= lattice_spins x y z <= 3)%Z) ->
  exists e1 e2 e3,
    define_dimensionless_strains epsilon_a gamma_0 = inr (e1, e2, e3) /\
    let macro_strain :=
      mean N (compute_strain_field N lattice_spins e1 e2 e3) in
    macro_strain 0%nat 0%nat + macro_strain 1%nat 1%nat
    + macro_strain 2%nat 2%nat
    = 1 + 3 * (epsilon_a / gamma_0) /\
    (forall i j, i <> j -> macro_strain i j = 0).
Proof.
  intros HN Hg HL.
  rewrite define_dimensionless_strains_ok by exact Hg.
  do 3 eexists. split; [reflexivity | ]. intro macro_strain.
  set (f := epsilon_a / gamma_0) in *.
  pose proof (INR_cube_nonzero N HN) as Hcube.
  assert (Hcell : forall x y z i j,
            (x < N)%nat -> (y < N)%nat -> (z < N)%nat ->
            compute_strain_field N lattice_spins
              (diag3 (1 + f) f f) (diag3 f (1 + f) f) (diag3 f f (1 + f))
              x y z i j
            = strain_of (diag3 (1 + f) f f) (diag3 f (1 + f) f)
                        (diag3 f f (1 + f)) (lattice_spins x y z) i j).
  { intros x y z i j Hx Hy Hz. rewrite compute_strain_field_cell.
    replace (x <? N)%nat with true by (symmetry; apply Nat.ltb_lt; assumption).
    replace (y <? N)%nat with true by (symmetry; apply Nat.ltb_lt; assumption).
    replace (z <? N)%nat with true by (symmetry; apply Nat.ltb_lt; assumption).
    reflexivity. }
  split.
  - subst macro_strain. rewrite !mean_sum.
    rewrite <- !Rdiv_plus_distr, <- !rsum_plus.
    rewrite (rsum_ext _ _ (fun _ => INR N * (INR N * (1 + 3 * f)))).
    + rewrite rsum_const, !mult_INR. field. apply not_0_INR. lia.
    + intros x Hx. apply in_range in Hx.
      rewrite <- !rsum_plus.
      rewrite (rsum_ext _ _ (fun _ => INR N * (1 + 3 * f)));
        [apply rsum_const | ].
      intros y Hy. apply in_range in Hy.
      rewrite <- !rsum_plus.
      rewrite (rsum_ext _ _ (fun _ => 1 + 3 * f)); [apply rsum_const | ].
      intros z Hz. apply in_range in Hz.
      rewrite !Hcell by assumption.
      specialize (HL x y z Hx Hy Hz). unfold strain_of.
      destruct (Z.eqb_spec (lattice_spins x y z) 1);
        [ | destruct (Z.eqb_spec (lattice_spins x y z) 2);
            [ | destruct (Z.eqb_spec (lattice_spins x y z) 3);
                [ | exfalso; lia ] ] ];
        unfold diag3; ring.
  - intros i j Hij. subst macro_strain. rewrite mean_sum.
    rewrite rsum_zero; [unfold Rdiv; ring | ].
    intros x Hx. apply in_range in Hx. apply rsum_zero.
    intros y Hy. apply in_range in Hy. apply rsum_zero.
    intros z Hz. apply in_range in Hz.
    rewrite Hcell by assumption. unfold strain_of.
    destruct (lattice_spins x y z =? 1)%Z;
      [ | destruct (lattice_spins x y z =? 2)%Z;
          [ | destruct (lattice_spins x y z =? 3)%Z ] ];
      unfold diag3, zeros2;
      destruct i as [| [| [| i]]]; destruct j as [| [| [| j]]];
      try reflexivity; exfalso; apply Hij; reflexivity.
Qed.

Lemma macro_strain_trace_is_conserved_witness :
  exists e1 e2 e3,
    define_dimensionless_strains (1 / 10) (4 / 10) = inr (e1, e2, e3) /\
    let macro_strain :=
      mean 16 (compute_strain_field
                 16 (fun x y z => (1 + Z.of_nat ((x + y + z) mod 3))%Z)
                 e1 e2 e3) in
    macro_strain 0%nat 0%nat + macro_strain 1%nat 1%nat
    + macro_strain 2%nat 2%nat
    = 1 + 3 * (1 / 10 / (4 / 10)) /\
    (forall i j, i <> j -> macro_strain i j = 0).
Proof.
  apply (macro_strain_trace_is_conserved
           16 (fun x y z => (1 + Z.of_nat ((x + y + z) mod 3))%Z)
           (1 / 10) (4 / 10)).
  - lia.
  - lra.
  - intros x y z _ _ _.
    pose proof (Nat.mod_upper_bound (x + y + z) 3 ltac:(lia)). lia.
Defined.

(** X7: the component of [np.fft.fftn(strain_field)] at the zero
    wavevector is real and equals the number of sites times
    [np.mean(strain_field)]: the two arrays [mac6.py] computes from the
    tentative strain field agree there. *)
Theorem spectrum_at_origin_is_the_macro_strain
    (N : nat) (strain_field : Grid Mat3) (i j : nat) :
  (0 < N)%nat ->
  fftn N strain_field 0%nat 0%nat 0%nat i j
  = (INR (N * N * N) * mean N strain_field i j, 0).
Proof.
  intro HN. pose proof (INR_cube_nonzero N HN) as Hcube.
  assert (Hphase : forall x y z, phase N 0 0 0 x y z = 0).
  { intros x y z. unfold phase. simpl (INR 0). unfold Rdiv. ring. }
  rewrite fftn_parts, mean_sum. f_equal.
  - rewrite (rsum_ext _ _
               (fun x => rsum (range N) (fun y => rsum (range N) (fun z =>
                  strain_field x y z i j)))).
    + field. exact Hcube.
    + intros x _. apply rsum_ext. intros y _. apply rsum_ext. intros z _.
      rewrite Hphase, cos_0. ring.
  - apply rsum_zero. intros x _. apply rsum_zero. intros y _.
    apply rsum_zero. intros z _. rewrite Hphase, sin_0. ring.
Qed.

Lemma spectrum_at_origin_is_the_macro_strain_witness :
  fftn 2 (compute_strain_field 2 (fun _ _ _ => 1%Z)
            example_e1 example_e2 example_e3) 0%nat 0%nat 0%nat 0%nat 0%nat
  = (INR (2 * 2 * 2)
     * mean 2 (compute_strain_field 2 (fun _ _ _ => 1%Z)
                 example_e1 example_e2 example_e3) 0%nat 0%nat, 0).
Proof.
  apply (spectrum_at_origin_is_the_macro_strain
           2 (compute_strain_field 2 (fun _ _ _ => 1%Z)
                example_e1 example_e2 example_e3) 0 0).
  lia.
Defined.

(** ** The wavevectors *)

(** X1: every component of the wavevector of a grid point inside the
    grid is 2 pi / N times an integer frequency, which is the index
    itself or the index minus N and lies between -(N // 2) and
    (N - 1) // 2: [np.fft.fftfreq] wraps the upper half of the axis to
    negative frequencies. *)
Theorem wavevectors_are_wrapped_frequencies (N qx qy qz c : nat) :
  (qx < N)%nat -> (qy < N)%nat -> (qz < N)%nat -> (c < 3)%nat ->
  let i := nth c [qx; qy; qz] 0%nat in
  q_grid_of N qx qy qz c = IZR (wrapped N i) * (2 * PI / INR N) /\
  (- Z.of_nat (N / 2) <= wrapped N i <= Z.of_nat ((N - 1) / 2))%Z /\
  (wrapped N i = Z.of_nat i \/ wrapped N i = Z.of_nat i - Z.of_nat N)%Z.
Proof.
  intros Hx Hy Hz Hc i.
  assert (Hi : (i < N)%nat).
  { subst i. destruct c as [| [| [| c]]]; cbn [nth]; lia. }
  split; [ | split ].
  - rewrite q_grid_wrapped by assumption. subst i.
    destruct c as [| [| [| c]]]; [ | | | exfalso; lia ];
      unfold frequencies, vec3; cbn [nth]; reflexivity.
  - pose proof (half_split N ltac:(lia)) as Hh.
    unfold wrapped. destruct (Nat.leb_spec i ((N - 1) / 2)); lia.
  - unfold wrapped. destruct (i <=? (N - 1) / 2)%nat; [left | right]; reflexivity.
Qed.

Lemma wavevectors_are_wrapped_frequencies_witness :
  let i := nth 1 [0%nat; 7%nat; 3%nat] 0%nat in
  q_grid_of 12 0%nat 7%nat 3%nat 1%nat = IZR (wrapped 12 i) * (2 * PI / INR 12) /\
  (- Z.of_nat (12 / 2) <= wrapped 12 i <= Z.of_nat ((12 - 1) / 2))%Z /\
  (wrapped 12 i = Z.of_nat i \/ wrapped 12 i = Z.of_nat i - Z.of_nat 12)%Z.
Proof.
  apply (wavevectors_are_wrapped_frequencies 12 0 7 3 1); lia.
Defined.

(** ** mac6.py: the outcome of one step *)

(** X15: one step of [mac6.py] on rank 0, for any number of ranks and a
    nonzero temperature.  The decision is the Metropolis test on the
    energy a single worker computes for the lattice with the proposed
    spin.  A rejected step
    leaves the lattice, the macroscopic strain and the energy of rank 0
    as they were; an accepted step leaves the lattice with the proposed
    spin, and the macroscopic strain and the energy of that lattice. *)
Theorem mac6_step_commits_or_restores
    (N : nat) (temperature : R) (q_grid : Grid Vec3) (B : Grid Tensor4)
    (e1 e2 e3 : Mat3) (root : Mac6.Worker) (others : list Mac6.Worker)
    (d : Draws) :
  temperature <> 0 ->
  let L := Heap.ints (Mac6.heap root) (Mac6.lattice_spins root) in
  let p := draw_proposal L d in
  let trial := setG L (px p) (py p) (pz p) (proposed_spin p) in
  let trial_field := compute_strain_field N trial e1 e2 e3 in
  let E_new := Mac6.compute_elastic_energy N q_grid B (fftn N trial_field) 0 1 in
  exists root' accepted rest,
    Mac6.monte_carlo_step N temperature q_grid B e1 e2 e3 (root :: others) d
    = (root', accepted) :: rest /\
    accepted = accepts (uniform d)
                 (acceptance_probability (E_new - Mac6.current_energy root)
                                         temperature) /\
    (accepted = false -> mac6_same root root') /\
    (accepted = true ->
     (forall x y z,
        Heap.ints (Mac6.heap root') (Mac6.lattice_spins root') x y z
        = trial x y z) /\
     Mac6.macro_strain root' = mean N trial_field /\
     Mac6.current_energy root' = E_new).
Proof.
  intros _ L p trial trial_field E_new.
  destruct (mac6_step_root N temperature q_grid B e1 e2 e3 root others d)
    as (root' & accepted & rest & Hstep & Hacc & _ & Hrej & Hcommit).
  exists root', accepted, rest.
  split; [exact Hstep | ]. split; [exact Hacc | ].
  split; [exact Hrej | exact Hcommit].
Qed.

Lemma mac6_step_commits_or_restores_witness :
  let L := Heap.ints (Mac6.heap example_mac6_root)
                     (Mac6.lattice_spins example_mac6_root) in
  let p := draw_proposal L example_draws in
  let trial := setG L (px p) (py p) (pz p) (proposed_spin p) in
  let trial_field :=
    compute_strain_field 2 trial example_e1 example_e2 example_e3 in
  let E_new :=
    Mac6.compute_elastic_energy 2 (q_grid_of 2) example_kernel
                                (fftn 2 trial_field) 0 1 in
  1 / 10 <> 0 /\
  exists root' accepted rest,
    Mac6.monte_carlo_step 2 (1 / 10) (q_grid_of 2) example_kernel
      example_e1 example_e2 example_e3
      [example_mac6_root; example_mac6_root] example_draws
    = (root', accepted) :: rest /\
    accepted = accepts (uniform example_draws)
                 (acceptance_probability
                    (E_new - Mac6.current_energy example_mac6_root)
                    (1 / 10)) /\
    (accepted = false -> mac6_same example_mac6_root root') /\
    (accepted = true ->
     (forall x y z,
        Heap.ints (Mac6.heap root') (Mac6.lattice_spins root') x y z
        = trial x y z) /\
     Mac6.macro_strain root' = mean 2 trial_field /\
     Mac6.current_energy root' = E_new).
Proof.
  split; [lra | ].
  apply (mac6_step_commits_or_restores
           2 (1 / 10) (q_grid_of 2) example_kernel
           example_e1 example_e2 example_e3
           example_mac6_root [example_mac6_root] example_draws).
  lra.
Defined.

(** ** Instances *)

Lemma mac6_more_ranks_than_sites_witness :
  let run := Mac6.main_loop 1 (1 / 10) (q_grid_of 1) (zerosG zeros4)
                            example_e1 example_e2 example_e3 30
                            [example_mac6_root; example_mac6_root]
                            (fun _ _ => example_draws) in
  let printed := snd run in
  length printed = Nat.min 30 20 /\
  (forall line, In line printed -> Mac6.accepted_moves line = 0%nat) /\
  exists root' rest,
    fst (fst run) = root' :: rest /\ mac6_same example_mac6_root root'.
Proof.
  apply (mac6_more_ranks_than_sites
           1 (1 / 10) (q_grid_of 1) (zerosG zeros4)
           example_e1 example_e2 example_e3 30
           example_mac6_root [example_mac6_root] (fun _ _ => example_draws)).
  cbn. lia.
Defined.

Lemma mac5_tentative_spectrum_is_the_recomputed_one_witness :
  snd (Mac5.propose_root 2 example_e1 example_e2 example_e3
                         example_root example_draws) 1%nat 0%nat 0%nat 0%nat 0%nat
  = snd (Mac6.propose_root 2 example_e1 example_e2 example_e3
                           example_mac6_root example_draws)
        1%nat 0%nat 0%nat 0%nat 0%nat.
Proof.
  apply (mac5_tentative_spectrum_is_the_recomputed_one
           2 example_e1 example_e2 example_e3 example_root example_mac6_root
           example_draws 1 0 0 0 0).
  - intros x y z. reflexivity.
  - intros x y z _ _ _. reflexivity.
  - cbn. lia.
  - cbn. lia.
  - cbn. lia.
  - cbn. lia.
  - cbn. lia.
Defined.

Lemma example_sporc_worker_consistent :
  sporc_spectrum_consistent 2 example_e1 example_e2 example_e3
                            example_sporc_worker /\
  sporc_energy_consistent 2 (q_grid_of 2) example_kernel example_sporc_worker.
Proof.
  split.
  - intros qx qy qz i j. reflexivity.
  - reflexivity.
Qed.

Lemma sporc_rejecting_ranks_are_restored_witness :
  Forall2 (fun w (o : Sporc.Worker * bool) =>
             snd o = false -> sporc_same w (fst o))
          [example_sporc_worker; example_sporc_worker]
          (Sporc.monte_carlo_step 2 2 (q_grid_of 2) example_kernel
             example_e1 example_e2 example_e3
             [example_sporc_worker; example_sporc_worker]
             [example_draws; example_draws]).
Proof.
  apply (sporc_rejecting_ranks_are_restored
           2 2 (q_grid_of 2) example_kernel example_e1 example_e2 example_e3
           [example_sporc_worker; example_sporc_worker]
           [example_draws; example_draws]).
  reflexivity.
Defined.

Lemma sporc_step_keeps_spectra_consistent_witness :
  Forall (fun o : Sporc.Worker * bool =>
            sporc_spectrum_consistent 2 example_e1 example_e2 example_e3
                                      (fst o))
         (Sporc.monte_carlo_step 2 2 (q_grid_of 2) example_kernel
            example_e1 example_e2 example_e3
            [example_sporc_worker; example_sporc_worker]
            [example_draws; example_draws]).
Proof.
  apply (sporc_step_keeps_spectra_consistent
           2 2 (q_grid_of 2) example_kernel example_e1 example_e2 example_e3
           [example_sporc_worker; example_sporc_worker]
           [example_draws; example_draws]).
  repeat constructor; intros qx qy qz i j; reflexivity.
Defined.

Lemma sporc_single_worker_run_is_consistent_witness :
  exists w',
    fst (fst (Sporc.steps_loop 2 2 (q_grid_of 2) example_kernel
                example_e1 example_e2 example_e3 5000
                [example_sporc_worker] (fun _ _ => [example_draws]))) = [w'] /\
    sporc_spectrum_consistent 2 example_e1 example_e2 example_e3 w' /\
    sporc_energy_consistent 2 (q_grid_of 2) example_kernel w'.
Proof.
  apply (sporc_single_worker_run_is_consistent
           2 2 (q_grid_of 2) example_kernel example_e1 example_e2 example_e3
           5000 example_sporc_worker (fun _ _ => [example_draws])).
  - lia.
  - intros step call. reflexivity.
  - intros qx qy qz i j. reflexivity.
  - reflexivity.
Defined.

Lemma sporc_run_never_stops_before_step_50_witness :
  let run := Sporc.steps_loop 2 2 (q_grid_of 2) example_kernel
               example_e1 example_e2 example_e3 5000
               [example_sporc_worker; example_sporc_worker]
               (fun _ _ => [example_draws; example_draws]) in
  let m := snd (fst run) in
  let steps_done := snd run in
  (steps_done <= 5000)%nat /\
  (Sporc.terminate_flag m = false -> steps_done = 5000%nat) /\
  (Sporc.terminate_flag m = true ->
   (50 <= steps_done)%nat /\
   ((50 <= Sporc.stable_steps m)%nat \/ (50 <= Sporc.zero_move_steps m)%nat)).
Proof.
  apply (sporc_run_never_stops_before_step_50
           2 2 (q_grid_of 2) example_kernel example_e1 example_e2 example_e3
           5000 example_sporc_worker [example_sporc_worker]
           (fun _ _ => [example_draws; example_draws])).
  - lia.
  - intros step call. reflexivity.
Defined.

Lemma mac5_kernel_formula_witness :
  let C := stiffness_loops 4 2 1 in
  let n := unit_of (q_grid_of 2 1%nat 0%nat 0%nat) in
  let G_inv : Mat3 :=
    fun i j => esum (fun m => esum (fun n' => C i m j n' * n m * n n')) in
  let G := green G_inv in
  norm n = 1 /\
  (det G_inv <> 0 ->
   forall r s, (r < 3)%nat -> (s < 3)%nat ->
     esum (fun t => G_inv r t * G t s) = (if (r =? s)%nat then 1 else 0)) /\
  (det G_inv = 0 -> forall r s, G r s = 0) /\
  snd (Mac5.precompute_reciprocal_space_and_kernel 2 C)
      1%nat 0%nat 0%nat 1%nat 1%nat 1%nat 1%nat =
  C 1%nat 1%nat 1%nat 1%nat
  - esum (fun p => esum (fun q => esum (fun r => esum (fun s =>
      n p * C p q 1%nat 1%nat * G q r * C r s 1%nat 1%nat * n s)))).
Proof.
  apply (mac5_kernel_formula 2 (stiffness_loops 4 2 1) 1 0 0 1 1 1 1);
    try lia.
  exact norm_q_grid_2_100_nonzero.
Defined.

(** ** Ranks beyond the grid *)

Lemma range3_beyond (rank N size : nat) :
  (N <= rank)%nat -> range3 rank N size = [].
Proof.
  intro H. unfold range3.
  replace (N - rank)%nat with 0%nat by lia. cbn [Nat.add].
  destruct size as [| size]; [reflexivity | ].
  rewrite Nat.div_small by lia. reflexivity.
Qed.

(** X26: a rank whose number is at least the side of the grid has an
    empty slab [range(rank, N, size)]: its local energy is 0 in each of
    the three scripts, so at most N ranks take part in the energy sum. *)
Theorem ranks_beyond_the_grid_are_idle
    (N : nat) (q_grid : Grid Vec3) (B : Grid Tensor4) (strain_ft : Grid CMat3)
    (rank size : nat) :
  (N <= rank)%nat ->
  range3 rank N size = [] /\
  Sporc.compute_elastic_energy N q_grid B strain_ft rank size = 0 /\
  Mac5.compute_elastic_energy N q_grid B strain_ft rank size = 0 /\
  Mac6.compute_elastic_energy N q_grid B strain_ft rank size = 0.
Proof.
  intro H. pose proof (range3_beyond rank N size H) as Hr.
  split; [exact Hr | ].
  unfold Sporc.compute_elastic_energy, Mac5.compute_elastic_energy,
    Mac6.compute_elastic_energy. cbv zeta.
  rewrite energy_loops_sum, Hr, rsum_nil.
  unfold Rdiv. repeat split; ring.
Qed.

Lemma ranks_beyond_the_grid_are_idle_witness :
  range3 12 12 16 = [] /\
  Sporc.compute_elastic_energy 12 (q_grid_of 12) (zerosG zeros4)
    (zerosG (fun _ _ => Cx.zero)) 12 16 = 0 /\
  Mac5.compute_elastic_energy 12 (q_grid_of 12) (zerosG zeros4)
    (zerosG (fun _ _ => Cx.zero)) 12 16 = 0 /\
  Mac6.compute_elastic_energy 12 (q_grid_of 12) (zerosG zeros4)
    (zerosG (fun _ _ => Cx.zero)) 12 16 = 0.
Proof.
  apply (ranks_beyond_the_grid_are_idle
           12 (q_grid_of 12) (zerosG zeros4) (zerosG (fun _ _ => Cx.zero))
           12 16).
  lia.
Defined.

(** ** mac6.py: properties of rank 0 that every step keeps *)

Lemma mac6_sweep_preserves (P : Mac6.Worker -> Prop) (Q : Draws -> Prop)
    (N : nat) (temperature : R) (q_grid : Grid Vec3) (B : Grid Tensor4)
    (e1 e2 e3 : Mat3) :
  (forall r others d r' accepted rest,
     Q d -> P r ->
     Mac6.monte_carlo_step N temperature q_grid B e1 e2 e3 (r :: others) d
     = (r', accepted) :: rest ->
     P r') ->
  forall (root : Mac6.Worker) (others : list Mac6.Worker)
         (draws : nat -> Draws),
    (forall call, Q (draws call)) -> P root ->
    exists root' accepted_moves rest,
      Mac6.sweep N temperature q_grid B e1 e2 e3 (root :: others) draws
      = (root', accepted_moves) :: rest /\
      P root'.
Proof.
  intros Hstep root others draws HQ HP.
  unfold Mac6.sweep. cbv zeta.
  apply (for_invariant
           (fun (_ : nat) (ranks : list (Mac6.Worker * nat)) =>
              exists root' accepted_moves rest,
                ranks = (root', accepted_moves) :: rest /\ P root')).
  - cbn [map]. do 3 eexists. split; [reflexivity | exact HP].
  - intros k ranks _ (r & a & rest & -> & Hr).
    cbn [map fst].
    destruct (mac6_step_root N temperature q_grid B e1 e2 e3 r
                (map fst rest) (draws k))
      as (r' & accepted & rest' & Hs & _).
    rewrite Hs. cbn [combine map].
    do 3 eexists. split; [reflexivity | ].
    apply (Hstep r (map fst rest) (draws k) r' accepted rest' (HQ k) Hr Hs).
Qed.

Lemma mac6_main_loop_preserves (P : Mac6.Worker -> Prop) (Q : Draws -> Prop)
    (N : nat) (temperature : R) (q_grid : Grid Vec3) (B : Grid Tensor4)
    (e1 e2 e3 : Mat3) (num_steps : nat) :
  (forall r others d r' accepted rest,
     Q d -> P r ->
     Mac6.monte_carlo_step N temperature q_grid B e1 e2 e3 (r :: others) d
     = (r', accepted) :: rest ->
     P r') ->
  forall (root : Mac6.Worker) (others : list Mac6.Worker)
         (draws : nat -> nat -> Draws),
    (forall step call, Q (draws step call)) -> P root ->
    exists root' rest,
      fst (fst (Mac6.main_loop N temperature q_grid B e1 e2 e3 num_steps
                               (root :: others) draws)) = root' :: rest /\
      P root'.
Proof.
  intros Hstep root others draws HQ HP.
  unfold Mac6.main_loop. rewrite range3_steps, for_map.
  apply (for_invariant
           (fun (_ : nat)
                (st : list Mac6.Worker * Mac6.Monitor * list Mac6.Line) =>
              exists root' rest, fst (fst st) = root' :: rest /\ P root')).
  - do 2 eexists. split; [reflexivity | exact HP].
  - intros k [[ws m] printed] _ (r & rest & Hws & Hr).
    cbn [fst] in Hws. subst ws.
    destruct (Mac6.terminate_flag m).
    + do 2 eexists. split; [reflexivity | exact Hr].
    + destruct (mac6_sweep_preserves P Q N temperature q_grid B e1 e2 e3
                  Hstep r rest (draws (S k)) (HQ (S k)) Hr)
        as (r' & a & rest' & Hsweep & Hr').
      rewrite Hsweep. cbn [fst].
      do 2 eexists. split; [reflexivity | exact Hr'].
Qed.

(** X27: in [mac6.py], if every site of the lattice of rank 0 holds 1, 2
    or 3 when the loop over the steps starts, so it does when the loop
    ends: a step only ever writes a spin [random.choice] took from
    [[1, 2, 3]]. *)
Theorem mac6_run_keeps_spins_valid
    (N : nat) (temperature : R) (q_grid : Grid Vec3) (B : Grid Tensor4)
    (e1 e2 e3 : Mat3) (num_steps : nat) (root : Mac6.Worker)
    (others : list Mac6.Worker) (draws : nat -> nat -> Draws) :
  (forall step call, (pick (draws step call) < 2)%nat) ->
  (forall x y z,
     (1 <= Heap.ints (Mac6.heap root) (Mac6.lattice_spins root) x y z <= 3)%Z) ->
  exists root' rest,
    fst (fst (Mac6.main_loop N temperature q_grid B e1 e2 e3 num_steps
                             (root :: others) draws)) = root' :: rest /\
    forall x y z,
      (1 <= Heap.ints (Mac6.heap root') (Mac6.lattice_spins root') x y z <= 3)%Z.
Proof.
  intros Hpick Hvalid.
  apply (mac6_main_loop_preserves
           (fun w => forall x y z,
              (1 <= Heap.ints (Mac6.heap w) (Mac6.lattice_spins w) x y z <= 3)%Z)
           (fun d => (pick d < 2)%nat));
    [ | exact Hpick | exact Hvalid ].
  intros r others' d r' accepted rest Hd Hr Hs x y z.
  destruct (mac6_step_root N temperature q_grid B e1 e2 e3 r others' d)
    as (r2 & acc2 & rest2 & Hs2 & _ & _ & Hrej & Hacc).
  rewrite Hs in Hs2. injection Hs2 as <- <- _.
  destruct accepted.
  - destruct (Hacc eq_refl) as (HL & _). rewrite HL.
    unfold setG.
    destruct ((x =? _)%nat && (y =? _)%nat && (z =? _)%nat); [ | apply Hr ].
    apply other_spins_in_range; [apply Hr | exact Hd].
  - destruct (Hrej eq_refl) as (HL & _). rewrite HL. apply Hr.
Qed.

Lemma mac6_run_keeps_spins_valid_witness :
  exists root' rest,
    fst (fst (Mac6.main_loop 2 (1 / 10) (q_grid_of 2) example_kernel
                             example_e1 example_e2 example_e3 10
                             [example_mac6_root; example_mac6_root]
                             (fun _ _ => example_draws))) = root' :: rest /\
    forall x y z,
      (1 <= Heap.ints (Mac6.heap root') (Mac6.lattice_spins root') x y z <= 3)%Z.
Proof.
  apply (mac6_run_keeps_spins_valid
           2 (1 / 10) (q_grid_of 2) example_kernel
           example_e1 example_e2 example_e3 10
           example_mac6_root [example_mac6_root] (fun _ _ => example_draws)).
  - intros step call. cbn. lia.
  - intros x y z. cbn. lia.
Defined.
